(** * DataLeakHunter: normalisation, dedup gate, fan-out, webhooks, export

    A shallow embedding of the detection pipeline of the repository and the
    properties stated about it. The first part gives the definitions, module
    by module after the source files:

    - [PyStr]: the string methods used ([lower], [startswith], slices,
      [replace], [join], the [in] test);
    - [Normalize]: app/utils.py and app/normalize.py ([redact], [make_event]);
    - [Webhooks]: app/integrations/webhooks.py ([match_filters],
      [try_deliver_to_all]);
    - [TeamsDoc], [Store] and [FanOut]: the documents of the [events]
      collection, the insert and the fan-out of the scan loop of
      app/connectors/*.py;
    - [Patterns]: the pattern tables of the connectors;
    - [Config]: the settings class of app/config.py;
    - [ExporterJob]: app/jobs/exporter_job.py ([run_export]);
    - [Listing]: app/api/integrations.py and app/integrations/schemas.py
      ([_build_mongo_query], [list_events], [to_ecs]);
    - [PyText], [Auth], [Api], [ExportRun], [Sinks], [Retry],
      [Subscriptions], [Alerts], [ServiceNow], [Scheduler], [LegacyExporter]
      and [Teams]: the API key check, the lookup by fingerprint, the sink
      clients of app/exporters/siem_clients.py, the retry of the Slack
      connector, the webhook subscriptions, the Slack alerts, the
      ServiceNow adapter, app/scheduler.py, app/exporter.py and the Teams
      connector.

    The second part proves the properties, in modules named after these.

    Python [str] values are modelled as [string] (a sequence of 8-bit
    characters; the case conversions act on the ASCII letters), dictionaries
    with a fixed set of keys as records, open dictionaries as [gmap string _],
    sets as [gset], exceptions as an explicit result type. What the code
    takes from its libraries without fixing it (the digest, the iteration
    order of a set, the regular-expression compiler, the ISO parser, the
    order of ties in a sorted query, the HTTP world) is a parameter. *)

From Stdlib Require Import Ascii String.
From stdpp Require Import gmap strings list sorting.

Local Open Scope stdpp_scope.

(* ===================================================================== *)
(** ** Python strings                                                     *)
(* ===================================================================== *)

Module PyStr.

(** [c.lower()] on one character: the letters A..Z move to a..z. *)
Definition lower_ascii (c : ascii) : ascii :=
  let n := N_of_ascii c in
  if ((65 <=? n) && (n <=? 90))%N then ascii_of_N (n + 32) else c.

(** [s.lower()] *)
Fixpoint lower (s : string) : string :=
  match s with
  | EmptyString => EmptyString
  | String c s' => String (lower_ascii c) (lower s')
  end.

(** [s.startswith(p)] *)
Definition startswith (s p : string) : bool := String.prefix p s.

(** [s.startswith((p1, ..., pn))] with a tuple of prefixes. *)
Definition startswith_any (s : string) (ps : list string) : bool :=
  existsb (startswith s) ps.

(** [s[:n]] *)
Fixpoint str_take (n : nat) (s : string) : string :=
  match n, s with
  | S k, String c s' => String c (str_take k s')
  | _, _ => EmptyString
  end.

(** [sep.join(ls)] *)
Definition join (sep : string) (ls : list string) : string :=
  String.concat sep ls.

(** [s.replace("", new)]: [new] goes in front of every character and at
    the end. *)
Fixpoint replace_empty (new s : string) : string :=
  match s with
  | EmptyString => new
  | String c s' => new +:+ String c (replace_empty new s')
  end.

(** The scan of [s.replace(old, new)] for a non-empty [old], from left to
    right: where [old] starts, [new] is emitted and the scan jumps over the
    occurrence ([skip] counts the characters of it still to pass); elsewhere
    the character is copied. *)
Fixpoint replace_go (old new : string) (skip : nat) (s : string) : string :=
  match s with
  | EmptyString => EmptyString
  | String c s' =>
      match skip with
      | S k => replace_go old new k s'
      | O =>
          if String.prefix old s
          then new +:+ replace_go old new (String.length old - 1) s'
          else String c (replace_go old new 0 s')
      end
  end.

(** [s.replace(old, new)] *)
Definition replace (s old new : string) : string :=
  match old with
  | EmptyString => replace_empty new s
  | _ => replace_go old new 0 s
  end.

(** [x in s] for strings: [x] occurs in [s] as a contiguous piece. *)
Definition occurs (x s : string) : Prop :=
  ∃ l r : string, s = l +:+ x +:+ r.

(** The same test, computed. *)
Fixpoint occursb (x s : string) : bool :=
  String.prefix x s ||
  match s with
  | EmptyString => false
  | String _ s' => occursb x s'
  end.

(** [c in s] for one character. *)
Fixpoint has_char (c : ascii) (s : string) : bool :=
  match s with
  | EmptyString => false
  | String d s' => bool_decide (c = d) || has_char c s'
  end.

(** [n] times the character [k]. *)
Fixpoint run (k : ascii) (n : nat) : string :=
  match n with
  | O => ""
  | S n' => String k (run k n')
  end.

End PyStr.

(* ===================================================================== *)
(** ** Data model                                                         *)
(* ===================================================================== *)

(** A value that is either [None] or a string, as found under the keys
    [container["id"]] and [source_meta["pointer"]]. *)
Inductive scalar :=
  | PyNone
  | PyStr (s : string).

(** [str(v)], also what an f-string prints for [v]. *)
Definition py_str (v : scalar) : string :=
  match v with
  | PyNone => "None"
  | PyStr s => s
  end.

(** A UTC [datetime]; the fields are those of the Python object. *)
Record datetime := {
  year : N; month : N; day : N;
  hour : N; minute : N; second : N; microsecond : N
}.

(** One detection [{"label": .., "match": ..}]; a key may be missing. *)
Record Detection := {
  d_label : option string;
  d_match : option string
}.

(** [{"type", "id", "name", "url"}]; [container.get("id")] is [PyNone] when
    the key is missing. *)
Record Container := {
  c_type : string;
  c_id : scalar;
  c_name : string;
  c_url : string
}.

(** [source_meta]: the pointer may be missing ([None] here), present and
    [None], or a string. *)
Record SourceMeta := {
  pointer : option scalar;
  author_id : scalar;
  author_name : scalar
}.

(** The mutable sync record of an event. *)
Record Status := {
  state : string;
  jira_key : option string;
  glpi_id : option Z;
  snow_sys_id : option string;
  last_sync_at : option datetime
}.

Record Event := {
  fingerprint : string;
  platform : string;
  container : Container;
  found_at : datetime;
  severity : string;
  detections : list Detection;
  snippet_redacted : string;
  status : Status;
  source_meta : SourceMeta
}.

Global Instance scalar_eq_dec : EqDecision scalar.
Proof. solve_decision. Defined.
Global Instance datetime_eq_dec : EqDecision datetime.
Proof. solve_decision. Defined.
Global Instance Detection_eq_dec : EqDecision Detection.
Proof. solve_decision. Defined.
Global Instance Container_eq_dec : EqDecision Container.
Proof. solve_decision. Defined.
Global Instance SourceMeta_eq_dec : EqDecision SourceMeta.
Proof. solve_decision. Defined.
Global Instance Status_eq_dec : EqDecision Status.
Proof. solve_decision. Defined.
Global Instance Event_eq_dec : EqDecision Event.
Proof. solve_decision. Defined.

(** Exceptions, by class. *)
Inductive exn :=
  | AttributeError
  | re_error
  | RequestException
  | RuntimeError
  | ValidationError
  | OSError.

(** The outcome of a call that may raise. *)
Inductive result (A : Type) :=
  | Ok (a : A)
  | Raise (e : exn).
Global Arguments Ok {A} a.
Global Arguments Raise {A} e.

Global Instance exn_eq_dec : EqDecision exn.
Proof. solve_decision. Defined.
Global Instance result_eq_dec {A} `{EqDecision A} : EqDecision (result A).
Proof. solve_decision. Defined.

(** [x = f(..); k(x)] where [f] may raise. *)
Definition bind {A B : Type} (r : result A) (k : A → result B) : result B :=
  match r with
  | Ok a => k a
  | Raise e => Raise e
  end.

(** What the Python runtime supplies to the code below and the code does not
    fix: the digest [hashlib.sha256(..).hexdigest()] and the order in which a
    [for] loop walks a [set] of strings (each element once). *)
Class PyRuntime := {
  sha256 : string → string;
  set_iter : gset string → list string;
  set_iter_perm : ∀ X, set_iter X ≡ₚ elements X
}.

(* ===================================================================== *)
(** ** app/utils.py and app/normalize.py                                  *)
(* ===================================================================== *)

Module Normalize.
Import PyStr.

(** The mask written over a match. *)
Definition mask : string := "****".

(** [d.get("match", "")] and [d.get("label", "")] *)
Definition match_or_empty (d : Detection) : string := default "" (d_match d).
Definition label_or_empty (d : Detection) : string := default "" (d_label d).

(** [{d.get("match","") for d in detections if d.get("match")}] *)
Definition match_set (dets : list Detection) : gset string :=
  list_to_set (match_or_empty <$> filter (λ d, match_or_empty d ≠ "") dets).

(** [sorted(..)] of a set of strings. *)
Definition sorted (X : gset string) : list string :=
  merge_sort String.le (elements X).

(** [matches] of [make_event] *)
Definition matches_of (dets : list Detection) : list string :=
  sorted (match_set dets).

(** [str(source_meta.get("pointer", ""))] *)
Definition pointer_of (meta : SourceMeta) : string :=
  py_str (default (PyStr "") (pointer meta)).

(** [f"{platform}|{container.get('id')}|{pointer}|{','.join(matches)}"] *)
Definition fp_basis (platform : string) (c : Container) (meta : SourceMeta)
    (matches : list string) : string :=
  platform +:+ "|" +:+ py_str (c_id c) +:+ "|" +:+ pointer_of meta +:+ "|"
    +:+ join "," matches.

(** The prefixes that raise the severity. *)
Definition credential_prefixes : list string :=
  ["password"; "private"; "api"; "credit"].

(** [any(d.get("label","").lower().startswith((..)) for d in detections)] *)
Definition is_credential (dets : list Detection) : bool :=
  existsb (λ d, startswith_any (lower (label_or_empty d)) credential_prefixes)
          dets.

Definition severity_of (dets : list Detection) : string :=
  if is_credential dets then "High" else "Medium".

Definition new_status : Status :=
  {| state := "new"; jira_key := None; glpi_id := None;
     snow_sys_id := None; last_sync_at := None |}.

(** One turn of the loop of [redact]: [if m: out = out.replace(m, "****")]. *)
Definition redact_step (out m : string) : string :=
  if bool_decide (m = "") then out else replace out m mask.

Section with_runtime.
Context `{RT : PyRuntime}.

(** [redact(text, matches)]: the loop runs over [set(matches)]. *)
Definition redact (text : string) (matches : list string) : string :=
  foldl redact_step text (set_iter (list_to_set matches)).

(** [make_event]; the clock read [datetime.utcnow()] is the argument
    [now]. *)
Definition make_event (now : datetime) (platform : string)
    (container : Container) (text : string) (detections : list Detection)
    (source_meta : SourceMeta) : Event :=
  let matches := matches_of detections in
  let fp_basis := fp_basis platform container source_meta matches in
  let snippet := str_take 4000 text in
  {| fingerprint := sha256 fp_basis;
     platform := platform;
     container := container;
     found_at := now;
     severity := severity_of detections;
     detections := detections;
     snippet_redacted := redact snippet matches;
     status := new_status;
     source_meta := source_meta |}.
End with_runtime.

(** A runtime whose set iteration walks the elements in the order of
    [elements]; the digest is left as the text it is given. *)
Definition plain_runtime : PyRuntime :=
  {| sha256 := λ s, s;
     set_iter := elements;
     set_iter_perm := λ X, reflexivity (elements X) |}.

(** The end-to-end scenario: a Slack message in the channel C1 at the
    pointer ts1 that matches the rules Password and Credit Card. *)
Definition scenario_time : datetime :=
  {| year := 2024; month := 1; day := 1; hour := 0; minute := 0;
     second := 0; microsecond := 0 |}.

Definition scenario_container : Container :=
  {| c_type := "channel"; c_id := PyStr "C1"; c_name := "general";
     c_url := "" |}.

Definition scenario_text : string :=
  "my password is hunter2, card 4111-1111-1111-1111".

Definition scenario_detections : list Detection :=
  [{| d_label := Some "Password"; d_match := Some "hunter2" |};
   {| d_label := Some "Credit Card"; d_match := Some "4111-1111-1111-1111" |}].

Definition scenario_meta : SourceMeta :=
  {| pointer := Some (PyStr "ts1"); author_id := PyNone;
     author_name := PyNone |}.

Definition scenario_event : Event :=
  @make_event plain_runtime scenario_time "slack" scenario_container
    scenario_text scenario_detections scenario_meta.

End Normalize.

(* ===================================================================== *)
(** ** app/integrations/webhooks.py                                       *)
(* ===================================================================== *)

Module Webhooks.
Import PyStr.

(** A value in the [filters] dictionary of a subscription, as the JSON body
    of the registration carries it: null, a string or a list of strings. *)
Inductive fval :=
  | FNone
  | FStr (s : string)
  | FList (l : list string).

Global Instance fval_eq_dec : EqDecision fval.
Proof. solve_decision. Defined.

(** [v or ""] *)
Definition or_empty_str (v : fval) : fval :=
  match v with
  | FNone | FStr "" | FList [] => FStr ""
  | _ => v
  end.

(** [v or []] *)
Definition or_empty_list (v : fval) : fval :=
  match v with
  | FNone | FStr "" | FList [] => FList []
  | _ => v
  end.

(** [v.lower()]: only a string has the method. *)
Definition py_lower (v : fval) : result string :=
  match v with
  | FStr s => Ok (lower s)
  | FNone | FList _ => Raise AttributeError
  end.

(** The characters of a string, each as a string of length one. *)
Fixpoint chars (s : string) : list string :=
  match s with
  | EmptyString => []
  | String c s' => String c EmptyString :: chars s'
  end.

(** [[str(x) for x in v]]: a list gives its elements, a string its
    characters. *)
Definition iter_strs (v : fval) : list string :=
  match v with
  | FNone => []
  | FStr s => chars s
  | FList l => l
  end.

(** [[d.get("label") for d in (event.get("detections") or []) if d.get("label")]] *)
Definition event_labels (event : Event) : list string :=
  omap (λ d, match d_label d with
             | Some l => if bool_decide (l = "") then None else Some l
             | None => None
             end) (detections event).

(** ["key" in filters and (filters["key"] or "").lower() != target] *)
Definition text_differs (filters : gmap string fval) (key target : string)
    : result bool :=
  match filters !! key with
  | Some v => bind (py_lower (or_empty_str v)) (λ s, Ok (bool_decide (s ≠ target)))
  | None => Ok false
  end.

Definition match_filters (event : Event) (filters : gmap string fval)
    : result bool :=
  if bool_decide (filters = ∅) then Ok true else
  let plat := lower (platform event) in
  let sev := lower (severity event) in
  let labels := event_labels event in
  bind (text_differs filters "platform" plat) (λ differs,
  if differs then Ok false else
  bind (text_differs filters "severity" sev) (λ differs,
  if differs then Ok false else
  match filters !! "labels" with
  | Some v =>
      let want : gset string := list_to_set (iter_strs (or_empty_list v)) in
      if bool_decide (want ∩ list_to_set labels = ∅) then Ok false else Ok true
  | None => Ok true
  end)).

(** A stored subscription. *)
Record Webhook := {
  w_id : string;
  w_url : string;
  w_secret : string;
  w_filters : gmap string fval;
  w_enabled : bool
}.

(** [try_deliver_to_all]: the enabled subscriptions are walked in the order
    the store returns them; [deliver_one] stands for [_deliver_one], which
    posts the event and records the attempt. The first component lists the
    deliveries made, in order; the second is the exception that ended the
    walk, if one was raised. *)
Fixpoint try_deliver_to_all {D : Type} (deliver_one : Event → Webhook → D)
    (event : Event) (webhooks : list Webhook) : list D * option exn :=
  match webhooks with
  | [] => ([], None)
  | w :: ws =>
      if w_enabled w then
        match match_filters event (w_filters w) with
        | Raise e => ([], Some e)
        | Ok matched =>
            let '(out, r) := try_deliver_to_all deliver_one event ws in
            (if matched then deliver_one event w :: out else out, r)
        end
      else try_deliver_to_all deliver_one event ws
  end.

(** The text a filter value stands for in a comparison: null and the empty
    list count as the empty text, a non-empty list is no text at all. *)
Definition filter_text (v : fval) : option string :=
  match v with
  | FNone | FList [] => Some ""
  | FStr s => Some s
  | FList (_ :: _) => None
  end.

(** The labels a filter value asks for. *)
Definition wanted_labels (v : fval) : list string :=
  match v with
  | FNone => []
  | FStr s => chars s
  | FList l => l
  end.

(** The three conditions of a subscription, in the words of the
    specification. *)
Definition platform_agrees (event : Event) (filters : gmap string fval) : Prop :=
  ∀ v, filters !! "platform" = Some v →
       ∃ s, filter_text v = Some s ∧ lower s = lower (platform event).

Definition severity_agrees (event : Event) (filters : gmap string fval) : Prop :=
  ∀ v, filters !! "severity" = Some v →
       ∃ s, filter_text v = Some s ∧ lower s = lower (severity event).

Definition labels_agree (event : Event) (filters : gmap string fval) : Prop :=
  ∀ v, filters !! "labels" = Some v →
       ∃ x d, x ∈ wanted_labels v ∧ x ≠ "" ∧
              d ∈ detections event ∧ d_label d = Some x.

(** The values under [platform] and [severity], where present, are texts. *)
Definition texts_ok (filters : gmap string fval) : Prop :=
  (∀ v, filters !! "platform" = Some v → is_Some (filter_text v)) ∧
  (∀ v, filters !! "severity" = Some v → is_Some (filter_text v)).

(** The event with one field replaced. *)
Definition with_platform (p : string) (e : Event) : Event :=
  {| fingerprint := fingerprint e; platform := p; container := container e;
     found_at := found_at e; severity := severity e;
     detections := detections e; snippet_redacted := snippet_redacted e;
     status := status e; source_meta := source_meta e |}.

Definition with_severity (s : string) (e : Event) : Event :=
  {| fingerprint := fingerprint e; platform := platform e;
     container := container e; found_at := found_at e; severity := s;
     detections := detections e; snippet_redacted := snippet_redacted e;
     status := status e; source_meta := source_meta e |}.

Definition with_detections (ds : list Detection) (e : Event) : Event :=
  {| fingerprint := fingerprint e; platform := platform e;
     container := container e; found_at := found_at e; severity := severity e;
     detections := ds; snippet_redacted := snippet_redacted e;
     status := status e; source_meta := source_meta e |}.

End Webhooks.

(* ===================================================================== *)
(** ** The document of app/connectors/teams_connector.py                  *)
(* ===================================================================== *)

Module TeamsDoc.

(** The event dictionary of [_detect_and_store], which the Teams connector
    stores in the [events] collection beside the events of [make_event].
    The keys [platform] and [source] hold the constants Teams and teams;
    [found_at] is the text of [_now_iso()], not a [datetime]; [container] is
    a text ([scan] passes team/channel), not a dictionary; there is no key
    [detections]. The last two keys are set by [_store_event]. *)
Record TeamsEvent := {
  type : string;
  severity : string;
  found_at : string;
  author_id : string;
  author_name : string;
  container : string;
  container_id : string;
  container_name : string;
  record_id : string;
  url : string;
  snippet_redacted : string;
  raw_sample : string;
  fingerprint : option string;
  created_at : option string
}.

Global Instance TeamsEvent_eq_dec : EqDecision TeamsEvent.
Proof. solve_decision. Defined.

End TeamsDoc.

(* ===================================================================== *)
(** ** The event store and the scan loop of app/connectors/*.py            *)
(* ===================================================================== *)

Module Store.

(** A document of the [events] collection written by a connector built on
    [make_event]: the event under its [_id]. *)
Record Doc := {
  doc_id : nat;
  body : Event
}.

(** The documents of that kind, in insertion order. *)
Abbreviation collection := (list Doc).

Definition has_fingerprint (fp : string) (d : Doc) : Prop :=
  fingerprint (body d) = fp.

Global Instance has_fingerprint_dec fp d : Decision (has_fingerprint fp d).
Proof. unfold has_fingerprint. apply _. Defined.

(** An [_id] that no document of the collection has. *)
Definition fresh_id (coll : collection) : nat :=
  S (foldr Nat.max 0 (doc_id <$> coll)).

(** [events.update_one({"fingerprint": fp}, {"$setOnInsert": ev}, upsert=True)]:
    a document with the fingerprint is left as it is ([$setOnInsert] writes
    nothing on a match); otherwise the event is inserted. The second
    component is [res.upserted_id]. *)
Definition update_one_set_on_insert (coll : collection) (fp : string)
    (ev : Event) : collection * option nat :=
  match list_find (has_fingerprint fp) coll with
  | Some _ => (coll, None)
  | None =>
      let id := fresh_id coll in
      (coll ++ [{| doc_id := id; body := ev |}], Some id)
  end.

(** The insert of the scan loop. *)
Definition insert_if_absent (coll : collection) (ev : Event)
    : collection * option nat :=
  update_one_set_on_insert coll (fingerprint ev) ev.

Definition set_status (st : Status) (e : Event) : Event :=
  {| fingerprint := fingerprint e; platform := platform e;
     container := container e; found_at := found_at e; severity := severity e;
     detections := detections e; snippet_redacted := snippet_redacted e;
     status := st; source_meta := source_meta e |}.

(** [events.update_one({"fingerprint": fp}, {"$set": {"status.<field>": ..}})],
    the write of a sink: the first document with the fingerprint gets its
    status changed by [f]. *)
Fixpoint update_one_status (fp : string) (f : Status → Status)
    (coll : collection) : collection :=
  match coll with
  | [] => []
  | d :: rest =>
      if decide (has_fingerprint fp d)
      then {| doc_id := doc_id d;
              body := set_status (f (status (body d))) (body d) |} :: rest
      else d :: update_one_status fp f rest
  end.

(** The detection payload of an event: every field but [status]. *)
Definition payload (e : Event) : Event := set_status Normalize.new_status e.

(** The documents stored under a fingerprint. *)
Definition stored (fp : string) (coll : collection) : list Doc :=
  filter (has_fingerprint fp) coll.

(** How many of the inserts reported a new document. *)
Definition count_new (rs : list (option nat)) : nat :=
  length (filter is_Some rs).

(** What the [events] collection holds: the Slack, Jira, Confluence and
    Trello connectors store the events of [make_event], the Teams connector
    stores its own dictionary. *)
Inductive document :=
  | Made (d : Doc)
  | TeamsMade (t : TeamsDoc.TeamsEvent).

Global Instance Doc_eq_dec : EqDecision Doc.
Proof. solve_decision. Defined.
Global Instance document_eq_dec : EqDecision document.
Proof. solve_decision. Defined.

(** The documents whose [found_at] is a [datetime], and those of the Teams
    connector, whose [found_at] is a text. *)
Definition dated (coll : list document) : list Doc :=
  omap (λ s, match s with Made d => Some d | TeamsMade _ => None end) coll.

Definition undated (coll : list document) : list TeamsDoc.TeamsEvent :=
  omap (λ s, match s with TeamsMade t => Some t | Made _ => None end) coll.

End Store.

Module FanOut.
Import Store.

(** The sinks called for a new event. *)
Inductive adapter :=
  | JiraTicket
  | GlpiTicket
  | ServiceNowTicket
  | SlackApiAlert
  | SlackWebhookAlert
  | WebhookBroadcast.

Global Instance adapter_eq_dec : EqDecision adapter.
Proof. solve_decision. Defined.

(** The calls inside the first [try] of the scan loop, in their order. *)
Definition ticket_block : list adapter :=
  [JiraTicket; GlpiTicket; ServiceNowTicket; SlackApiAlert; SlackWebhookAlert].

(** The call inside the second [try]. *)
Definition broadcast_block : list adapter := [WebhookBroadcast].

(** The statements of one [try] body run in sequence: the adapters invoked,
    and the exception that cut the body short, if one was raised. *)
Fixpoint run_block (call : adapter → result unit) (block : list adapter)
    : list adapter * option exn :=
  match block with
  | [] => ([], None)
  | a :: rest =>
      match call a with
      | Ok _ => let '(invoked, r) := run_block call rest in (a :: invoked, r)
      | Raise e => ([a], Some e)
      end
  end.

(** What fan-out leaves behind: the adapters invoked, in order, and the
    errors printed by the two [except Exception] handlers. *)
Record fan_out_trace := {
  invoked : list adapter;
  printed : list exn
}.

(** The fan-out of the scan loop for one event:
    [try: <five calls> except Exception as e: print(..)] and then
    [try: try_deliver_to_all(ev) except Exception as e: print(..)].
    [call a] is the outcome of the call of adapter [a] for the event. *)
Definition fan_out (call : adapter → result unit) : fan_out_trace :=
  let '(inv1, r1) := run_block call ticket_block in
  let '(inv2, r2) := run_block call broadcast_block in
  {| invoked := inv1 ++ inv2;
     printed := option_list r1 ++ option_list r2 |}.

(** One detected message in the scan loop: the insert, the count of new
    events and, for a new event only, the fan-out. *)
Definition handle_event (call : Event → adapter → result unit)
    (coll : collection) (count : nat) (ev : Event)
    : collection * nat * option fan_out_trace :=
  let '(coll', upserted_id) := insert_if_absent coll ev in
  match upserted_id with
  | Some _ => (coll', count + 1, Some (fan_out (call ev)))
  | None => (coll', count, None)
  end.

End FanOut.

(* ===================================================================== *)
(** ** Pattern loading: app/connectors/*.py                                *)
(* ===================================================================== *)

Module Patterns.

(** The flags given to [re.compile]. *)
Inductive re_flag :=
  | MULTILINE
  | IGNORECASE.

Section loaders.
(** [re.compile(pattern, flags)] is the library's: it returns a compiled
    pattern or raises (an invalid expression raises [re.error]). *)
Context {Regex : Type} (re_compile : list re_flag → string → result Regex).

(** [PATTERNS = {k: re.compile(v, re.MULTILINE) for k, v in load_patterns().items()}]
    of the Slack, Jira, Confluence and Trello connectors; [items] are the
    entries of patterns.json in their order. No handler surrounds the
    comprehension. *)
Fixpoint compile_patterns (items : list (string * string))
    : result (list (string * Regex)) :=
  match items with
  | [] => Ok []
  | (k, v) :: rest =>
      bind (re_compile [MULTILINE] v) (λ rx,
      bind (compile_patterns rest) (λ out, Ok ((k, rx) :: out)))
  end.

(** [_load_patterns] of the Teams connector: each entry is compiled inside
    [try: .. except re.error as e: print(..)]. The second component lists the
    labels whose expression was reported and left out. *)
Fixpoint _load_patterns (items : list (string * string))
    : result (list (string * Regex) * list string) :=
  match items with
  | [] => Ok ([], [])
  | (label, rx) :: rest =>
      match re_compile [IGNORECASE; MULTILINE] rx with
      | Ok c =>
          bind (_load_patterns rest) (λ '(compiled, bad),
          Ok ((label, c) :: compiled, bad))
      | Raise re_error =>
          bind (_load_patterns rest) (λ '(compiled, bad),
          Ok (compiled, label :: bad))
      | Raise e => Raise e
      end
  end.

(** The entries whose expression compiles, with their compiled pattern. *)
Definition valid_entries (flags : list re_flag) (items : list (string * string))
    : list (string * Regex) :=
  omap (λ '(k, v), match re_compile flags v with
                   | Ok rx => Some (k, rx)
                   | Raise _ => None
                   end) items.

End loaders.

(** A compiler that rejects the unterminated group [(] and takes every other
    text as its own compiled form. *)
Definition rejects_open_group (flags : list re_flag) (pattern : string)
    : result string :=
  if bool_decide (pattern = "(") then Raise re_error else Ok pattern.

End Patterns.

(* ===================================================================== *)
(** ** app/config.py                                                      *)
(* ===================================================================== *)

Module Config.

(** The fields the settings class [_SettingsBase] declares. The class is
    built with [extra="ignore"]: a name of the environment outside this list
    is dropped, and the object has no other attribute. *)
Definition declared : list string :=
  ["mongo_uri"; "mongo_db"; "api_base_url"; "integrations_base_url";
   "integrations_api_keys"; "slack_bot_token"; "jira_server"; "jira_username";
   "jira_api_token"; "confluence_server"; "trello_key"; "trello_token";
   "jira_default_project"; "jira_issue_type"; "jira_create_on_detect";
   "jira_min_severity"; "glpi_url"; "glpi_app_token"; "glpi_user_token";
   "glpi_entity_id"; "glpi_create_on_detect"; "glpi_min_severity";
   "slack_alert_enabled"; "slack_alert_token"; "slack_alert_channel";
   "slack_alert_routing"; "slack_webhook_enabled"; "slack_webhook_url";
   "slack_webhook_routing"; "export_mode"; "siem_export_mode";
   "siem_export_dir"; "siem_http_url"; "siem_http_auth_scheme";
   "siem_http_token"; "siem_http_headers_json"; "siem_http_verify";
   "admin_token"].

(** The value of a field. *)
Inductive value :=
  | VNone
  | VBool (b : bool)
  | VStr (s : string).

Global Instance value_eq_dec : EqDecision value.
Proof. solve_decision. Defined.

(** The settings object: the value of each declared field, as the
    environment or the default gives it. *)
Record Settings := {
  field : string → value
}.

(** [settings.name]: a name that is not declared raises. *)
Definition getattr (settings : Settings) (name : string) : result value :=
  if bool_decide (name ∈ declared) then Ok (field settings name)
  else Raise AttributeError.

(** [getattr(settings, name, default)] *)
Definition getattr_or (settings : Settings) (name : string) (d : value)
    : value :=
  match getattr settings name with
  | Ok v => v
  | Raise _ => d
  end.

(** The truth value of a field in [if v:], [v or d] and [all([..])]. *)
Definition truthy (v : value) : bool :=
  match v with
  | VNone | VBool false | VStr EmptyString => false
  | _ => true
  end.

(** [v or d] *)
Definition or_else (v d : value) : value := if truthy v then v else d.

(** The text of a field that holds one. *)
Definition text (v : value) : string :=
  match v with
  | VStr s => s
  | _ => EmptyString
  end.

End Config.

(* ===================================================================== *)
(** ** app/jobs/exporter_job.py                                           *)
(* ===================================================================== *)

Module ExporterJob.
Import PyStr Config.

(** A count in the dictionary a sink client returns: an integer, or a value
    that [int(..)] rejects (the generic client reports "unknown" and "all"). *)
Inductive count :=
  | CInt (z : Z)
  | CNotInt.

(** [{"ok": .., "failed": ..}] *)
Record send_result := {
  ok : count;
  failed : count
}.

Section walker.
(** [W] is the world outside the job (the integrations API and the sink);
    [ecs] is an event in the external schema. *)
Context {W ecs : Type}.

(** The body of a page of [/integrations/events]. *)
Record page := {
  events : list ecs;
  next_cursor : option string
}.

(** An HTTP response: the status and what [r.json()] gives. *)
Record response := {
  status_code : Z;
  json : result page
}.

(** What a run does, in order. *)
Inductive action :=
  | Fetch (cursor : option string) (r : result page)
  | Send (batch : list ecs) (r : result send_result)
  | SetCursor (key value : string).

(** The state: the world and the [export_state] collection, as a map from
    [_id] to [value]. *)
Record state := {
  world : W;
  cursors : gmap string string
}.

Definition client := W → list ecs → W * result send_result.

(** [requests.get(url, params=.., ..)]: the cursor parameter is what varies. *)
Context (http_get : W → option string → W * result response).
(** [_make_client(mode)] *)
Context (_make_client : string → result client).

Definition cursor_key (dest : string) : string := "cursor:" +:+ dest.

Definition _get_cursor (dest : string) (st : state) : option string :=
  cursors st !! cursor_key dest.

Definition _set_cursor (dest cur : string) (st : state) : state :=
  {| world := world st; cursors := <[cursor_key dest := cur]> (cursors st) |}.

(** [if cursor: params["cursor"] = cursor] *)
Definition cursor_param (cursor : option string) : option string :=
  match cursor with
  | Some c => if bool_decide (c = "") then None else Some c
  | None => None
  end.

Definition _fetch_page (cursor : option string) (st : state)
    : state * result page :=
  let '(w, r) := http_get (world st) (cursor_param cursor) in
  let st' := {| world := w; cursors := cursors st |} in
  match r with
  | Raise e => (st', Raise e)
  | Ok resp =>
      if bool_decide (status_code resp ≠ 200%Z) then (st', Raise RuntimeError)
      else (st', json resp)
  end.

(** [int(c or 0)] *)
Definition to_int (c : count) : option Z :=
  match c with
  | CInt z => Some z
  | CNotInt => None
  end.

(** [try: total_ok += int(..); total_fail += int(..) except Exception: pass] *)
Definition add_totals (res : send_result) (totals : Z * Z) : Z * Z :=
  match to_int (ok res) with
  | None => totals
  | Some a =>
      match to_int (failed res) with
      | None => ((totals.1 + a)%Z, totals.2)
      | Some b => ((totals.1 + a)%Z, (totals.2 + b)%Z)
      end
  end.

Record summary := {
  s_mode : string;
  s_sent : Z;
  s_failed : Z;
  s_pages : nat;
  s_cursor : option string
}.

Inductive outcome :=
  | Returned (s : summary)
  | Raised (e : exn)
  | OutOfFuel.

(** The [while True] loop of [run_export]; [fuel] bounds the number of
    pages. The actions of the loop are returned in order. *)
Fixpoint export_loop (fuel : nat) (mode : string) (send : client) (st : state)
    (cur : option string) (totals : Z * Z) (pages : nat)
    : state * list action * outcome :=
  match fuel with
  | O => (st, [], OutOfFuel)
  | S fuel' =>
      let '(st1, r) := _fetch_page cur st in
      let a1 := Fetch (cursor_param cur) r in
      match r with
      | Raise e => (st1, [a1], Raised e)
      | Ok data =>
          match events data with
          | [] =>
              (st1, [a1],
               Returned {| s_mode := mode; s_sent := totals.1;
                           s_failed := totals.2; s_pages := pages;
                           s_cursor := cur |})
          | evs =>
              let '(w2, res) := send (world st1) evs in
              let st2 := {| world := w2; cursors := cursors st1 |} in
              let a2 := Send evs res in
              match res with
              | Raise e => (st2, [a1; a2], Raised e)
              | Ok res =>
                  let totals := add_totals res totals in
                  let pages := S pages in
                  match cursor_param (next_cursor data) with
                  | Some c =>
                      let st3 := _set_cursor mode c st2 in
                      let '(st', acts, out) :=
                        export_loop fuel' mode send st3 (Some c) totals pages in
                      (st', a1 :: a2 :: SetCursor (cursor_key mode) c :: acts, out)
                  | None =>
                      (st2, [a1; a2],
                       Returned {| s_mode := mode; s_sent := totals.1;
                                   s_failed := totals.2; s_pages := pages;
                                   s_cursor := cur |})
                  end
              end
          end
      end
  end.

(** [mode or getattr(settings, "export_mode", None) or
    getattr(settings, "siem_export_mode", "file")]: the argument when it is
    a text that is not empty, else the first of the two settings that is
    true, else the second setting as it is. *)
Definition chosen_mode (settings : Settings) (mode : option string) : value :=
  or_else (from_option VStr VNone mode)
    (or_else (getattr_or settings "export_mode" VNone)
             (getattr_or settings "siem_export_mode" (VStr "file"))).

(** [(..).lower()]: the mode of the run. A value that is not a text has no
    method [lower]. *)
Definition mode_of_run (settings : Settings) (mode : option string)
    : result string :=
  match chosen_mode settings mode with
  | VStr s => Ok (lower s)
  | _ => Raise AttributeError
  end.

(** [run_export(mode, ..)] *)
Definition run_export (settings : Settings) (fuel : nat) (mode : option string)
    (st : state) : state * list action * outcome :=
  match mode_of_run settings mode with
  | Raise e => (st, [], Raised e)
  | Ok mode =>
      match _make_client mode with
      | Raise e => (st, [], Raised e)
      | Ok send =>
          export_loop fuel mode send st (_get_cursor mode st) (0%Z, 0%Z) 0
      end
  end.

(** The cursor parameter of the last fetch of a run. *)
Definition last_fetch (acts : list action) : option (option string) :=
  last (omap (λ a, match a with Fetch c _ => Some c | _ => None end) acts).

(** The writes of a run to the cursor collection, replayed on a map. *)
Definition replay (acts : list action) (m : gmap string string)
    : gmap string string :=
  foldl (λ m a, match a with
                | SetCursor k v => <[k := v]> m
                | _ => m
                end) m acts.

(** The sink reported the batch of a [Send] accepted: the call returned and
    counted no failure. *)
Definition accepted (a : action) : Prop :=
  ∃ batch res, a = Send batch (Ok res) ∧ failed res = CInt 0.

End walker.

(** A world in which the API serves one page of one event with the
    continuation token t1 and nothing behind it. *)
Definition one_page_api (w : unit) (cursor : option string)
    : unit * result (@response nat) :=
  (w, Ok {| status_code := 200;
            json := Ok match cursor with
                       | None => {| events := [1]; next_cursor := Some "t1" |}
                       | Some _ => {| events := []; next_cursor := None |}
                       end |}).

(** A world in which the API serves two pages of one event each, with the
    tokens t1 and t2; the world counts the calls of the sink. *)
Definition two_page_api (w : nat) (cursor : option string)
    : nat * result (@response nat) :=
  (w, Ok {| status_code := 200;
            json := Ok match cursor with
                       | None => {| events := [1]; next_cursor := Some "t1" |}
                       | Some c =>
                           if bool_decide (c = "t1")
                           then {| events := [2]; next_cursor := Some "t2" |}
                           else {| events := []; next_cursor := None |}
                       end |}).

Global Arguments page : clear implicits.
Global Arguments response : clear implicits.
Global Arguments action : clear implicits.
Global Arguments state : clear implicits.
Global Arguments client : clear implicits.

End ExporterJob.

(* ===================================================================== *)
(** ** app/api/integrations.py and app/integrations/schemas.py            *)
(* ===================================================================== *)

Module Listing.
Import PyStr Store.

(** *** Timestamps *)

(** The fields of a [datetime], most significant first. *)
Definition dt_key (d : datetime) : list N :=
  [year d; month d; day d; hour d; minute d; second d; microsecond d].

Fixpoint lex_compare (a b : list N) : comparison :=
  match a, b with
  | [], [] => Eq
  | [], _ :: _ => Lt
  | _ :: _, [] => Gt
  | x :: a', y :: b' =>
      match (x ?= y)%N with
      | Eq => lex_compare a' b'
      | c => c
      end
  end.

(** The order of two UTC instants. *)
Definition dt_compare (a b : datetime) : comparison :=
  lex_compare (dt_key a) (dt_key b).

Definition dt_lt (a b : datetime) : Prop := dt_compare a b = Lt.
Definition dt_le (a b : datetime) : Prop := dt_compare a b ≠ Gt.

Global Instance dt_lt_dec a b : Decision (dt_lt a b).
Proof. unfold dt_lt. apply _. Defined.
Global Instance dt_le_dec a b : Decision (dt_le a b).
Proof. unfold dt_le. apply _. Defined.

(** The fields are in the ranges of a [datetime] object. *)
Definition dt_valid (d : datetime) : Prop :=
  (1 ≤ year d ≤ 9999 ∧ 1 ≤ month d ≤ 12 ∧ 1 ≤ day d ≤ 31 ∧
   hour d < 24 ∧ minute d < 60 ∧ second d < 60 ∧ microsecond d < 1000000)%N.

(** The decimal digit of the units of [n]. *)
Definition digit (n : N) : ascii := ascii_of_N (48 + n mod 10).

(** [n] printed with [k] digits, zero-padded. *)
Fixpoint pad (k : nat) (n : N) : string :=
  match k with
  | O => ""
  | S k' => String (digit (n / 10 ^ N.of_nat k')) (pad k' n)
  end.

(** The text of [dt.isoformat()] in front of the offset. *)
Definition iso_body (d : datetime) : string :=
  pad 4 (year d) +:+ "-" +:+ pad 2 (month d) +:+ "-" +:+ pad 2 (day d) +:+ "T"
    +:+ pad 2 (hour d) +:+ ":" +:+ pad 2 (minute d) +:+ ":"
    +:+ pad 2 (second d)
    +:+ (if (microsecond d =? 0)%N then "" else "." +:+ pad 6 (microsecond d)).

(** [dt.isoformat()] of a datetime with [tzinfo=timezone.utc]. *)
Definition isoformat (d : datetime) : string := iso_body d +:+ "+00:00".

(** [_iso] and [_next_cursor] on a datetime:
    [dt.isoformat().replace("+00:00", "Z")]. *)
Definition _iso (d : datetime) : string := replace (isoformat d) "+00:00" "Z".

(** The detection time of a document. *)
Definition when (d : Doc) : datetime := found_at (body d).

(** The order of [sort("found_at", -1)]: [a] is at least as new as [b]. *)
Definition newer_first (a b : Doc) : Prop :=
  dt_le (found_at (body b)) (found_at (body a)).

Global Instance newer_first_dec a b : Decision (newer_first a b).
Proof. unfold newer_first. apply _. Defined.

(** The same order among the documents of the Teams connector, whose
    [found_at] is a text: the greater text first. *)
Definition text_newer_first (a b : TeamsDoc.TeamsEvent) : Prop :=
  String.le (TeamsDoc.found_at b) (TeamsDoc.found_at a).

Global Instance text_newer_first_dec a b : Decision (text_newer_first a b).
Proof. unfold text_newer_first. apply _. Defined.

(** What the listing takes from outside the repository: the parser
    [datetime.fromisoformat], which reads back what [isoformat] prints; the
    order in which the store returns the documents of
    [find(..).sort("found_at", -1)], newest first with ties in any order,
    for the documents with a [datetime] and for those with a text; and the
    match of a [$regex] with option [i] on a string. *)
Class Backend := {
  fromisoformat : string → option datetime;
  fromisoformat_isoformat :
    ∀ d, dt_valid d → fromisoformat (isoformat d) = Some d;
  sort_desc : list Doc → list Doc;
  sort_desc_perm : ∀ l, sort_desc l ≡ₚ l;
  sort_desc_sorted : ∀ l, Sorted newer_first (sort_desc l);
  sort_text_desc : list TeamsDoc.TeamsEvent → list TeamsDoc.TeamsEvent;
  sort_text_desc_perm : ∀ l, sort_text_desc l ≡ₚ l;
  sort_text_desc_sorted : ∀ l, Sorted text_newer_first (sort_text_desc l);
  regex_i : string → string → bool
}.

(** *** The canonical external schema *)

Record Ecs := {
  timestamp : string;
  event_id : string;
  event_severity : N;
  rule_name : string;
  service_name : string;
  ecs_container : Container;
  ecs_detections : list Detection;
  ecs_snippet_redacted : string
}.

(** [{"low": 2, "medium": 5, "high": 8}.get((sev or "medium").lower(), 5)] *)
Definition severity_number (sev : string) : N :=
  let s := lower (if bool_decide (sev = "") then "medium" else sev) in
  if bool_decide (s = "low") then 2
  else if bool_decide (s = "medium") then 5
  else if bool_decide (s = "high") then 8
  else 5.

(** [primary.get("label") or "Sensitive Data"] *)
Definition primary_label (dets : list Detection) : string :=
  match dets with
  | d :: _ =>
      match d_label d with
      | Some l => if bool_decide (l = "") then "Sensitive Data" else l
      | None => "Sensitive Data"
      end
  | [] => "Sensitive Data"
  end.

Definition to_ecs (ev : Event) : Ecs :=
  {| timestamp := _iso (found_at ev);
     event_id := fingerprint ev;
     event_severity := severity_number (severity ev);
     rule_name := primary_label (detections ev);
     service_name := platform ev;
     ecs_container := container ev;
     ecs_detections := detections ev;
     ecs_snippet_redacted := snippet_redacted ev |}.

(** *** The query *)

Record EventQuery := {
  q_platform : option string;
  q_severity : option string;
  q_label : option string;
  q_since : option string;
  q_until : option string;
  q_limit : nat;
  q_cursor : option string
}.

(** The condition on [found_at] of a Mongo query. *)
Record time_cond := {
  t_gte : option datetime;
  t_lte : option datetime;
  t_lt : option datetime
}.

Record mongo_query := {
  m_platform : option string;
  m_severity : option string;
  m_label : option string;
  m_found_at : option time_cond
}.

(** [if x:] for an optional string. *)
Definition truthy (x : option string) : option string :=
  match x with
  | Some s => if bool_decide (s = "") then None else Some s
  | None => None
  end.

Section with_backend.
Context `{B : Backend}.

(** [datetime.fromisoformat(s.replace("Z", "+00:00"))] inside
    [try: .. except Exception: pass]. *)
Definition parse_time (x : option string) : option datetime :=
  s ← truthy x; fromisoformat (replace s "Z" "+00:00").

Definition _build_mongo_query (q : EventQuery) : mongo_query :=
  let time_cond :=
    {| t_gte := parse_time (q_since q); t_lte := parse_time (q_until q);
       t_lt := None |} in
  let found_at_cond :=
    match truthy (q_cursor q), parse_time (q_cursor q) with
    | Some _, Some dt =>
        Some {| t_gte := t_gte time_cond; t_lte := t_lte time_cond;
                t_lt := Some dt |}
    | _, _ =>
        if bool_decide (t_gte time_cond = None ∧ t_lte time_cond = None)
        then None else Some time_cond
    end in
  {| m_platform := lower <$> truthy (q_platform q);
     m_severity := (λ s, "^" +:+ s +:+ "$") <$> truthy (q_severity q);
     m_label := truthy (q_label q);
     m_found_at := found_at_cond |}.

(** A condition that is absent holds. *)
Definition holds {A : Type} (o : option A) (test : A → bool) : bool :=
  match o with
  | Some a => test a
  | None => true
  end.

(** [{"$gte": a, "$lte": b, "$lt": c}] on a timestamp. *)
Definition time_ok (c : time_cond) (t : datetime) : bool :=
  holds (t_gte c) (λ a, bool_decide (dt_le a t)) &&
  holds (t_lte c) (λ b, bool_decide (dt_le t b)) &&
  holds (t_lt c) (λ b, bool_decide (dt_lt t b)).

(** The document satisfies the query; [detections.label] matches when some
    detection has the label. *)
Definition satisfies (m : mongo_query) (d : Doc) : bool :=
  holds (m_platform m) (λ p, bool_decide (platform (body d) = p)) &&
  holds (m_severity m) (λ r, regex_i r (severity (body d))) &&
  holds (m_label m) (λ l, bool_decide (Some l ∈ d_label <$> detections (body d))) &&
  holds (m_found_at m) (λ c, time_ok c (found_at (body d))).

(** [events.find(mongo_q).sort("found_at", -1)] *)
Definition find_all (m : mongo_query) (coll : list Doc) : list Doc :=
  sort_desc (filter (λ d, satisfies m d = true) coll).

(** [events.find(mongo_q).sort("found_at", -1).limit(limit)] *)
Definition find_sorted (m : mongo_query) (limit : nat) (coll : list Doc)
    : list Doc :=
  take limit (find_all m coll).

(** The bound the cursor of a query puts on the timestamps. *)
Definition cursor_bound (q : EventQuery) : option datetime :=
  parse_time (q_cursor q).

(** The documents with a [datetime] behind an answer, in the order of the
    answer. *)
Definition list_docs (q : EventQuery) (coll : list Doc) : list Doc :=
  find_sorted (_build_mongo_query q) (q_limit q) coll.

(** The query on a document of the Teams connector. Its platform is the
    text Teams; it has no key [detections], so it matches no label; its
    [found_at] is a text, and a comparison with a [datetime] matches values
    of that type only. *)
Definition satisfies_teams (m : mongo_query) (t : TeamsDoc.TeamsEvent) : bool :=
  holds (m_platform m) (λ p, bool_decide ("Teams" = p)) &&
  holds (m_severity m) (λ r, regex_i r (TeamsDoc.severity t)) &&
  holds (m_label m) (λ _, false) &&
  holds (m_found_at m) (λ _, false).

(** The [platform] of a document. *)
Definition platform_of (s : document) : string :=
  match s with
  | Made d => platform (body d)
  | TeamsMade _ => "Teams"
  end.

(** [events.find(mongo_q).sort("found_at", -1)] on the whole collection.
    The store orders values of different types by type, a date above a
    text: in the descending order the documents with a [datetime] come
    first and those of the Teams connector behind them. *)
Definition find_any (m : mongo_query) (coll : list document) : list document :=
  (Made <$> find_all m (dated coll)) ++
  (TeamsMade <$> sort_text_desc
     (filter (λ t, satisfies_teams m t = true) (undated coll))).

(** [list(events.find(mongo_q).sort("found_at", -1).limit(limit))] *)
Definition page_docs (q : EventQuery) (coll : list document) : list document :=
  take (q_limit q) (find_any (_build_mongo_query q) coll).

(** An event of an answer: the dictionary [to_ecs] builds from an event of
    [make_event], or the one it builds from a Teams document whose
    [container] is empty (its timestamp is the text of [found_at], which
    [_iso] returns as it is, and its container fields are [None]). *)
Inductive listed :=
  | Canonical (e : Ecs)
  | OfTeams (t : TeamsDoc.TeamsEvent).

(** [to_ecs(d)] on a document of the collection. For a Teams document
    [cont = ev.get("container") or {}] is the text of the container unless
    that is empty, and [cont.get("url")] raises on a text. *)
Definition to_ecs_doc (s : document) : result listed :=
  match s with
  | Made d => Ok (Canonical (to_ecs (body d)))
  | TeamsMade t =>
      if bool_decide (TeamsDoc.container t = "") then Ok (OfTeams t)
      else Raise AttributeError
  end.

(** [[to_ecs(d) for d in docs]] *)
Fixpoint to_ecs_all (docs : list document) : result (list listed) :=
  match docs with
  | [] => Ok []
  | s :: rest =>
      bind (to_ecs_doc s) (λ e, bind (to_ecs_all rest) (λ es, Ok (e :: es)))
  end.

(** [_next_cursor(doc)]: the timestamp when [found_at] is a [datetime],
    [None] otherwise. *)
Definition _next_cursor (s : document) : option string :=
  match s with
  | Made d => Some (_iso (when d))
  | TeamsMade _ => None
  end.

(** The body of the answer of [list_events]. *)
Record listing := {
  l_ok : bool;
  l_count : nat;
  l_next_cursor : option string;
  l_events : list listed
}.

(** The answer for a query that passed validation:
    [next_cur = _next_cursor(docs[-1]) if docs else None]. *)
Definition answer (q : EventQuery) (coll : list document) : result listing :=
  let docs := page_docs q coll in
  bind (to_ecs_all docs) (λ ecs,
    Ok {| l_ok := true; l_count := length ecs;
          l_next_cursor := last docs ≫= _next_cursor; l_events := ecs |}).

(** [list_events]: the limit is validated ([ge=1, le=1000]) before the
    store is read; within that range [.limit(n)] keeps the first [n]
    documents. *)
Definition list_events (q : EventQuery) (coll : list document) : result listing :=
  if bool_decide (1 ≤ q_limit q ≤ 1000) then answer q coll
  else Raise ValidationError.

End with_backend.

(** A seeded document with the timestamp [t]. *)
Definition seed (id : nat) (fp : string) (t : datetime) : Doc :=
  {| doc_id := id;
     body :=
       {| fingerprint := fp; platform := "slack";
          container := {| c_type := "channel"; c_id := PyStr "C001";
                          c_name := "chan-1"; c_url := "https://example.com" |};
          found_at := t; severity := "High";
          detections := [{| d_label := Some "Password";
                            d_match := Some "sample" |}];
          snippet_redacted := "sample secret";
          status := Normalize.new_status;
          source_meta := {| pointer := None; author_id := PyStr "seed";
                            author_name := PyStr "seed" |} |} |}.

(** Noon of the first of January 2024, plus [s] seconds. *)
Definition noon (s : N) : datetime :=
  {| year := 2024; month := 1; day := 1; hour := 12; minute := 0;
     second := s; microsecond := 0 |}.

(** The query of the pagination contract: no filter, two events a page. *)
Definition two_a_page : EventQuery :=
  {| q_platform := None; q_severity := None; q_label := None;
     q_since := None; q_until := None; q_limit := 2; q_cursor := None |}.

(** Five seeded events, detected one second apart. *)
Definition five_apart : list Doc :=
  [seed 1 "fp1" (noon 1); seed 2 "fp2" (noon 2); seed 3 "fp3" (noon 3);
   seed 4 "fp4" (noon 4); seed 5 "fp5" (noon 5)].

(** Five seeded events, detected in the same instant. *)
Definition five_at_once : list Doc :=
  [seed 1 "fp1" (noon 0); seed 2 "fp2" (noon 0); seed 3 "fp3" (noon 0);
   seed 4 "fp4" (noon 0); seed 5 "fp5" (noon 0)].

(** A document as the Teams connector stores it for a message of the
    channel c1 of the team t1. *)
Definition teams_seed (fp t : string) : TeamsDoc.TeamsEvent :=
  {| TeamsDoc.type := "Password"; TeamsDoc.severity := "Medium";
     TeamsDoc.found_at := t; TeamsDoc.author_id := "u1";
     TeamsDoc.author_name := "Ada"; TeamsDoc.container := "team/channel";
     TeamsDoc.container_id := "t1/c1"; TeamsDoc.container_name := "Team/General";
     TeamsDoc.record_id := "m1";
     TeamsDoc.url := "https://teams.microsoft.com/l/message/c1/m1";
     TeamsDoc.snippet_redacted := "my password is ****";
     TeamsDoc.raw_sample := "my password is hunter2";
     TeamsDoc.fingerprint := Some fp; TeamsDoc.created_at := Some t |}.

(** Five events detected one second apart and a document of the Teams
    connector in one collection. *)
Definition five_and_teams : list document :=
  (Made <$> five_apart) ++
  [TeamsMade (teams_seed "fpT" "2024-01-01T12:00:09+00:00")].

(** The query with the cursor replaced. *)
Definition with_cursor (c : option string) (q : EventQuery) : EventQuery :=
  {| q_platform := q_platform q; q_severity := q_severity q;
     q_label := q_label q; q_since := q_since q; q_until := q_until q;
     q_limit := q_limit q; q_cursor := c |}.

(** *** A reader for the texts [isoformat] prints *)

Definition digit_val (c : ascii) : option N :=
  let n := N_of_ascii c in
  if ((48 <=? n) && (n <=? 57))%N then Some (n - 48)%N else None.

(** [k] digits read from the left, onto the value [acc]. *)
Fixpoint read_digits (k : nat) (acc : N) (s : string) : option (N * string) :=
  match k with
  | O => Some (acc, s)
  | S k' =>
      match s with
      | String c s' => v ← digit_val c; read_digits k' (acc * 10 + v)%N s'
      | EmptyString => None
      end
  end.

Definition expect (c : ascii) (s : string) : option string :=
  match s with
  | String d s' => if bool_decide (c = d) then Some s' else None
  | EmptyString => None
  end.

Definition read_fraction (s : string) : option (N * string) :=
  match s with
  | String "." s' => read_digits 6 0 s'
  | _ => Some (0%N, s)
  end.

Definition read_iso (s : string) : option datetime :=
  '(y, s) ← read_digits 4 0 s; s ← expect "-" s;
  '(mo, s) ← read_digits 2 0 s; s ← expect "-" s;
  '(d, s) ← read_digits 2 0 s; s ← expect "T" s;
  '(h, s) ← read_digits 2 0 s; s ← expect ":" s;
  '(mi, s) ← read_digits 2 0 s; s ← expect ":" s;
  '(sec, s) ← read_digits 2 0 s;
  '(us, s) ← read_fraction s;
  if bool_decide (s = "+00:00")
  then Some {| year := y; month := mo; day := d; hour := h; minute := mi;
               second := sec; microsecond := us |}
  else None.

(** A pattern [^text$] with option [i] on a text without metacharacters:
    equality without regard to case. *)
Definition anchored_equal_i (pattern s : string) : bool :=
  bool_decide (lower pattern = "^" +:+ lower s +:+ "$").

End Listing.

(* ===================================================================== *)
(** ** More of the Python runtime                                         *)
(* ===================================================================== *)

(** The exception classes met in the rest of the code, beside those of
    [exn]: the network errors the Slack client lets through, the errors of
    the interpreter and the HTTP error of the API framework. *)
Inductive error :=
  | SlackApiError
  | URLError
  | gaierror
  | TimeoutError
  | NameError
  | TypeError
  | ValueError
  | HTTPException (status : Z)
  | Builtin (e : exn).

Global Instance error_eq_dec : EqDecision error.
Proof. solve_decision. Defined.

(** The outcome of a call that may raise one of them. *)
Inductive call_result (A : Type) :=
  | Returns (a : A)
  | Raises (e : error).
Global Arguments Returns {A} a.
Global Arguments Raises {A} e.

Global Instance call_result_eq_dec {A} `{EqDecision A} :
  EqDecision (call_result A).
Proof. solve_decision. Defined.

Module PyText.
Import PyStr.

(** [c.isspace()] for a character below 256: the ASCII white space, the
    separators 28 to 31, NEL and the no-break space. *)
Definition is_space (c : ascii) : bool :=
  let n := N_of_ascii c in
  (((9 <=? n) && (n <=? 13)) || ((28 <=? n) && (n <=? 32)) ||
   (n =? 133) || (n =? 160))%N.

(** [s.lstrip(..)]: the leading characters that satisfy [p] are dropped. *)
Fixpoint lstrip_by (p : ascii → bool) (s : string) : string :=
  match s with
  | String c s' => if p c then lstrip_by p s' else s
  | EmptyString => EmptyString
  end.

(** [s.rstrip(..)]: the trailing characters that satisfy [p] are dropped. *)
Fixpoint rstrip_by (p : ascii → bool) (s : string) : string :=
  match s with
  | String c s' =>
      match rstrip_by p s' with
      | EmptyString => if p c then EmptyString else String c EmptyString
      | r => String c r
      end
  | EmptyString => EmptyString
  end.

(** [s.strip()] *)
Definition strip (s : string) : string :=
  rstrip_by is_space (lstrip_by is_space s).

(** [s.rstrip("/")] and the like, for one character. *)
Definition rstrip_char (c : ascii) (s : string) : string :=
  rstrip_by (λ d, bool_decide (d = c)) s.

(** [s.split(sep)] for a separator of one character: the pieces between the
    separators, one more than there are separators. *)
Fixpoint split (sep : ascii) (s : string) : list string :=
  match s with
  | EmptyString => [EmptyString]
  | String c s' =>
      if bool_decide (c = sep) then EmptyString :: split sep s'
      else match split sep s' with
           | x :: xs => String c x :: xs
           | [] => [String c EmptyString]
           end
  end.

(** [s.split(sep, 1)]: the text before the first separator and, where there
    is a separator, the text behind it (the element [[1]] of the list). *)
Fixpoint split_once (sep : ascii) (s : string) : string * option string :=
  match s with
  | EmptyString => (EmptyString, None)
  | String c s' =>
      if bool_decide (c = sep) then (EmptyString, Some s')
      else let '(a, b) := split_once sep s' in (String c a, b)
  end.

(** [s[n:]] *)
Fixpoint str_drop (n : nat) (s : string) : string :=
  match n, s with
  | S k, String _ s' => str_drop k s'
  | _, _ => s
  end.

(** [s[a:b]] for [0 <= a], [0 <= b]. *)
Definition slice (a b : nat) (s : string) : string :=
  str_take (b - a) (str_drop a s).

(** The line feed, the separator of NDJSON. *)
Definition nl : string := String "010" EmptyString.

(** [x] where [if x:] holds for an optional string, that is a string that
    is not empty. *)
Definition truthy_text (x : option string) : option string :=
  match x with
  | Some s => if bool_decide (s = EmptyString) then None else Some s
  | None => None
  end.

(** [not x] for an optional string: [None] and the empty string. *)
Definition falsy (x : option string) : bool :=
  match x with
  | None | Some EmptyString => true
  | Some _ => false
  end.

End PyText.

(* ===================================================================== *)
(** ** The API key of app/api/integrations.py                             *)
(* ===================================================================== *)

Module Auth.
Import PyStr PyText.

(** The two headers of a request the check reads; [None] is a header that
    is absent. *)
Record Request := {
  x_api_key : option string;
  authorization : option string
}.

(** [{k.strip() for k in (keys or "").split(",") if k.strip()}] *)
Definition allowed_keys (keys : string) : gset string :=
  list_to_set (filter (λ k, k ≠ EmptyString) (strip <$> split "," keys)).

(** The key the request presents:
    [key = req.headers.get("X-API-Key")] and, when that is empty or absent,
    [auth = req.headers.get("Authorization", "")] and
    [key = auth.split(" ", 1)[1].strip()] if
    [auth.lower().startswith("bearer ")]. A text that starts with the scheme
    and a blank has a blank, so the element [[1]] is there. *)
Definition presented_key (req : Request) : option string :=
  if falsy (x_api_key req) then
    let auth := default EmptyString (authorization req) in
    if startswith (lower auth) "bearer "
    then strip <$> (split_once " " auth).2
    else x_api_key req
  else x_api_key req.

(** [require_api_key]: the dependency of every route of the router. It
    returns, or raises [HTTPException(401, ..)]. *)
Definition require_api_key (keys : string) (req : Request) : call_result unit :=
  let allowed := allowed_keys keys in
  if bool_decide (allowed = ∅) then Returns ()
  else
    match presented_key req with
    | Some k =>
        if bool_decide (k = EmptyString ∨ k ∉ allowed)
        then Raises (HTTPException 401)
        else Returns ()
    | None => Raises (HTTPException 401)
    end.

(** The [X-API-Key] header [_fetch_page] of the export job puts on its
    request: [if api_keys.strip(): headers["X-API-Key"] =
    api_keys.split(",")[0].strip()]. *)
Definition fetch_api_key (api_keys : string) : option string :=
  if bool_decide (strip api_keys = EmptyString) then None
  else Some (strip (hd EmptyString (split "," api_keys))).

(** The request of the export job: the key header and nothing else the
    check reads. *)
Definition fetch_request (api_keys : string) : Request :=
  {| x_api_key := fetch_api_key api_keys; authorization := None |}.

End Auth.

(* ===================================================================== *)
(** ** More of app/api/integrations.py                                    *)
(* ===================================================================== *)

Module Api.
Import PyStr Store Listing.

(** The query with one bound replaced. *)
Definition with_since (s : option string) (q : EventQuery) : EventQuery :=
  {| q_platform := q_platform q; q_severity := q_severity q;
     q_label := q_label q; q_since := s; q_until := q_until q;
     q_limit := q_limit q; q_cursor := q_cursor q |}.

Definition with_until (u : option string) (q : EventQuery) : EventQuery :=
  {| q_platform := q_platform q; q_severity := q_severity q;
     q_label := q_label q; q_since := q_since q; q_until := u;
     q_limit := q_limit q; q_cursor := q_cursor q |}.

(** [events.find_one({"fingerprint": fp})]: the first document with the
    fingerprint. *)
Definition find_one (fp : string) (coll : list Doc) : option Doc :=
  snd <$> list_find (has_fingerprint fp) coll.

(** [get_event]: [HTTPException(404, "not found")] when no document has the
    fingerprint, the event in the external schema otherwise. *)
Definition get_event (fp : string) (coll : list Doc) : call_result Ecs :=
  match find_one fp coll with
  | Some doc => Returns (to_ecs (body doc))
  | None => Raises (HTTPException 404)
  end.

End Api.

(* ===================================================================== *)
(** ** The summary of app/jobs/exporter_job.py                            *)
(* ===================================================================== *)

Module ExportRun.
Import ExporterJob.

Section log.
Context {ecs : Type}.

(** The answers of the sink to the batches of a run, in order. *)
Definition sink_answers (acts : list (action ecs)) : list send_result :=
  omap (λ a, match a with Send _ (Ok res) => Some res | _ => None end) acts.

(** The batches handed to the sink. *)
Definition batches (acts : list (action ecs)) : list (list ecs) :=
  omap (λ a, match a with Send batch _ => Some batch | _ => None end) acts.

(** The totals of a run, from the answers of the sink: each answer goes
    through [add_totals], starting from [(0, 0)]. *)
Definition totals_of (answers : list send_result) : Z * Z :=
  foldl (λ t res, add_totals res t) (0%Z, 0%Z) answers.

End log.

End ExportRun.

(* ===================================================================== *)
(** ** app/exporters/siem_clients.py and the sinks of the export job      *)
(* ===================================================================== *)

Module Sinks.
Import PyStr PyText Config ExporterJob.

(** The answer to a POST, as the clients read it: the status code and the
    truth value of [r.json().get("errors")], which raises when the body is
    not a JSON object. *)
Record post_answer := {
  p_status : Z;
  p_errors : result bool
}.

Section clients.
Context {W ecs : Type}.

(** [requests.post(url, data=body, headers=hdr, ..)]: an answer, or an
    exception of the transport. *)
Context (post : W → string → list (string * string) → string
                → W * result post_answer).
(** [json.dumps(ev, separators=(",", ":"))] and the body of
    [requests.post(.., json=arr)]. *)
Context (dumps : ecs → string) (dumps_array : list ecs → string).
(** The line of the Splunk client for an event,
    [json.dumps({"time": .., "event": ev, ..})], with the index, source
    type, source and host of the client. *)
Context (hec_line : list value → ecs → string).
(** The two lines of the Elastic client for an event: the action for the
    index and the document, to which [@timestamp] is added when missing. *)
Context (bulk_action : string → string) (bulk_doc : ecs → string).
(** [base64.b64encode(..)] of [user:pass]. *)
Context (b64 : string → string).
(** [json.loads] of the extra headers of the generic client. *)
Context (loads_headers : string → option (list (string * string))).
(** The file system: [Path(dir).mkdir(parents=True, exist_ok=True)] and the
    write of a new file [leakhunter_<now>.ndjson] in a directory. *)
Context (mkdir : string → result unit).
Context (write_file : W → string → string → W * result unit).

(** The state of a [send] with its closure [flush]: the counters, the lines
    not yet posted and, for the record, the batches posted so far. *)
Record batcher := {
  b_world : W;
  b_ok : nat;
  b_fail : nat;
  b_lines : list string;
  b_posted : list (list string)
}.

Definition new_batcher (w : W) : batcher :=
  {| b_world := w; b_ok := 0; b_fail := 0; b_lines := []; b_posted := [] |}.

Definition add_line (l : string) (b : batcher) : batcher :=
  {| b_world := b_world b; b_ok := b_ok b; b_fail := b_fail b;
     b_lines := b_lines b ++ [l]; b_posted := b_posted b |}.

(** The batcher after a POST of its lines that counted [n] events as sent
    ([good]) or as failed. *)
Definition posted (w : W) (good : bool) (n : nat) (b : batcher) : batcher :=
  {| b_world := w;
     b_ok := if good then b_ok b + n else b_ok b;
     b_fail := if good then b_fail b else b_fail b + n;
     b_lines := [];
     b_posted := b_posted b ++ [b_lines b] |}.

(** The dictionary a client returns. *)
Definition counts (b : batcher) : send_result :=
  {| ok := CInt (Z.of_nat (b_ok b)); failed := CInt (Z.of_nat (b_fail b)) |}.

(** *** SplunkHECClient *)

Record splunk_client := {
  hec_url : string;
  hec_hdr : list (string * string);
  hec_fields : list value
}.

(** [SplunkHECClient(url, token, index, sourcetype, source, host)] *)
Definition SplunkHECClient (url token : string) (fields : list value)
    : splunk_client :=
  {| hec_url := rstrip_char "/" url +:+ "/services/collector/event";
     hec_hdr := [("Authorization", "Splunk " +:+ token)];
     hec_fields := fields |}.

(** [flush] of the Splunk client: nothing for an empty batch; else one POST
    of the lines joined by line feeds; status 200 counts the batch as sent,
    any other status as failed. *)
Definition splunk_flush (c : splunk_client) (b : batcher) : W * result batcher :=
  match b_lines b with
  | [] => (b_world b, Ok b)
  | batch =>
      let '(w, r) := post (b_world b) (hec_url c) (hec_hdr c) (join nl batch) in
      match r with
      | Raise e => (w, Raise e)
      | Ok a => (w, Ok (posted w (bool_decide (p_status a = 200%Z))
                               (length batch) b))
      end
  end.

(** The loop of [send]: a line for the event, and a flush once the batch
    has 500 lines. *)
Fixpoint splunk_loop (c : splunk_client) (evs : list ecs) (b : batcher)
    : W * result batcher :=
  match evs with
  | [] => (b_world b, Ok b)
  | ev :: rest =>
      let b1 := add_line (hec_line (hec_fields c) ev) b in
      if bool_decide (500 ≤ length (b_lines b1)) then
        match splunk_flush c b1 with
        | (w, Raise e) => (w, Raise e)
        | (_, Ok b2) => splunk_loop c rest b2
        end
      else splunk_loop c rest b1
  end.

(** The loop and the last [flush]. *)
Definition splunk_run (c : splunk_client) (w : W) (evs : list ecs)
    : W * result batcher :=
  match splunk_loop c evs (new_batcher w) with
  | (w1, Raise e) => (w1, Raise e)
  | (_, Ok b) => splunk_flush c b
  end.

(** [SplunkHECClient.send] *)
Definition splunk_send (c : splunk_client) : client W ecs :=
  λ w evs,
    let '(w', r) := splunk_run c w evs in
    (w', match r with Ok b => Ok (counts b) | Raise e => Raise e end).

(** *** ElasticBulkClient *)

Record elastic_client := {
  es_url : string;
  es_index : string;
  es_hdr : list (string * string)
}.

(** [ElasticBulkClient(url, index, api_key, basic_user, basic_pass)] *)
Definition ElasticBulkClient (url index : string)
    (api_key basic_user basic_pass : option string) : elastic_client :=
  {| es_url := rstrip_char "/" url +:+ "/_bulk";
     es_index := index;
     es_hdr :=
       ("Content-Type", "application/x-ndjson") ::
       match api_key, basic_user, basic_pass with
       | Some k, _, _ =>
           if bool_decide (k = EmptyString)
           then match basic_user, basic_pass with
                | Some u, Some p =>
                    [("Authorization", "Basic " +:+ b64 (u +:+ ":" +:+ p))]
                | _, _ => []
                end
           else [("Authorization", "ApiKey " +:+ k)]
       | None, Some u, Some p =>
           [("Authorization", "Basic " +:+ b64 (u +:+ ":" +:+ p))]
       | None, _, _ => []
       end |}.

(** [flush] of the Elastic client: one POST of the lines, each ended by a
    line feed; the batch counts as sent when the status is 2xx and the
    answer reports no errors, as failed otherwise; half the lines are
    events. Reading the answer of a 2xx status may raise. *)
Definition elastic_flush (c : elastic_client) (b : batcher) : W * result batcher :=
  match b_lines b with
  | [] => (b_world b, Ok b)
  | lines =>
      let '(w, r) := post (b_world b) (es_url c) (es_hdr c)
                          (join nl lines +:+ nl) in
      match r with
      | Raise e => (w, Raise e)
      | Ok a =>
          let n := length lines / 2 in
          if bool_decide (200 ≤ p_status a < 300)%Z then
            match p_errors a with
            | Raise e => (w, Raise e)
            | Ok errors => (w, Ok (posted w (negb errors) n b))
            end
          else (w, Ok (posted w false n b))
      end
  end.

(** The loop of [send]: two lines for the event, and a flush once there are
    1000 lines. *)
Fixpoint elastic_loop (c : elastic_client) (evs : list ecs) (b : batcher)
    : W * result batcher :=
  match evs with
  | [] => (b_world b, Ok b)
  | ev :: rest =>
      let b1 := add_line (bulk_doc ev) (add_line (bulk_action (es_index c)) b) in
      if bool_decide (1000 ≤ length (b_lines b1)) then
        match elastic_flush c b1 with
        | (w, Raise e) => (w, Raise e)
        | (_, Ok b2) => elastic_loop c rest b2
        end
      else elastic_loop c rest b1
  end.

Definition elastic_run (c : elastic_client) (w : W) (evs : list ecs)
    : W * result batcher :=
  match elastic_loop c evs (new_batcher w) with
  | (w1, Raise e) => (w1, Raise e)
  | (_, Ok b) => elastic_flush c b
  end.

(** [ElasticBulkClient.send] *)
Definition elastic_send (c : elastic_client) : client W ecs :=
  λ w evs,
    let '(w', r) := elastic_run c w evs in
    (w', match r with Ok b => Ok (counts b) | Raise e => Raise e end).

(** The lines of the Elastic client for a list of events. *)
Definition bulk_lines (c : elastic_client) (evs : list ecs) : list string :=
  evs ≫= λ ev, [bulk_action (es_index c); bulk_doc ev].

(** The state of a [send] between two events, for the lines [done] made so
    far and batches of [k] lines: the batches posted are full, the lines
    kept are fewer than a batch, and together they are the lines made. *)
Definition batching (k : nat) (b : batcher) (done : list string) : Prop :=
  concat (b_posted b) ++ b_lines b = done ∧
  Forall (λ batch, length batch = k) (b_posted b) ∧
  length (b_lines b) < k.

(** *** GenericHTTPClient *)

Record generic_client := {
  g_url : string;
  g_hdr : list (string * string);
  g_ndjson : bool
}.

(** [GenericHTTPClient(url, headers, ndjson)]: [self.hdr.update(headers)]
    puts the extra headers behind the content type. *)
Definition GenericHTTPClient (url : string) (headers : list (string * string))
    (ndjson : bool) : generic_client :=
  {| g_url := url;
     g_hdr := ("Content-Type", "application/json") :: headers;
     g_ndjson := ndjson |}.

(** [GenericHTTPClient.send]: one POST. In NDJSON mode the dictionary holds
    ["unknown"] for [ok] below status 300 and ["all"] for [failed] from
    status 300 on, values [int] rejects. *)
Definition generic_send (c : generic_client) : client W ecs :=
  λ w evs,
    if g_ndjson c then
      let '(w', r) := post w (g_url c) (g_hdr c) (join nl (dumps <$> evs)) in
      (w', match r with
           | Raise e => Raise e
           | Ok a =>
               Ok {| ok := if bool_decide (300 ≤ p_status a)%Z
                           then CInt 0 else CNotInt;
                     failed := if bool_decide (p_status a < 300)%Z
                               then CInt 0 else CNotInt |}
           end)
    else
      let '(w', r) := post w (g_url c) (g_hdr c) (dumps_array evs) in
      (w', match r with
           | Raise e => Raise e
           | Ok a =>
               let n := CInt (Z.of_nat (length evs)) in
               Ok {| ok := if bool_decide (300 ≤ p_status a)%Z
                           then CInt 0 else n;
                     failed := if bool_decide (p_status a < 300)%Z
                               then CInt 0 else n |}
           end).

(** *** _FileSink *)

(** [_FileSink.send]: one new file with a line for each event; every event
    counts as sent. *)
Definition file_send (out_dir : string) : client W ecs :=
  λ w evs,
    let '(w', r) :=
      write_file w out_dir (String.concat EmptyString ((λ ev, dumps ev +:+ nl) <$> evs)) in
    (w', match r with
         | Raise e => Raise e
         | Ok _ => Ok {| ok := CInt (Z.of_nat (length evs)); failed := CInt 0 |}
         end).

(** *** _make_client *)

(** [v or None] and [v or d] for the text of a setting. *)
Definition text_or (v : value) (d : string) : string :=
  if truthy v then text v else d.

Definition text_or_none (v : value) : option string :=
  if truthy v then Some (text v) else None.

(** [_make_client(mode)]: the arguments of a constructor are read off the
    settings from left to right before the client is built. *)
Definition _make_client (settings : Settings) (mode : string)
    : result (client W ecs) :=
  let m := lower mode in
  if bool_decide (m = "splunk") then
    bind (getattr settings "splunk_hec_url") (λ url,
    bind (getattr settings "splunk_hec_token") (λ token,
    bind (getattr settings "splunk_hec_index") (λ index,
    bind (getattr settings "splunk_hec_sourcetype") (λ sourcetype,
    bind (getattr settings "splunk_hec_source") (λ source,
    bind (getattr settings "splunk_hec_host") (λ host,
    bind (getattr settings "splunk_hec_verify") (λ _,
    Ok (splunk_send
          (SplunkHECClient (text url) (text token)
             [or_else index VNone;
              or_else sourcetype (VStr "leakhunter:ecs");
              or_else source (VStr "leakhunter");
              or_else host VNone])))))))))
  else if bool_decide (m = "elastic") then
    bind (getattr settings "elastic_url") (λ url,
    bind (getattr settings "elastic_index") (λ index,
    bind (getattr settings "elastic_api_key") (λ api_key,
    bind (getattr settings "elastic_basic_user") (λ user,
    bind (getattr settings "elastic_basic_pass") (λ pass,
    Ok (elastic_send
          (ElasticBulkClient (text url) (text_or index "leakhunter-findings")
             (text_or_none api_key) (text_or_none user) (text_or_none pass))))))))
  else if bool_decide (m = "generic") then
    let hj := text (or_else (getattr_or settings "generic_headers_json" (VStr EmptyString))
                            (VStr EmptyString)) in
    let hdr := if bool_decide (hj = EmptyString) then []
               else default [] (loads_headers hj) in
    bind (getattr settings "generic_url") (λ url,
    Ok (generic_send
          (GenericHTTPClient (text url) hdr
             (truthy (getattr_or settings "generic_ndjson" (VBool false))))))
  else if bool_decide (m = "file") then
    let outdir := text_or (getattr_or settings "siem_export_dir" (VStr "/exports"))
                          "/exports" in
    bind (mkdir outdir) (λ _, Ok (file_send outdir))
  else Raise RuntimeError.

End clients.

(** Settings with [EXPORT_MODE=File] and the directory /exports, and a
    world whose file system takes every write: [_make_client] for events
    that are numbers. *)
Definition file_settings : Settings :=
  {| field := λ name,
       if bool_decide (name = "export_mode") then VStr "File"
       else if bool_decide (name = "siem_export_mode") then VStr "file"
       else if bool_decide (name = "siem_export_dir") then VStr "/exports"
       else VStr EmptyString |}.

Definition file_world_client {W : Type} (settings : Settings)
    : string → result (client W nat) :=
  _make_client
    (λ w _ _ _, (w, Ok {| p_status := 200; p_errors := Ok false |}))
    (λ _, "{}") (λ _, "[]") (λ _ _, "{}") (λ i, i) (λ _, "{}") (λ s, s)
    (λ _, None) (λ _, Ok ()) (λ w _ _, (w, Ok ())) settings.

(** The same with a file system whose second write fails; the world counts
    the writes. *)
Definition flaky_disk_client (settings : Settings)
    : string → result (client nat nat) :=
  _make_client
    (λ w _ _ _, (w, Ok {| p_status := 200; p_errors := Ok false |}))
    (λ _, "{}") (λ _, "[]") (λ _ _, "{}") (λ i, i) (λ _, "{}") (λ s, s)
    (λ _, None) (λ _, Ok ())
    (λ w _ _, (S w, if bool_decide (w = 1) then Raise OSError else Ok ()))
    settings.

End Sinks.

(* ===================================================================== *)
(** ** The retry of app/connectors/slack_connector.py                     *)
(* ===================================================================== *)

Module Retry.

(** The classes [_retry] catches:
    [(SlackApiError, URLError, socket.gaierror, TimeoutError)]. *)
Definition retryable (e : error) : bool :=
  match e with
  | SlackApiError | URLError | gaierror | TimeoutError => true
  | _ => false
  end.

(** What a call of [_retry] did besides its result: how often it called, and
    the sleeps between the calls, each as the factor [2 ** i] of
    [base_delay]. *)
Record retry_log := {
  calls : nat;
  slept : list N
}.

Section retry.
Context {W A : Type}.
(** [call()]: the request, which changes the world and returns or raises. *)
Context (call : W → W * call_result A).

(** The turns [i, i + 1, ..] of [for i in range(retries)] that are left,
    [remaining] of them, and then [if last: raise last]. A function that
    falls off its end returns [None]. *)
Fixpoint retry_from (i remaining : nat) (last : option error) (w : W)
    : W * retry_log * call_result (option A) :=
  match remaining with
  | O =>
      (w, {| calls := 0; slept := [] |},
       match last with
       | Some e => Raises e
       | None => Returns None
       end)
  | S rest =>
      let '(w1, r) := call w in
      match r with
      | Returns a => (w1, {| calls := 1; slept := [] |}, Returns (Some a))
      | Raises e =>
          if retryable e then
            match rest with
            | O => (w1, {| calls := 1; slept := [] |}, Raises e)
            | S _ =>
                let '(w2, log, out) := retry_from (S i) rest (Some e) w1 in
                (w2, {| calls := S (calls log);
                        slept := (2 ^ N.of_nat i)%N :: slept log |}, out)
            end
          else (w1, {| calls := 1; slept := [] |}, Raises e)
      end
  end.

(** [_retry(call, retries, base_delay)] *)
Definition _retry (retries : nat) (w : W)
    : W * retry_log * call_result (option A) :=
  retry_from 0 retries None w.

(** The world after [k] calls made one after the other, and the outcome of
    the call made then. *)
Fixpoint world_after (k : nat) (w : W) : W :=
  match k with
  | O => w
  | S k' => world_after k' (call w).1
  end.

Definition nth_call (k : nat) (w : W) : call_result A :=
  (call (world_after k w)).2.

End retry.

End Retry.

(* ===================================================================== *)
(** ** The subscriptions of app/integrations/webhooks.py                  *)
(* ===================================================================== *)

Module Subscriptions.
Import PyStr PyText Webhooks Listing.

(** What the store supplies to the subscriptions: the identifiers
    ([ObjectId(s)] parses the text of an identifier and raises on a text
    that is none, [str(oid)] prints one, and [insert_one] gives a new
    document an identifier no document of the collection has) and the order
    of [find(..).sort("created_at", -1)], a rearrangement of the documents
    found. *)
Class Mongo := {
  ObjectId : Type;
  ObjectId_eq_dec :: EqDecision ObjectId;
  oid_str : ObjectId → string;
  parse_oid : string → option ObjectId;
  parse_oid_str : ∀ o, parse_oid (oid_str o) = Some o;
  new_oid : list ObjectId → ObjectId;
  new_oid_fresh : ∀ l, new_oid l ∉ l;
  sort_newest : ∀ {A : Type}, (A → datetime) → list A → list A;
  sort_newest_perm : ∀ (A : Type) (key : A → datetime) (l : list A),
    sort_newest key l ≡ₚ l
}.

Section store.
Context `{M : Mongo}.

(** A document of [integrations_webhooks]. *)
Record Subscription := {
  s_oid : ObjectId;
  s_url : string;
  s_secret : string;
  s_filters : gmap string fval;
  s_enabled : bool;
  s_created_at : datetime
}.

(** The document as [try_deliver_to_all] reads it. *)
Definition as_webhook (s : Subscription) : Webhook :=
  {| w_id := oid_str (s_oid s); w_url := s_url s; w_secret := s_secret s;
     w_filters := s_filters s; w_enabled := s_enabled s |}.

(** [register_webhook(url, secret, filters)] at the time [now]: the document
    is added and its identifier returned. *)
Definition register_webhook (now : datetime) (url : string)
    (secret : option string) (filters : option (gmap string fval))
    (store : list Subscription) : list Subscription * ObjectId :=
  let oid := new_oid (s_oid <$> store) in
  (store ++ [{| s_oid := oid; s_url := strip url;
                s_secret := strip (default EmptyString secret);
                s_filters := default ∅ filters; s_enabled := true;
                s_created_at := now |}],
   oid).

(** [_webhooks.delete_one({"_id": oid})]: the first document with the
    identifier goes; the second component is [deleted_count]. *)
Fixpoint delete_one (oid : ObjectId) (store : list Subscription)
    : list Subscription * nat :=
  match store with
  | [] => ([], 0)
  | s :: rest =>
      if decide (s_oid s = oid) then (rest, 1)
      else let '(rest', n) := delete_one oid rest in (s :: rest', n)
  end.

(** [delete_webhook(webhook_id)]: [False] for a text that is no identifier. *)
Definition delete_webhook (webhook_id : string) (store : list Subscription)
    : list Subscription * bool :=
  match parse_oid webhook_id with
  | None => (store, false)
  | Some oid =>
      let '(store', n) := delete_one oid store in (store', bool_decide (0 < n))
  end.

(** An entry of [list_webhooks]. *)
Record WebhookInfo := {
  wi_id : string;
  wi_url : string;
  wi_enabled : bool;
  wi_filters : gmap string fval
}.

Definition info (s : Subscription) : WebhookInfo :=
  {| wi_id := oid_str (s_oid s); wi_url := s_url s; wi_enabled := s_enabled s;
     wi_filters := s_filters s |}.

(** [list_webhooks()] *)
Definition list_webhooks (store : list Subscription) : list WebhookInfo :=
  info <$> sort_newest s_created_at store.

End store.

(** *** Delivery *)

(** A document of [integrations_deliveries]. *)
Record Delivery := {
  dl_webhook_id : string;
  dl_url : string;
  dl_event_fingerprint : string;
  dl_status : string;
  dl_http_status : option Z;
  dl_response : option string;
  dl_error : option string;
  dl_created_at : datetime
}.

(** What [_deliver_one] returns. *)
Record DeliveryResult := {
  dr_ok : bool;
  dr_status : option Z;
  dr_error : option string
}.

(** The answer to the POST of a delivery. *)
Record http_answer := {
  h_status : Z;
  h_text : string
}.

Section deliver.
Context {W : Type}.
(** [requests.post(url, data=body, headers=headers, timeout=10)] *)
Context (post : W → string → list (string * string) → string
                → W * result http_answer).
(** The clock, [json.dumps], the HMAC digest in hexadecimal and [str(e)]. *)
Context (clock : W → datetime).
Context (dumps : Ecs → string).
Context (hmac_sha256 : string → string → string).
Context (exn_text : exn → string).

(** The world and the [integrations_deliveries] collection. *)
Definition delivery_state : Type := W * list Delivery.

Definition _sign (secret body : string) : string :=
  "sha256=" +:+ hmac_sha256 secret body.

(** [_deliver_one(event, w)]: one POST and one document for it, whatever
    the POST does. *)
Definition _deliver_one (event : Event) (w : Webhook) (st : delivery_state)
    : delivery_state * DeliveryResult :=
  let body := dumps (to_ecs event) in
  let headers :=
    [("Content-Type", "application/json"); ("X-LeakHunter-Event", "finding");
     ("X-LeakHunter-Fingerprint", fingerprint event)] ++
    (if bool_decide (w_secret w = EmptyString) then []
     else [("X-LeakHunter-Signature", _sign (w_secret w) body)]) in
  let '(w1, r) := post st.1 (w_url w) headers body in
  match r with
  | Ok a =>
      let ok := bool_decide (200 ≤ h_status a < 300)%Z in
      ((w1, st.2 ++
            [{| dl_webhook_id := w_id w; dl_url := w_url w;
                dl_event_fingerprint := fingerprint event;
                dl_status := if ok then "sent" else "failed";
                dl_http_status := Some (h_status a);
                dl_response := Some (str_take 500 (h_text a));
                dl_error := None; dl_created_at := clock w1 |}]),
       {| dr_ok := ok; dr_status := Some (h_status a); dr_error := None |})
  | Raise e =>
      ((w1, st.2 ++
            [{| dl_webhook_id := w_id w; dl_url := w_url w;
                dl_event_fingerprint := fingerprint event;
                dl_status := "error"; dl_http_status := None;
                dl_response := None;
                dl_error := Some (str_take 300 (exn_text e));
                dl_created_at := clock w1 |}]),
       {| dr_ok := false; dr_status := None; dr_error := Some (exn_text e) |})
  end.

(** The deliveries of a walk, made in order. *)
Fixpoint run_all {S R : Type} (acts : list (S → S * R)) (st : S) : S * list R :=
  match acts with
  | [] => (st, [])
  | act :: rest =>
      let '(st1, r) := act st in
      let '(st2, rs) := run_all rest st1 in
      (st2, r :: rs)
  end.

(** [try_deliver_to_all(event)] with its effects: the walk of the claims,
    each delivery made when the walk reaches it; an exception of a filter
    ends the walk and is raised. *)
Definition deliver_to_all (event : Event) (hooks : list Webhook)
    (st : delivery_state) : delivery_state * result (list DeliveryResult) :=
  let '(acts, err) := try_deliver_to_all _deliver_one event hooks in
  let '(st', out) := run_all acts st in
  (st', match err with
        | Some e => Raise e
        | None => Ok out
        end).

(** The subscriptions a walk serves, and the exception that ends it. *)
Definition served (event : Event) (hooks : list Webhook)
    : list Webhook * option exn :=
  try_deliver_to_all (λ _ w, w) event hooks.

End deliver.

End Subscriptions.

(* ===================================================================== *)
(** ** app/alerts/slack_webhook.py and app/alerts/slack_alerts.py         *)
(* ===================================================================== *)

Module Alerts.
Import PyStr PyText.

(** [_esc(s)]:
    [s.replace("&", "&amp;").replace("<", "&lt;").replace(">", "&gt;")] *)
Definition _esc (s : string) : string :=
  replace (replace (replace s "&" "&amp;") "<" "&lt;") ">" "&gt;".

(** The text a character stands for after escaping. *)
Definition esc_char (c : ascii) : string :=
  if bool_decide (c = "&"%char) then "&amp;"
  else if bool_decide (c = "<"%char) then "&lt;"
  else if bool_decide (c = ">"%char) then "&gt;"
  else String c EmptyString.

(** Each character replaced by a text. *)
Fixpoint subst (f : ascii → string) (s : string) : string :=
  match s with
  | EmptyString => EmptyString
  | String c s' => f c +:+ subst f s'
  end.

(** [s[:k]] for an integer [k]: a negative [k] counts from the end. *)
Definition slice_to (k : Z) (s : string) : string :=
  if bool_decide (k < 0)%Z
  then str_take (Z.to_nat (Z.of_nat (String.length s) + k)) s
  else str_take (Z.to_nat k) s.

Section truncate.
(** The character U+2026, the horizontal ellipsis: one character of a
    Python string. *)
Context (ellipsis : ascii).

(** [_truncate(s, n)]: [s if len(s) <= n else s[: n - 1] + "…"] *)
Definition _truncate (s : string) (n : Z) : string :=
  if bool_decide (Z.of_nat (String.length s) ≤ n)%Z then s
  else slice_to (n - 1) s +:+ String ellipsis EmptyString.

End truncate.

(** *** The POST of the webhook alert *)

(** The answer to the POST: the status, and
    [int(r.headers.get("Retry-After", "1"))], which raises [ValueError]
    ([None] here) for a header that is no number. *)
Record hook_answer := {
  a_status : Z;
  a_retry_after : option Z
}.

(** What [_post_with_retry] did: the number of POSTs and the sleeps, in
    milliseconds. *)
Record post_log := {
  posts : nat;
  naps : list Z
}.

Definition add_post (nap : option Z) (l : post_log) : post_log :=
  {| posts := S (posts l); naps := option_list nap ++ naps l |}.

Definition one_post : post_log := {| posts := 1; naps := [] |}.

Section post.
Context {W : Type}.
(** [requests.post(url, json=payload, timeout=10)] *)
Context (post : W → W * call_result hook_answer).

(** The [while True] loop of [_post_with_retry] of the webhook alert, from a
    value of [tries]; [fuel] bounds the turns. [time.sleep] raises
    [ValueError] for a negative length. *)
Fixpoint post_loop (fuel : nat) (tries : Z) (w : W)
    : option (W * post_log * call_result bool) :=
  match fuel with
  | O => None
  | S fuel' =>
      let '(w1, r) := post w in
      let again (nap : Z) (tries' : Z) :=
        '(w2, log, out) ← post_loop fuel' tries' w1;
        Some (w2, add_post (Some nap) log, out) in
      let fall_through (tries' : Z) (a : hook_answer) :=
        if bool_decide (500 ≤ a_status a < 600 ∧ tries' < 3)%Z
        then again (1500 * (tries' + 1))%Z (tries' + 1)%Z
        else Some (w1, one_post, Returns false) in
      match r with
      | Returns a =>
          if bool_decide (a_status a = 200)%Z then Some (w1, one_post, Returns true)
          else if bool_decide (a_status a = 429)%Z then
            match a_retry_after a with
            | None => Some (w1, one_post, Raises ValueError)
            | Some retry =>
                if bool_decide (retry + 1 < 0)%Z
                then Some (w1, one_post, Raises ValueError)
                else if bool_decide (tries + 1 ≤ 3)%Z
                then again ((retry + 1) * 1000)%Z (tries + 1)%Z
                else
                  '(w2, log, out) ← fall_through (tries + 1)%Z a;
                  Some (w2, {| posts := posts log;
                               naps := ((retry + 1) * 1000)%Z :: naps log |}, out)
            end
          else fall_through tries a
      | Raises e =>
          if bool_decide (e = Builtin RequestException) then
            if bool_decide (tries + 1 > 3)%Z then Some (w1, one_post, Returns false)
            else again (1500 * (tries + 1))%Z (tries + 1)%Z
          else Some (w1, one_post, Raises e)
      end
  end.

(** [_post_with_retry(url, payload)] *)
Definition _post_with_retry (fuel : nat) (w : W)
    : option (W * post_log * call_result bool) :=
  post_loop fuel 0 w.

End post.

End Alerts.

(* ===================================================================== *)
(** ** app/workflow/servicenow_create.py                                  *)
(* ===================================================================== *)

Module ServiceNow.
Import PyStr PyText Config Store.

(** [_severity_rank(s)]: 0 for an empty text, 2 for a text that is none of
    low, medium and high. *)
Definition _severity_rank (s : string) : nat :=
  if bool_decide (s = EmptyString) then 0
  else
    let l := lower s in
    if bool_decide (l = "low") then 1
    else if bool_decide (l = "medium") then 2
    else if bool_decide (l = "high") then 3
    else 2.

(** [{"high":"1", "medium":"2", "low":"3"}.get((sev or "medium").lower(), "2")] *)
Definition _urgency_from_severity (sev : string) : string :=
  let l := lower (if bool_decide (sev = EmptyString) then "medium" else sev) in
  if bool_decide (l = "high") then "1"
  else if bool_decide (l = "medium") then "2"
  else if bool_decide (l = "low") then "3"
  else "2".

(** The answer to the POST of a record: the status and
    [(r.json().get("result") or {}).get("sys_id")]. *)
Record snow_answer := {
  sn_status : Z;
  sn_sys_id : result (option string)
}.

Section create.
Context {W : Type}.
(** [requests.post(url_api, auth=.., json=payload, timeout=30)] and the
    clock. *)
Context (post : W → string → string → W * result snow_answer).
Context (clock : W → datetime).
(** The JSON text of the payload, from the event, the urgency, the link to
    the dashboard and the two optional fields. *)
Context (payload : Event → string → string → value → value → string).

(** [_eligible(event)] *)
Definition _eligible (settings : Settings) (event : Event) : result bool :=
  bind (getattr settings "snow_create_on_detect") (λ flag,
  if negb (truthy flag) then Ok false else
  bind (getattr settings "snow_instance_url") (λ url,
  bind (getattr settings "snow_username") (λ user,
  bind (getattr settings "snow_password") (λ password,
  if negb (truthy url && truthy user && truthy password) then Ok false else
  bind (getattr settings "snow_min_severity") (λ min_severity,
  Ok (bool_decide (_severity_rank (text min_severity)
                   ≤ _severity_rank (severity event)))))))).

(** [create_ticket_for_event(event, mdb)]: the state is the world and the
    events collection. *)
Definition create_ticket_for_event (settings : Settings) (event : Event)
    (st : W * collection) : (W * collection) * result (option string) :=
  match _eligible settings event with
  | Raise e => (st, Raise e)
  | Ok false => (st, Ok None)
  | Ok true =>
      match PyText.truthy_text (snow_sys_id (status event)) with
      | Some id => (st, Ok (Some id))
      | None =>
          let urgency := _urgency_from_severity (severity event) in
          match
            bind (getattr settings "dashboard_base_url") (λ dash,
            bind (getattr settings "snow_assignment_group") (λ group,
            bind (getattr settings "snow_cmdb_ci") (λ ci,
            bind (getattr settings "snow_instance_url") (λ url,
            bind (getattr settings "snow_table") (λ table,
            bind (getattr settings "snow_username") (λ _,
            bind (getattr settings "snow_password") (λ _,
            Ok (rstrip_char "/" (text url) +:+ "/api/now/table/" +:+ text table,
                payload event urgency
                  (text (or_else dash (VStr "http://localhost:8501"))
                   +:+ "?fingerprint=" +:+ fingerprint event)
                  group ci))))))))
          with
          | Raise e => (st, Raise e)
          | Ok (url_api, body) =>
              let '(w1, r) := post st.1 url_api body in
              match r with
              | Raise e => ((w1, st.2), Raise e)
              | Ok a =>
                  if bool_decide (sn_status a ≠ 200 ∧ sn_status a ≠ 201)%Z
                  then ((w1, st.2), Ok None)
                  else
                    match sn_sys_id a with
                    | Raise e => ((w1, st.2), Raise e)
                    | Ok None => ((w1, st.2), Ok None)
                    | Ok (Some sys_id) =>
                        if bool_decide (sys_id = EmptyString)
                        then ((w1, st.2), Ok (Some sys_id))
                        else
                          ((w1, update_one_status (fingerprint event)
                                  (λ s, {| state := state s;
                                           jira_key := jira_key s;
                                           glpi_id := glpi_id s;
                                           snow_sys_id := Some sys_id;
                                           last_sync_at := Some (clock w1) |})
                                  st.2),
                           Ok (Some sys_id))
                    end
              end
          end
      end
  end.

(** The call of the adapter in the scan loop: its result is not used. *)
Definition adapter_call (settings : Settings) (event : Event)
    (st : W * collection) : result unit :=
  match (create_ticket_for_event settings event st).2 with
  | Ok _ => Ok ()
  | Raise e => Raise e
  end.

End create.

End ServiceNow.

(* ===================================================================== *)
(** ** app/scheduler.py and the run-now route of app/api/main.py          *)
(* ===================================================================== *)

Module Scheduler.

Inductive connector :=
  | Slack
  | Jira
  | Confluence
  | Trello
  | Teams.

(** What [run_scan] is called with: the scheduler passes the name of a
    connector, the run-now route a list or [None]. *)
Inductive scan_arg :=
  | ArgStr (s : string)
  | ArgList (l : list string)
  | ArgNone.

(** What [run_scan] returns: the count of one connector, or the dictionary
    of the five counts. *)
Inductive scan_report :=
  | One (n : nat)
  | All (slack jira confluence trello teams : nat).

(** [connector == name]: a list and [None] equal no string. *)
Definition arg_is (a : scan_arg) (name : string) : bool :=
  match a with
  | ArgStr s => bool_decide (s = name)
  | ArgList _ | ArgNone => false
  end.

Section scans.
Context {W : Type}.
(** [<connector>.scan()]: the count of new events, or an exception. *)
Context (scan : connector → W → W * call_result nat).

(** [safe_call(fn)]: [try: return fn() except Exception: .. return 0] *)
Definition safe_call (c : connector) (w : W) : W * nat :=
  let '(w', r) := scan c w in
  (w', match r with
       | Returns n => n
       | Raises _ => 0
       end).

(** [run_scan(connector)] *)
Definition run_scan (a : scan_arg) (w : W) : W * scan_report :=
  if arg_is a "slack" then let '(w', n) := safe_call Slack w in (w', One n)
  else if arg_is a "jira" then let '(w', n) := safe_call Jira w in (w', One n)
  else if arg_is a "confluence" then
    let '(w', n) := safe_call Confluence w in (w', One n)
  else if arg_is a "trello" then let '(w', n) := safe_call Trello w in (w', One n)
  else if arg_is a "teams" then let '(w', n) := safe_call Teams w in (w', One n)
  else
    let '(w1, s) := safe_call Slack w in
    let '(w2, j) := safe_call Jira w1 in
    let '(w3, c) := safe_call Confluence w2 in
    let '(w4, t) := safe_call Trello w3 in
    let '(w5, m) := safe_call Teams w4 in
    (w5, All s j c t m).

(** [schedule_run_now(connector)]:
    [sources = None if connector == "all" else [connector]] and
    [run_scan(sources)]. *)
Definition schedule_run_now (connector : string) (w : W) : W * scan_report :=
  run_scan (if bool_decide (connector = "all") then ArgNone
            else ArgList [connector]) w.

(** The five scans in the order of the dictionary, each counted as 0 when
    it raises. *)
Definition scan_all (w : W) : W * scan_report :=
  let '(w1, s) := safe_call Slack w in
  let '(w2, j) := safe_call Jira w1 in
  let '(w3, c) := safe_call Confluence w2 in
  let '(w4, t) := safe_call Trello w3 in
  let '(w5, m) := safe_call Teams w4 in
  (w5, All s j c t m).

End scans.

End Scheduler.

(* ===================================================================== *)
(** ** app/exporter.py                                                    *)
(* ===================================================================== *)

Module LegacyExporter.
Import PyStr PyText Store Listing Config.

(** What [export_events] returns. *)
Inductive export_result :=
  | HttpResult (exported failed : nat)
  | FileResult (path : string) (exported : nat).

Section export.
Context {W ecs : Type}.
(** [_to_ecs(e)] and [_wrap_for_splunk(rec)] with the four settings it
    reads. *)
Context (_to_ecs : Event → ecs).
Context (wrap : ecs → list value → ecs).
(** [coll.find(..).sort("found_at", 1)]: the order of the documents found. *)
Context (sort_asc : list Doc → list Doc).
(** [requests.post(url, json=payload, headers=headers, timeout=15)]: the
    status, or an exception. *)
Context (post : W → string → list (string * string) → ecs → W * call_result Z).
(** The file of the export, named after [since_dt], and its write. *)
Context (export_path : string → datetime → string).
Context (write_export : W → string → list ecs → W * call_result unit).

(** [AUTH_SCHEME], set when the module is loaded. *)
Definition AUTH_SCHEME (settings : Settings) : string :=
  lower (text (or_else (getattr_or settings "siem_http_auth_scheme" VNone)
                       (VStr "bearer"))).

(** A read of a setting inside a function that raises the errors of
    [error]. *)
Definition read (settings : Settings) (name : string) : call_result value :=
  match getattr settings name with
  | Ok v => Returns v
  | Raise e => Raises (Builtin e)
  end.

(** [_wrap_for_splunk(rec) if AUTH_SCHEME == "splunk" else rec] *)
Definition payload_of (settings : Settings) (rec : ecs) : call_result ecs :=
  if bool_decide (AUTH_SCHEME settings = "splunk") then
    match read settings "splunk_host" with
    | Raises e => Raises e
    | Returns host =>
        match read settings "splunk_source" with
        | Raises e => Raises e
        | Returns source =>
            match read settings "splunk_sourcetype" with
            | Raises e => Raises e
            | Returns sourcetype =>
                match read settings "splunk_index" with
                | Raises e => Raises e
                | Returns index =>
                    Returns (wrap rec [or_else host (VStr "leakhunter");
                                       or_else source (VStr "leakhunter");
                                       or_else sourcetype (VStr "_json");
                                       index])
                end
            end
        end
    end
  else Returns rec.

(** The headers of a record. *)
Definition headers_of (settings : Settings) : list (string * string) :=
  let token := field settings "siem_http_token" in
  if truthy token then
    [("Authorization",
      (if bool_decide (AUTH_SCHEME settings = "splunk") then "Splunk "
       else "Bearer ") +:+ text token)]
  else [].

(** The loop over the records in HTTP mode. The name [DEBUG] is bound
    nowhere in the module: [if DEBUG:] raises [NameError], in the branch of
    an answer that is not 2xx, where the handler catches it, and again in
    the handler, from which it leaves the function. *)
Fixpoint http_loop (settings : Settings) (recs : list ecs) (ok fail : nat)
    (w : W) : W * call_result (nat * nat) :=
  match recs with
  | [] => (w, Returns (ok, fail))
  | rec :: rest =>
      match payload_of settings rec with
      | Raises e => (w, Raises e)
      | Returns payload =>
          let '(w1, r) :=
            post w (text (field settings "siem_http_url")) (headers_of settings)
                 payload in
          match r with
          | Returns status =>
              if bool_decide (200 ≤ status < 300)%Z
              then http_loop settings rest (S ok) fail w1
              else (w1, Raises NameError)
          | Raises _ => (w1, Raises NameError)
          end
      end
  end.

(** Every request of the loop is answered with a status from 200 to 299,
    each request made in the world the one before it left; for a scheme
    other than splunk, where the payload is the record. *)
Fixpoint all_accepted (settings : Settings) (recs : list ecs) (w : W) : bool :=
  match recs with
  | [] => true
  | rec :: rest =>
      let '(w1, r) :=
        post w (text (field settings "siem_http_url")) (headers_of settings)
             rec in
      match r with
      | Returns status =>
          bool_decide (200 ≤ status < 300)%Z && all_accepted settings rest w1
      | Raises _ => false
      end
  end.

(** [export_events(coll, since_dt)]. The query
    [{"found_at": {"$gte": since_dt}}] compares with a [datetime] and so
    finds documents whose [found_at] is one; [coll] holds these. *)
Definition export_events (settings : Settings) (coll : list Doc)
    (since_dt : datetime) (w : W) : W * call_result export_result :=
  let cur := sort_asc (filter (λ d, dt_le since_dt (when d)) coll) in
  let ecs_records := (λ d, _to_ecs (body d)) <$> cur in
  let mode := lower (text (or_else (field settings "siem_export_mode")
                                   (VStr "file"))) in
  if bool_decide (mode = "http") && truthy (field settings "siem_http_url") then
    let '(w', r) := http_loop settings ecs_records 0 0 w in
    (w', match r with
         | Returns (ok, fail) => Returns (HttpResult ok fail)
         | Raises e => Raises e
         end)
  else
    let outdir := text (or_else (field settings "siem_export_dir")
                                (VStr "/exports")) in
    let path := export_path outdir since_dt in
    let '(w', r) := write_export w path ecs_records in
    (w', match r with
         | Returns _ => Returns (FileResult path (length ecs_records))
         | Raises e => Raises e
         end).

End export.

End LegacyExporter.

(* ===================================================================== *)
(** ** app/connectors/teams_connector.py                                  *)
(* ===================================================================== *)

Module Teams.
Import PyStr PyText TeamsDoc.

(** [m.span(0)] of a match: where it starts and where it ends. *)
Definition span : Type := nat * nat.

(** The order of the sorted spans: a later start first. *)
Definition later_first (x y : span) : Prop := y.1 ≤ x.1.

(** [sorted(spans, key=lambda x: x[0], reverse=True)]: the sort is stable,
    two spans with the same start keep their order. *)
Fixpoint insert_desc (x : span) (l : list span) : list span :=
  match l with
  | [] => [x]
  | y :: l' =>
      if bool_decide (y.1 ≤ x.1) then x :: y :: l' else y :: insert_desc x l'
  end.

Definition sorted_desc (l : list span) : list span := foldr insert_desc [] l.

(** [out[:a] + "****" + out[b:]] *)
Definition mask (out : string) (s : span) : string :=
  str_take s.1 out +:+ "****" +:+ str_drop s.2 out.

(** [_redact(text, matches)] on the spans of the matches. *)
Definition _redact (text : string) (matches : list span) : string :=
  match matches with
  | [] => str_take 500 text
  | _ => str_take 500 (foldl mask text (take 10 (sorted_desc matches)))
  end.

(** The [meta] dictionary [scan] builds for a message. *)
Record Meta := {
  m_severity : string;
  m_author_id : string;
  m_author_name : string;
  m_container : string;
  m_container_id : string;
  m_container_name : string;
  m_record_id : string;
  m_url : string
}.

Section store.
Context {W : Type}.
(** The clock, the digest [hashlib.sha256(..).hexdigest()], the function
    [_strip_html], and whether a call of the database raises. *)
Context (_now_iso : W → W * string).
Context (sha256_hex : string → string).
Context (_strip_html : string → string).
Context (db_raises : W → W * bool).
(** [PATTERNS]: the labels in the order of the file, each with the spans
    [rx.finditer] finds in a text. *)
Context (PATTERNS : list (string * (string → list span))).

(** [_fingerprint(d)]; the event has no key [rule]. *)
Definition _fingerprint (d : TeamsEvent) : string :=
  sha256_hex (join "|" ["teams"; type d; ""; container_id d; record_id d;
                        str_take 200 (_strip_html (snippet_redacted d))]).

Definition stamped (fp t : string) (ev : TeamsEvent) : TeamsEvent :=
  {| type := type ev; severity := severity ev; found_at := found_at ev;
     author_id := author_id ev; author_name := author_name ev;
     container := container ev; container_id := container_id ev;
     container_name := container_name ev; record_id := record_id ev;
     url := url ev; snippet_redacted := snippet_redacted ev;
     raw_sample := raw_sample ev; fingerprint := Some fp;
     created_at := Some t |}.

(** [update_one({"fingerprint": fp}, {"$setOnInsert": ev}, upsert=True)] *)
Definition upsert (docs : list TeamsEvent) (fp : string) (ev : TeamsEvent)
    : list TeamsEvent :=
  if bool_decide (Some fp ∈ fingerprint <$> docs) then docs else docs ++ [ev].

(** [_store_event(ev)]: [True] whenever the database call returns. *)
Definition _store_event (ev : TeamsEvent) (st : W * list TeamsEvent)
    : (W * list TeamsEvent) * bool :=
  let fp := _fingerprint ev in
  let '(w1, t) := _now_iso st.1 in
  let ev' := stamped fp t ev in
  let '(w2, raises) := db_raises w1 in
  if raises then ((w2, st.2), false)
  else ((w2, upsert st.2 fp ev'), true).

(** The event of a label with matches. *)
Definition event_of (label text t : string) (meta : Meta)
    (matches : list span) : TeamsEvent :=
  {| type := label; severity := m_severity meta; found_at := t;
     author_id := m_author_id meta; author_name := m_author_name meta;
     container := m_container meta; container_id := m_container_id meta;
     container_name := m_container_name meta; record_id := m_record_id meta;
     url := m_url meta; snippet_redacted := _redact text matches;
     raw_sample := str_take 500 text; fingerprint := None;
     created_at := None |}.

(** The loop of [_detect_and_store]. *)
Fixpoint detect_loop (pats : list (string * (string → list span)))
    (text : string) (meta : Meta) (new : nat) (st : W * list TeamsEvent)
    : (W * list TeamsEvent) * nat :=
  match pats with
  | [] => (st, new)
  | (label, finditer) :: rest =>
      match finditer text with
      | [] => detect_loop rest text meta new st
      | matches =>
          let '(w1, t) := _now_iso st.1 in
          let ev := event_of label text t meta matches in
          let '(st', stored) := _store_event ev (w1, st.2) in
          detect_loop rest text meta (if stored then S new else new) st'
      end
  end.

(** [_detect_and_store(text, meta)] *)
Definition _detect_and_store (text : string) (meta : Meta)
    (st : W * list TeamsEvent) : (W * list TeamsEvent) * nat :=
  detect_loop PATTERNS text meta 0 st.

(** The patterns with a match in [text]. *)
Definition hits (pats : list (string * (string → list span))) (text : string)
    : list (string * (string → list span)) :=
  filter (λ p, p.2 text ≠ []) pats.

(** The fingerprint of the event of a pattern; the clock has no part in
    it. *)
Definition fp_of (text : string) (meta : Meta)
    (p : string * (string → list span)) : string :=
  _fingerprint (event_of p.1 text EmptyString meta (p.2 text)).

End store.

End Teams.


(* ===================================================================== *)
(** * Properties                                                          *)
(* ===================================================================== *)

(** ** Strings *)

Module PyStrFacts.
Import PyStr.

Lemma app_nil_l (s : string) : "" +:+ s = s.
Proof. reflexivity. Qed.

Lemma app_cons (c : ascii) (a b : string) :
  String c a +:+ b = String c (a +:+ b).
Proof. reflexivity. Qed.

Lemma app_nil_r (s : string) : s +:+ "" = s.
Proof. induction s as [|c s IH]; [done|]. by rewrite app_cons, IH. Qed.

Lemma app_assoc (a b c : string) : (a +:+ b) +:+ c = a +:+ (b +:+ c).
Proof. induction a as [|x a IH]; [done|]. by rewrite !app_cons, IH. Qed.

Lemma length_app (a b : string) :
  String.length (a +:+ b) = String.length a + String.length b.
Proof. induction a as [|x a IH]; [done|]. rewrite app_cons. simpl. by rewrite IH. Qed.

(** [prefix] computes "starts with". *)
Lemma prefix_spec (p s : string) :
  String.prefix p s = true ↔ ∃ r, s = p +:+ r.
Proof.
  revert s. induction p as [|c p IH]; intros s.
  - destruct s; simpl; split; eauto.
  - destruct s as [|d s]; simpl.
    + split; [done|]. by intros [r ?].
    + destruct (ascii_dec c d) as [->|Hne].
      * rewrite IH. split; intros [r Hr]; exists r.
        -- by rewrite app_cons, Hr.
        -- rewrite app_cons in Hr. congruence.
      * split; [done|]. intros [r Hr]. rewrite app_cons in Hr. congruence.
Qed.

Lemma prefix_nil (s : string) : String.prefix "" s = true.
Proof. by destruct s. Qed.

Lemma lower_length (s : string) : String.length (lower s) = String.length s.
Proof. induction s; simpl; congruence. Qed.

Lemma lower_empty_iff (s : string) : lower s = "" ↔ s = "".
Proof. destruct s; simpl; split; congruence. Qed.

Lemma str_take_length_le (n : nat) (s : string) : String.length (str_take n s) ≤ n.
Proof.
  revert s. induction n as [|n IH]; intros [|c s]; simpl; try lia.
  specialize (IH s). lia.
Qed.

Lemma str_take_prefix (n : nat) (s : string) : ∃ r, s = str_take n s +:+ r.
Proof.
  revert s. induction n as [|n IH]; intros [|c s]; simpl; eauto.
  destruct (IH s) as [r Hr]. exists r. rewrite app_cons. congruence.
Qed.

(** *** Occurrences *)

Lemma occurs_nil_inv (x : string) : occurs x "" → x = "".
Proof.
  intros (l & r & H). destruct l; [|done]. rewrite app_nil_l in H.
  by destruct x.
Qed.

Lemma occurs_prefix (x r : string) : occurs x (x +:+ r).
Proof. by exists "", r. Qed.

Lemma occurs_cons (c : ascii) (x s : string) : occurs x s → occurs x (String c s).
Proof. intros (l & r & ->). by exists (String c l), r. Qed.


Lemma occurs_cons_inv (c : ascii) (x s : string) :
  occurs x (String c s) → (∃ r, String c s = x +:+ r) ∨ occurs x s.
Proof.
  intros (l & r & H). destruct l as [|d l].
  - left. by exists r.
  - right. rewrite app_cons in H. injection H as _ ->. by exists l, r.
Qed.

Lemma occursb_spec (x s : string) : occursb x s = true ↔ occurs x s.
Proof.
  induction s as [|c s IH].
  - cbn [occursb]. rewrite orb_false_r, prefix_spec. split.
    + intros [r ->]. apply occurs_prefix.
    + intros ->%occurs_nil_inv. by exists "".
  - cbn [occursb]. rewrite orb_true_iff, IH, prefix_spec. split.
    + intros [[r ->]| H]; [apply occurs_prefix|by apply occurs_cons].
    + apply occurs_cons_inv.
Qed.


(** *** [replace] *)

Lemma replace_go_0_cons (old new : string) (c : ascii) (s : string) :
  replace_go old new 0 (String c s) =
  if String.prefix old (String c s)
  then new +:+ replace_go old new (String.length old - 1) s
  else String c (replace_go old new 0 s).
Proof. reflexivity. Qed.

Lemma replace_go_skip (old new pre rest : string) :
  replace_go old new (String.length pre) (pre +:+ rest) =
  replace_go old new 0 rest.
Proof.
  induction pre as [|c pre IH]; [by destruct rest|].
  rewrite app_cons. simpl. apply IH.
Qed.

(** Where [old] starts, [new] is written and the scan goes on behind it. *)
Lemma replace_go_hit (old new rest : string) :
  old ≠ "" →
  replace_go old new 0 (old +:+ rest) = new +:+ replace_go old new 0 rest.
Proof.
  intros Hne. destruct old as [|c old]; [done|].
  rewrite app_cons, replace_go_0_cons, <-app_cons.
  assert (String.prefix (String c old) (String c old +:+ rest) = true) as ->.
  { apply prefix_spec. by exists rest. }
  f_equal. replace (String.length (String c old) - 1) with (String.length old)
    by (simpl; lia).
  apply replace_go_skip.
Qed.

Lemma replace_go_miss (old new : string) (c : ascii) (s : string) :
  String.prefix old (String c s) = false →
  replace_go old new 0 (String c s) = String c (replace_go old new 0 s).
Proof. intros H. by rewrite replace_go_0_cons, H. Qed.

Lemma replace_nonempty (s old new : string) :
  old ≠ "" → replace s old new = replace_go old new 0 s.
Proof. by destruct old. Qed.




Section mask.
(** The replacement text is a non-empty run of one character [k], as the
    mask of the redaction is. *)
Variables (k : ascii) (j : nat) (old : string).
Hypothesis old_nonempty : old ≠ "".

Let new := run k (S j).
Let R := replace_go old new 0.




End mask.

End PyStrFacts.

(** ** Normalisation: fingerprint, severity, redaction *)

Module NormalizeFacts.
Import PyStr PyStrFacts Normalize.

Lemma elem_of_match_set (dets : list Detection) (m : string) :
  m ∈ match_set dets ↔ m ≠ "" ∧ ∃ d, d ∈ dets ∧ d_match d = Some m.
Proof.
  unfold match_set. rewrite elem_of_list_to_set, list_elem_of_fmap.
  split.
  - intros (d & -> & Hd). apply list_elem_of_filter in Hd as [Hne Hd].
    split; [done|]. exists d. split; [done|].
    unfold match_or_empty in *. destruct (d_match d); simpl in *; congruence.
  - intros (Hne & d & Hd & Hm). exists d.
    assert (match_or_empty d = m) as Hmo by (unfold match_or_empty; by rewrite Hm).
    split; [done|]. apply list_elem_of_filter. by rewrite Hmo.
Qed.

Lemma match_set_perm (dets dets' : list Detection) :
  dets' ≡ₚ dets → match_set dets' = match_set dets.
Proof.
  intros Hp. apply set_eq. intros m. rewrite !elem_of_match_set.
  by setoid_rewrite Hp.
Qed.

Lemma sorted_Sorted (X : gset string) : Sorted String.le (sorted X).
Proof. apply (Sorted_merge_sort _). Qed.

Lemma sorted_perm (X : gset string) : sorted X ≡ₚ elements X.
Proof. apply merge_sort_Permutation. Qed.

Lemma sorted_NoDup (X : gset string) : NoDup (sorted X).
Proof. rewrite sorted_perm. apply NoDup_elements. Qed.

Lemma elem_of_sorted (X : gset string) (m : string) : m ∈ sorted X ↔ m ∈ X.
Proof. by rewrite sorted_perm, elem_of_elements. Qed.

(** The sorted list of a set is the only sorted list with those elements. *)
Lemma sorted_unique (X : gset string) (ms : list string) :
  Sorted String.le ms → NoDup ms → (∀ m, m ∈ ms ↔ m ∈ X) → ms = sorted X.
Proof.
  intros Hs Hn Hel. apply (Sorted_unique String.le); [done|apply sorted_Sorted|].
  apply NoDup_Permutation; [done|apply sorted_NoDup|].
  intros m. by rewrite Hel, elem_of_sorted.
Qed.

Lemma is_credential_spec (dets : list Detection) :
  is_credential dets = true ↔
  ∃ d p r, d ∈ dets ∧ p ∈ credential_prefixes ∧
             lower (label_or_empty d) = p +:+ r.
Proof.
  unfold is_credential, startswith_any, startswith.
  rewrite existsb_exists. split.
  - intros (d & Hd & Hp). apply existsb_exists in Hp as (p & Hp & Hpre).
    apply prefix_spec in Hpre as [r Hr].
    exists d, p, r. by rewrite !list_elem_of_In.
  - intros (d & p & r & Hd & Hp & Hr). exists d.
    split; [by apply list_elem_of_In|].
    apply existsb_exists. exists p. split; [by apply list_elem_of_In|].
    apply prefix_spec. by exists r.
Qed.

(** *** Redaction *)








(** C1. The fingerprint of [make_event] is the SHA-256 digest of
    [platform|container.id|pointer|] followed by the comma-joined list [ms],
    where [ms] is sorted, free of duplicates and holds exactly the non-empty
    match strings of the detections. It is the same for every other call
    whose detections are a permutation of these, whatever the clock, the
    text and the other metadata of that call. *)
Theorem fingerprint_deterministic `{RT : PyRuntime}
    (now : datetime) (platform : string) (c : Container) (text : string)
    (dets : list Detection) (meta : SourceMeta) :
  let e := make_event now platform c text dets meta in
  ∃ ms : list string,
    (Sorted String.le ms ∧ NoDup ms ∧
     ∀ m, m ∈ ms ↔ m ≠ "" ∧ ∃ d, d ∈ dets ∧ d_match d = Some m) ∧
    fingerprint e =
      sha256 (platform +:+ "|" +:+ py_str (c_id c) +:+ "|" +:+
              py_str (default (PyStr "") (pointer meta)) +:+ "|" +:+
              join "," ms) ∧
    ∀ (now' : datetime) (c' : Container) (text' : string)
      (dets' : list Detection) (meta' : SourceMeta),
      dets' ≡ₚ dets → c_id c' = c_id c → pointer meta' = pointer meta →
      fingerprint (make_event now' platform c' text' dets' meta') =
      fingerprint e.
Proof.
  intros e. exists (matches_of dets). split; [|split].
  - split; [apply sorted_Sorted|]. split; [apply sorted_NoDup|].
    intros m. unfold matches_of. by rewrite elem_of_sorted, elem_of_match_set.
  - reflexivity.
  - intros now' c' text' dets' meta' Hp Hc Hm. simpl.
    unfold fp_basis, pointer_of, matches_of.
    by rewrite (match_set_perm _ _ Hp), Hc, Hm.
Qed.

(** The event of the end-to-end scenario: the basis of its fingerprint, its
    severity, its detections and its redacted snippet. *)
Example scenario_event_fields :
  fingerprint scenario_event = "slack|C1|ts1|4111-1111-1111-1111,hunter2" ∧
  severity scenario_event = "High" ∧
  length (detections scenario_event) = 2 ∧
  snippet_redacted scenario_event = "my password is ****, card ****".
Proof. vm_compute. done. Qed.

(** C7, as the code has it. The severity of the event is the capitalised
    string "High" exactly when some detection label, in lower case, starts
    with one of the prefixes password, private, api, credit, and the
    capitalised string "Medium" otherwise; the label password-reset-token
    gives "High", the label internal-note gives "Medium". *)
Theorem severity_escalation `{RT : PyRuntime}
    (now : datetime) (platform : string) (c : Container) (text : string)
    (dets : list Detection) (meta : SourceMeta) (m : option string) :
  let credential :=
    ∃ d p r, d ∈ dets ∧ p ∈ ["password"; "private"; "api"; "credit"] ∧
             lower (default "" (d_label d)) = p +:+ r in
  let e := make_event now platform c text dets meta in
  (severity e = "High" ↔ credential) ∧
  (severity e = "Medium" ↔ ¬ credential) ∧
  severity (make_event now platform c text
              [{| d_label := Some "password-reset-token"; d_match := m |}]
              meta) = "High" ∧
  severity (make_event now platform c text
              [{| d_label := Some "internal-note"; d_match := m |}]
              meta) = "Medium".
Proof.
  intros credential e. simpl. unfold severity_of.
  pose proof (is_credential_spec dets) as Hspec.
  fold credential_prefixes. split; [|split; [|split]].
  - destruct (is_credential dets); split; try done.
    + intros _. by apply Hspec.
    + intros H. apply Hspec in H. done.
  - destruct (is_credential dets); split; try done.
    + intros H. destruct H. by apply Hspec.
    + intros _ H. apply Hspec in H. done.
  - reflexivity.
  - reflexivity.
Qed.

(** C7 as stated fails: the label password-reset-token gives the severity
    "High", which is not the string "high". *)
Lemma severity_not_lowercase :
  ¬ (∀ (RT : PyRuntime) (now : datetime) (platform : string) (c : Container)
       (text : string) (dets : list Detection) (meta : SourceMeta),
       let credential :=
         ∃ d p r, d ∈ dets ∧ p ∈ ["password"; "private"; "api"; "credit"] ∧
                  lower (default "" (d_label d)) = p +:+ r in
       let e := make_event now platform c text dets meta in
       (credential → severity e = "high") ∧
       (¬ credential → severity e = "medium")).
Proof.
  intros H.
  pose (d := {| d_label := Some "password-reset-token"; d_match := Some "x" |}).
  pose (dt := scenario_time).
  pose (c := scenario_container).
  pose (meta := scenario_meta).
  destruct (H plain_runtime dt "slack" c "x" [d] meta) as [Hhigh _].
  assert (severity (@make_event plain_runtime dt "slack" c "x" [d] meta) = "High")
    as Heq by reflexivity.
  rewrite Heq in Hhigh. discriminate Hhigh.
  exists d, "password", "-reset-token". split; [by constructor|].
  split; [by constructor|]. reflexivity.
Qed.




End NormalizeFacts.

(** ** Webhook filters *)

Module WebhooksFacts.
Import PyStr PyStrFacts Webhooks.

Lemma elem_of_event_labels (event : Event) (x : string) :
  x ∈ event_labels event ↔
  x ≠ "" ∧ ∃ d, d ∈ detections event ∧ d_label d = Some x.
Proof.
  unfold event_labels. rewrite list_elem_of_omap. split.
  - intros (d & Hd & Hx). destruct (d_label d) as [l|] eqn:Hl; [|done].
    case_bool_decide; [done|]. injection Hx as ->. eauto.
  - intros (Hne & d & Hd & Hl). exists d. split; [done|].
    rewrite Hl. by rewrite bool_decide_eq_false_2.
Qed.

Lemma iter_strs_or_empty_list (v : fval) :
  iter_strs (or_empty_list v) = wanted_labels v.
Proof. by destruct v as [|[|??]|[|??]]. Qed.

Lemma py_lower_or_empty_str (v : fval) :
  py_lower (or_empty_str v) =
  match filter_text v with
  | Some s => Ok (lower s)
  | None => Raise AttributeError
  end.
Proof. by destruct v as [|[|??]|[|??]]. Qed.

(** The comparison of one text filter lets the event through exactly when
    the key is absent or its text equals the target. *)
Lemma text_differs_false (filters : gmap string fval) (key target : string) :
  text_differs filters key target = Ok false ↔
  ∀ v, filters !! key = Some v →
       ∃ s, filter_text v = Some s ∧ lower s = target.
Proof.
  unfold text_differs. destruct (filters !! key) as [v|]; [|by split].
  rewrite py_lower_or_empty_str. split.
  - intros H v' [= <-]. destruct (filter_text v) as [s|]; [|done].
    simpl in H. injection H as H. apply bool_decide_eq_false in H.
    exists s. split; [done|]. by destruct (decide (lower s = target)).
  - intros H. destruct (H v eq_refl) as (s & -> & Hs). simpl.
    by rewrite bool_decide_eq_false_2 by (by intros ?).
Qed.

Lemma text_differs_absent (filters : gmap string fval) (key target : string) :
  filters !! key = None → text_differs filters key target = Ok false.
Proof. intros H. apply text_differs_false. intros v. by rewrite H. Qed.

(** With text values under the key or none, the comparison returns. *)
Lemma text_differs_total (filters : gmap string fval) (key target : string) :
  (∀ v, filters !! key = Some v → is_Some (filter_text v)) →
  ∃ b, text_differs filters key target = Ok b.
Proof.
  intros H. unfold text_differs. destruct (filters !! key) as [v|]; [|eauto].
  rewrite py_lower_or_empty_str. destruct (H v eq_refl) as [s ->]. simpl. eauto.
Qed.

Lemma labels_meet (want labels : list string) :
  (list_to_set want : gset string) ∩ list_to_set labels ≠ ∅ ↔
  ∃ x, x ∈ want ∧ x ∈ labels.
Proof.
  split.
  - intros (x & Hx)%set_choose_L. exists x. set_solver.
  - intros (x & ? & ?). set_solver.
Qed.

Lemma match_filters_true (event : Event) (filters : gmap string fval) :
  match_filters event filters = Ok true ↔
  filters = ∅ ∨
  (platform_agrees event filters ∧ severity_agrees event filters ∧
   labels_agree event filters).
Proof.
  unfold match_filters. case_bool_decide as Hempty.
  { split; [by left|done]. }
  pose proof (text_differs_false filters "platform" (lower (platform event))) as HP.
  pose proof (text_differs_false filters "severity" (lower (severity event))) as HS.
  fold (platform_agrees event filters) in HP.
  fold (severity_agrees event filters) in HS.
  assert ((match filters !! "labels" with
           | Some v =>
               if bool_decide
                    ((list_to_set (iter_strs (or_empty_list v)) : gset string)
                     ∩ list_to_set (event_labels event) = ∅)
               then Ok false else Ok true
           | None => Ok true
           end = Ok true) ↔ labels_agree event filters) as HL.
  { unfold labels_agree. destruct (filters !! "labels") as [v|]; [|by split].
    rewrite iter_strs_or_empty_list. case_bool_decide as Hmeet; split.
    - done.
    - intros H. destruct (H v eq_refl) as (x & d & Hx & Hne & Hd & Hl).
      exfalso. revert Hmeet. apply labels_meet. exists x. split; [done|].
      apply elem_of_event_labels. eauto.
    - intros _ v' [= <-]. apply labels_meet in Hmeet as (x & Hx & Hl).
      apply elem_of_event_labels in Hl as (Hne & d & Hd & Hl). eauto 10.
    - done. }
  destruct (text_differs filters "platform" _) as [[]|e]; simpl.
  - split; [done|]. intros [?|(H & _)]; [done|]. by apply HP in H.
  - destruct (text_differs filters "severity" _) as [[]|e]; simpl.
    + split; [done|]. intros [?|(_ & H & _)]; [done|]. by apply HS in H.
    + rewrite HL. split.
      * intros H. right. split; [by apply HP|]. split; [by apply HS|done].
      * intros [?|(_ & _ & H)]; done.
    + split; [done|]. intros [?|(_ & H & _)]; [done|]. by apply HS in H.
  - split; [done|]. intros [?|(H & _)]; [done|]. by apply HP in H.
Qed.

(** With text values under [platform] and [severity], the call returns. *)
Lemma match_filters_total (event : Event) (filters : gmap string fval) :
  (∀ v, filters !! "platform" = Some v → is_Some (filter_text v)) →
  (∀ v, filters !! "severity" = Some v → is_Some (filter_text v)) →
  ∃ b, match_filters event filters = Ok b.
Proof.
  intros HP HS. unfold match_filters. case_bool_decide; [eauto|].
  destruct (text_differs_total filters "platform" (lower (platform event)) HP)
    as [b1 ->].
  destruct (text_differs_total filters "severity" (lower (severity event)) HS)
    as [b2 ->].
  simpl. destruct b1; [eauto|]. destruct b2; [eauto|].
  destruct (filters !! "labels"); [|eauto]. case_bool_decide; eauto.
Qed.

Lemma match_filters_false (event : Event) (filters : gmap string fval) :
  texts_ok filters →
  match_filters event filters = Ok false ↔
  ¬ (filters = ∅ ∨
     (platform_agrees event filters ∧ severity_agrees event filters ∧
      labels_agree event filters)).
Proof.
  intros [HP HS]. rewrite <-match_filters_true.
  destruct (match_filters_total event filters HP HS) as [[] ->]; split; done.
Qed.

Lemma texts_ok_singleton (k : string) (v : fval) :
  (k = "platform" ∨ k = "severity" → is_Some (filter_text v)) →
  texts_ok {[k := v]}.
Proof.
  intros H. split; intros v' Hv'; apply lookup_singleton_Some in Hv' as [? <-];
    apply H; auto.
Qed.

(** C6. [match_filters] returns true exactly when no filter is set or every
    filter that is set agrees with the event: platform and severity are
    compared without regard to case, and one of the requested labels is the
    label of a detection of the event. When the values under [platform] and
    [severity] are texts it returns false in every other case. A filter on
    severity high rejects a medium event; a filter on the label Credit Card
    accepts an event with a detection of that label and rejects an event
    whose detections are all labelled Password; the empty filter accepts
    every event; an enabled subscription receives a delivery exactly when its
    filters match. *)
Theorem match_filters_correct (event : Event) (filters : gmap string fval) :
  (match_filters event filters = Ok true ↔
   filters = ∅ ∨
   (platform_agrees event filters ∧ severity_agrees event filters ∧
    labels_agree event filters)) ∧
  (texts_ok filters →
   match_filters event filters = Ok false ↔
   ¬ (filters = ∅ ∨
      (platform_agrees event filters ∧ severity_agrees event filters ∧
       labels_agree event filters))) ∧
  (lower (severity event) = "medium" →
   match_filters event {["severity" := FStr "high"]} = Ok false) ∧
  ((∃ d, d ∈ detections event ∧ d_label d = Some "Credit Card") →
   match_filters event {["labels" := FList ["Credit Card"]]} = Ok true) ∧
  ((∀ d, d ∈ detections event → d_label d = Some "Password") →
   match_filters event {["labels" := FList ["Credit Card"]]} = Ok false) ∧
  match_filters event ∅ = Ok true ∧
  (∀ (D : Type) (deliver_one : Event → Webhook → D) (w : Webhook),
     w_enabled w = true →
     (try_deliver_to_all deliver_one event [w]).1 = [deliver_one event w] ↔
     match_filters event (w_filters w) = Ok true).
Proof.
  split; [apply match_filters_true|].
  split; [apply match_filters_false|].
  split; [|split; [|split; [|split]]].
  - intros Hsev. apply match_filters_false.
    { apply texts_ok_singleton. intros _. by eexists. }
    intros [Hempty|(_ & HS & _)].
    + by apply (map_non_empty_singleton (M:=gmap string)) in Hempty.
    + destruct (HS (FStr "high")) as (s & [= <-] & Hs).
      { apply lookup_singleton_eq. }
      rewrite Hsev in Hs. discriminate Hs.
  - intros (d & Hd & Hl). apply match_filters_true. right.
    split; [|split].
    + intros v Hv. by apply lookup_singleton_Some in Hv as [? _].
    + intros v Hv. by apply lookup_singleton_Some in Hv as [? _].
    + intros v Hv. apply lookup_singleton_Some in Hv as [_ <-].
      exists "Credit Card", d. split; [by constructor|]. done.
  - intros Hall. apply match_filters_false.
    { apply texts_ok_singleton. by intros [?|?]. }
    intros [Hempty|(_ & _ & HL)].
    + by apply (map_non_empty_singleton (M:=gmap string)) in Hempty.
    + destruct (HL (FList ["Credit Card"])) as (x & d & Hx & _ & Hd & Hl).
      { apply lookup_singleton_eq. }
      apply list_elem_of_singleton in Hx as ->.
      rewrite (Hall d Hd) in Hl. discriminate Hl.
  - reflexivity.
  - intros D deliver_one w Hen. simpl. rewrite Hen.
    destruct (match_filters event (w_filters w)) as [[]|e]; simpl; by split.
Qed.

(** Filters on the event of the end-to-end scenario. *)
Example match_filters_scenario :
  let ev := Normalize.scenario_event in
  match_filters ev {["platform" := FStr "slack"]} = Ok true ∧
  match_filters ev {["severity" := FStr "HIGH"]} = Ok true ∧
  match_filters ev {["severity" := FStr "medium"]} = Ok false ∧
  match_filters ev {["labels" := FList ["Credit Card"]]} = Ok true ∧
  match_filters ev {["labels" := FList ["API Token"]]} = Ok false ∧
  match_filters ev {["platform" := FNone]} = Ok false ∧
  match_filters ev {["labels" := FList []]} = Ok false ∧
  match_filters ev {["severity" := FList ["high"]]} = Raise AttributeError ∧
  match_filters ev ∅ = Ok true.
Proof. vm_compute. done. Qed.

(** C10. A filter key that is present with an empty value excludes: under
    [platform] (or [severity]) the values null and the empty string let no
    event with a non-empty platform (severity) match, and under [labels] the
    values null and the empty list let no event match; wherever the call
    returns, it returns false. A key that is absent leaves the outcome
    independent of the field of the event it would test. *)
Theorem empty_filter_value_excludes (event : Event) (filters : gmap string fval) :
  (platform event ≠ "" →
   filters !! "platform" = Some FNone ∨ filters !! "platform" = Some (FStr "") →
   match_filters event filters = Ok false) ∧
  (severity event ≠ "" →
   filters !! "severity" = Some FNone ∨ filters !! "severity" = Some (FStr "") →
   match_filters event filters ≠ Ok true ∧
   (texts_ok filters → match_filters event filters = Ok false)) ∧
  (filters !! "labels" = Some FNone ∨ filters !! "labels" = Some (FList []) →
   match_filters event filters ≠ Ok true ∧
   (texts_ok filters → match_filters event filters = Ok false)) ∧
  (filters !! "platform" = None →
   ∀ p, match_filters (with_platform p event) filters =
        match_filters event filters) ∧
  (filters !! "severity" = None →
   ∀ s, match_filters (with_severity s event) filters =
        match_filters event filters) ∧
  (filters !! "labels" = None →
   ∀ ds, match_filters (with_detections ds event) filters =
         match_filters event filters).
Proof.
  assert (∀ t, t ≠ "" → "" ≠ lower t) as Hlow.
  { intros t Ht H. apply Ht. by apply lower_empty_iff. }
  assert (∀ key, (filters !! key = Some FNone ∨ filters !! key = Some (FStr "")) →
            filters ≠ ∅) as Hne.
  { intros key [H|H] ->; by rewrite lookup_empty in H. }
  split; [|split; [|split; [|split; [|split]]]].
  - intros Hp Hf. unfold match_filters.
    rewrite bool_decide_eq_false_2 by eauto.
    unfold text_differs at 1.
    destruct Hf as [-> | ->]; simpl;
      by rewrite bool_decide_eq_true_2 by (by apply Hlow).
  - intros Hs Hf.
    assert (¬ (filters = ∅ ∨
               (platform_agrees event filters ∧ severity_agrees event filters ∧
                labels_agree event filters))) as Hno.
    { intros [Hempty|(_ & HS & _)]; [by eapply Hne|].
      destruct Hf as [Hf|Hf]; destruct (HS _ Hf) as (s & [= <-] & Hx);
        by apply Hlow in Hx. }
    split; [by rewrite match_filters_true|].
    intros Hok. by apply match_filters_false.
  - intros Hf.
    assert (¬ (filters = ∅ ∨
               (platform_agrees event filters ∧ severity_agrees event filters ∧
                labels_agree event filters))) as Hno.
    { intros [Hempty|(_ & _ & HL)].
      - destruct Hf as [Hf|Hf]; rewrite Hempty, lookup_empty in Hf; done.
      - destruct Hf as [Hf|Hf]; destruct (HL _ Hf) as (x & d & Hx & _);
          by apply elem_of_nil in Hx. }
    split; [by rewrite match_filters_true|].
    intros Hok. by apply match_filters_false.
  - intros Hf p. unfold match_filters. simpl.
    by rewrite !(text_differs_absent _ "platform") by done.
  - intros Hf s. unfold match_filters. simpl.
    by rewrite !(text_differs_absent _ "severity") by done.
  - intros Hf ds. unfold match_filters. simpl. by rewrite Hf.
Qed.

End WebhooksFacts.

(** ** The dedup gate *)

Module StoreFacts.
Import Store.

Lemma stored_nil_find (fp : string) (coll : collection) :
  stored fp coll = [] ↔ list_find (has_fingerprint fp) coll = None.
Proof.
  rewrite list_find_None. unfold stored. induction coll as [|d coll IH].
  - split; [constructor|done].
  - rewrite filter_cons. destruct (decide (has_fingerprint fp d)) as [Hd|Hd].
    + split; [done|]. intros H. by apply Forall_cons_1 in H as [? _].
    + rewrite IH. split.
      * by constructor.
      * by intros [_ ?]%Forall_cons_1.
Qed.

(** A fingerprint that is not stored is inserted, under a new [_id]. *)
Lemma insert_fresh (coll : collection) (ev : Event) :
  stored (fingerprint ev) coll = [] →
  insert_if_absent coll ev =
  (coll ++ [{| doc_id := fresh_id coll; body := ev |}], Some (fresh_id coll)).
Proof.
  intros H%stored_nil_find. unfold insert_if_absent, update_one_set_on_insert.
  by rewrite H.
Qed.

(** A fingerprint that is stored leaves the collection as it is. *)
Lemma insert_existing (coll : collection) (ev : Event) :
  stored (fingerprint ev) coll ≠ [] → insert_if_absent coll ev = (coll, None).
Proof.
  intros H. unfold insert_if_absent, update_one_set_on_insert.
  destruct (list_find _ coll) eqn:Hf; [done|].
  by apply stored_nil_find in Hf.
Qed.

Lemma stored_app (fp : string) (c1 c2 : collection) :
  stored fp (c1 ++ c2) = stored fp c1 ++ stored fp c2.
Proof. apply filter_app. Qed.

(** The write of a sink changes the status of a document and nothing else. *)
Lemma payload_set_status (st : Status) (e : Event) :
  payload (set_status st e) = payload e.
Proof. reflexivity. Qed.

Lemma update_one_status_payload (fp : string) (f : Status → Status)
    (coll : collection) :
  (payload ∘ body) <$> update_one_status fp f coll = (payload ∘ body) <$> coll.
Proof.
  induction coll as [|d coll IH]; [done|]. simpl.
  destruct (decide (has_fingerprint fp d)); simpl; [done|]. by f_equal.
Qed.

(** The write of a sink reaches the one document with the fingerprint. *)
Lemma update_one_status_appended (fp : string) (f : Status → Status)
    (coll : collection) (d0 : Doc) :
  stored fp coll = [] → has_fingerprint fp d0 →
  stored fp (update_one_status fp f (coll ++ [d0])) =
  [{| doc_id := doc_id d0;
      body := set_status (f (status (body d0))) (body d0) |}].
Proof.
  intros Hnew Hd0. induction coll as [|x coll IH].
  - simpl. rewrite decide_True by done. unfold stored.
    rewrite filter_cons. by rewrite decide_True by done.
  - unfold stored in Hnew. rewrite filter_cons in Hnew.
    destruct (decide (has_fingerprint fp x)) as [|Hx]; [done|].
    simpl. rewrite decide_False by done.
    unfold stored. rewrite filter_cons, decide_False by done. by apply IH.
Qed.

(** C2. An event whose fingerprint is not yet stored is inserted and reported
    new; a second insert of an event with the same fingerprint reports
    nothing new and leaves the collection as it was, so that exactly one
    document carries the fingerprint and exactly one of the two inserts is
    reported new. The same holds when a sink has written the status of the
    document between the two inserts: the second insert changes nothing and
    the detection payload of the stored document is that of the first
    event. *)
Theorem dedup_idempotent (coll : collection) (ev ev' : Event) :
  fingerprint ev' = fingerprint ev →
  stored (fingerprint ev) coll = [] →
  let r1 := insert_if_absent coll ev in
  let r2 := insert_if_absent r1.1 ev' in
  (∃ id, r1.2 = Some id ∧
         stored (fingerprint ev) r2.1 = [{| doc_id := id; body := ev |}]) ∧
  r2.2 = None ∧ r2.1 = r1.1 ∧
  count_new [r1.2; r2.2] = 1 ∧
  ∀ f : Status → Status,
    let c := update_one_status (fingerprint ev) f r1.1 in
    insert_if_absent c ev' = (c, None) ∧
    ∃ d, stored (fingerprint ev) c = [d] ∧ payload (body d) = payload ev.
Proof.
  intros Hfp Hnew r1 r2.
  assert (r1 = (coll ++ [{| doc_id := fresh_id coll; body := ev |}],
                Some (fresh_id coll))) as Hr1 by by apply insert_fresh.
  assert (stored (fingerprint ev) r1.1 = [{| doc_id := fresh_id coll; body := ev |}])
    as Hst.
  { rewrite Hr1. simpl. rewrite stored_app, Hnew. simpl. unfold stored.
    rewrite filter_cons. by rewrite decide_True by done. }
  assert (r2 = (r1.1, None)) as Hr2.
  { unfold r2. apply insert_existing. rewrite Hfp, Hst. done. }
  split; [|split; [|split; [|split]]].
  - exists (fresh_id coll). rewrite Hr2. simpl. split; [by rewrite Hr1|done].
  - by rewrite Hr2.
  - by rewrite Hr2.
  - rewrite Hr2, Hr1. reflexivity.
  - intros f c.
    assert (∃ d, stored (fingerprint ev) c = [d] ∧ payload (body d) = payload ev)
      as (d & Hd & Hp).
    { unfold c. rewrite Hr1. simpl. eexists. split.
      - by apply update_one_status_appended.
      - reflexivity. }
    split; [|by exists d].
    apply insert_existing. rewrite Hfp, Hd. done.
Qed.

(** [dedup_idempotent] on the empty collection, for two observations of the
    same leak five minutes apart. *)
Lemma dedup_idempotent_witness :
  let ev := Normalize.scenario_event in
  let later :=
    {| year := 2024; month := 1; day := 1; hour := 0; minute := 5;
       second := 0; microsecond := 0 |} in
  let ev' :=
    @Normalize.make_event Normalize.plain_runtime later "slack"
      Normalize.scenario_container Normalize.scenario_text
      Normalize.scenario_detections Normalize.scenario_meta in
  (insert_if_absent (insert_if_absent [] ev).1 ev').2 = None ∧
  (insert_if_absent (insert_if_absent [] ev).1 ev').1 =
  (insert_if_absent [] ev).1 ∧
  stored (fingerprint ev) (insert_if_absent (insert_if_absent [] ev).1 ev').1 =
  [{| doc_id := 1; body := ev |}].
Proof.
  intros ev later ev'.
  destruct (dedup_idempotent [] ev ev') as ((id & Hid & Hstored) & H2 & H3 & _).
  - reflexivity.
  - reflexivity.
  - split; [exact H2|]. split; [exact H3|].
    vm_compute in Hid. injection Hid as <-. exact Hstored.
Defined.

End StoreFacts.

(** ** Fan-out *)

Module FanOutFacts.
Import Store FanOut.

(** An adapter of a block is invoked exactly when every call before it in
    the block has returned. *)
Lemma run_block_invoked (call : adapter → result unit) (block : list adapter)
    (a : adapter) :
  NoDup block →
  a ∈ (run_block call block).1 ↔
  ∃ pre post, block = pre ++ a :: post ∧ ∀ b, b ∈ pre → ∃ u, call b = Ok u.
Proof.
  induction block as [|x block IH]; intros Hnd.
  - simpl. split; [by intros ?%elem_of_nil|]. intros (pre & post & H & _).
    by destruct pre.
  - apply NoDup_cons in Hnd as [Hx Hnd]. simpl.
    destruct (call x) as [u|e] eqn:Hcall.
    + destruct (run_block call block) as [inv r] eqn:Hrun. simpl in *.
      rewrite elem_of_cons, (IH Hnd). split.
      * intros [->|(pre & post & -> & Hpre)].
        -- exists [], block. split; [done|]. by intros b ?%elem_of_nil.
        -- exists (x :: pre), post. split; [done|].
           intros b [->|Hb]%elem_of_cons; eauto.
      * intros (pre & post & Hb & Hpre). destruct pre as [|y pre].
        -- left. simpl in Hb. congruence.
        -- right. simpl in Hb. injection Hb as <- ->. exists pre, post.
           split; [done|]. intros b Hb. apply Hpre. by right.
    + simpl. rewrite list_elem_of_singleton. split.
      * intros ->. exists [], block. split; [done|]. by intros b ?%elem_of_nil.
      * intros (pre & post & Hb & Hpre). destruct pre as [|y pre].
        -- simpl in Hb. congruence.
        -- simpl in Hb. injection Hb as <- ->.
           destruct (Hpre x) as [u Hu]; [by left|]. congruence.
Qed.

Lemma run_block_all_ok (call : adapter → result unit) (block : list adapter) :
  (∀ a, a ∈ block → ∃ u, call a = Ok u) → run_block call block = (block, None).
Proof.
  induction block as [|x block IH]; intros H; [done|]. simpl.
  destruct (H x) as [u ->]; [by left|].
  rewrite IH; [done|]. intros a Ha. apply H. by right.
Qed.

(** The exception of an invoked adapter is the one that ends its block. *)
Lemma run_block_raised (call : adapter → result unit) (block : list adapter)
    (a : adapter) (e : exn) :
  a ∈ (run_block call block).1 → call a = Raise e →
  (run_block call block).2 = Some e.
Proof.
  induction block as [|x block IH]; simpl; [by intros ?%elem_of_nil|].
  destruct (call x) as [u|e'] eqn:Hcall.
  - destruct (run_block call block) as [inv r]. simpl in *.
    intros [->|Ha]%elem_of_cons He; [congruence|by apply IH].
  - simpl. intros ->%list_elem_of_singleton He. congruence.
Qed.

Lemma printed_fan_out (call : adapter → result unit) :
  printed (fan_out call) =
  option_list (run_block call ticket_block).2 ++
  option_list (run_block call broadcast_block).2.
Proof.
  unfold fan_out. destruct (run_block call ticket_block).
  by destruct (run_block call broadcast_block).
Qed.

Lemma invoked_fan_out (call : adapter → result unit) :
  invoked (fan_out call) =
  (run_block call ticket_block).1 ++ (run_block call broadcast_block).1.
Proof.
  unfold fan_out. destruct (run_block call ticket_block).
  by destruct (run_block call broadcast_block).
Qed.

Lemma ticket_block_NoDup : NoDup ticket_block.
Proof. unfold ticket_block. compute_done. Qed.

Lemma broadcast_not_ticket : WebhookBroadcast ∉ ticket_block.
Proof. unfold ticket_block. compute_done. Qed.

(** C3, as the code has it. The five ticket and alert adapters are called in
    sequence inside one guarded block: each of them is invoked exactly when
    every adapter before it in the block has returned, so an exception of
    one skips those behind it. The broadcast to the registered webhooks has
    a guarded block of its own and is invoked whatever the five did. No
    exception leaves the fan-out: the exception of an invoked adapter is
    caught and printed. When none of the five raises, all six adapters are
    invoked, in order. *)
Theorem fan_out_isolation (call : adapter → result unit) :
  WebhookBroadcast ∈ invoked (fan_out call) ∧
  (∀ a, a ∈ ticket_block →
     a ∈ invoked (fan_out call) ↔
     ∃ pre post, ticket_block = pre ++ a :: post ∧
                 ∀ b, b ∈ pre → ∃ u, call b = Ok u) ∧
  (∀ a e, a ∈ invoked (fan_out call) → call a = Raise e →
     e ∈ printed (fan_out call)) ∧
  ((∀ a, a ∈ ticket_block → ∃ u, call a = Ok u) →
   invoked (fan_out call) = ticket_block ++ [WebhookBroadcast]).
Proof.
  rewrite invoked_fan_out, printed_fan_out.
  assert ((run_block call broadcast_block).1 = [WebhookBroadcast]) as Hb.
  { simpl. by destruct (call WebhookBroadcast). }
  split; [|split; [|split]].
  - rewrite Hb. apply elem_of_app. right. by constructor.
  - rewrite Hb. intros a Ha. rewrite elem_of_app, list_elem_of_singleton.
    rewrite (run_block_invoked _ _ _ ticket_block_NoDup). split; [|by left].
    intros [H| ->]; [done|]. exfalso. revert Ha. apply broadcast_not_ticket.
  - intros a e [Ha|Ha]%elem_of_app He; apply elem_of_app.
    + left. rewrite (run_block_raised _ _ a e Ha He). by constructor.
    + right. rewrite (run_block_raised _ _ a e Ha He). by constructor.
  - intros H. rewrite Hb. by rewrite run_block_all_ok.
Qed.

(** C3 as stated fails: when the Jira adapter raises, the GLPI adapter is not
    invoked. *)
Lemma fan_out_not_independent :
  ¬ (∀ (call : adapter → result unit) (a b : adapter) (e : exn),
       call a = Raise e → b ≠ a → b ∈ invoked (fan_out call)).
Proof.
  intros H.
  pose (call := λ a : adapter,
          if decide (a = JiraTicket) then Raise RequestException else Ok ()).
  specialize (H call JiraTicket GlpiTicket RequestException eq_refl).
  assert (invoked (fan_out call) = [JiraTicket; WebhookBroadcast]) as Heq
    by reflexivity.
  rewrite Heq in H. specialize (H ltac:(done)).
  apply elem_of_cons in H as [H|H]; [done|].
  apply list_elem_of_singleton in H. done.
Qed.

End FanOutFacts.

(** ** Pattern loading *)

Module PatternsFacts.
Import Patterns.

Section loaders.
Context {Regex : Type} (re_compile : list re_flag → string → result Regex).

(** The comprehension raises exactly when some expression does not compile. *)
Lemma compile_patterns_raises (items : list (string * string)) :
  (∃ k v e, (k, v) ∈ items ∧ re_compile [MULTILINE] v = Raise e) ↔
  ∃ e, compile_patterns re_compile items = Raise e.
Proof.
  induction items as [|[k v] items IH]; simpl.
  - split; [by intros (? & ? & ? & ?%elem_of_nil & _)|by intros [? ?]].
  - destruct (re_compile [MULTILINE] v) as [rx|e] eqn:Hc; simpl.
    + destruct (compile_patterns re_compile items) as [out|e'] eqn:Hrest; simpl.
      * split; [|by intros [? ?]].
        intros (k' & v' & e & [Heq|Hin]%elem_of_cons & He).
        -- injection Heq as -> ->. congruence.
        -- apply proj1 in IH. destruct IH as [? ?]; [|done].
           exists k', v', e. by split.
      * split; [eauto|]. intros _.
        apply proj2 in IH. destruct IH as (k' & v' & e & Hin & He); [eauto|].
        exists k', v', e. split; [by right|done].
    + split; [eauto|]. intros _. exists k, v, e. split; [by left|done].
Qed.

Lemma compile_patterns_ok (items : list (string * string)) :
  (∀ k v, (k, v) ∈ items → ∃ rx, re_compile [MULTILINE] v = Ok rx) →
  compile_patterns re_compile items =
  Ok (valid_entries re_compile [MULTILINE] items).
Proof.
  induction items as [|[k v] items IH]; intros H; [done|].
  destruct (H k v) as [rx Hrx]; [by left|].
  unfold valid_entries in *. cbn. rewrite Hrx. cbn.
  by rewrite IH by (intros k' v' Hin; apply (H k' v'); by right).
Qed.

(** The Teams loader leaves out the entries that raise [re.error] and keeps
    the others, in order. *)
Lemma load_patterns_skips (items : list (string * string)) :
  (∀ k v e, (k, v) ∈ items →
            re_compile [IGNORECASE; MULTILINE] v = Raise e → e = re_error) →
  ∃ bad, _load_patterns re_compile items =
         Ok (valid_entries re_compile [IGNORECASE; MULTILINE] items, bad).
Proof.
  induction items as [|[k v] items IH]; intros H; [by exists []|]. simpl.
  destruct IH as [bad Hbad]; [intros k' v' e Hin; apply (H k' v'); by right|].
  unfold valid_entries in *. cbn.
  destruct (re_compile [IGNORECASE; MULTILINE] v) as [rx|e] eqn:Hc.
  - rewrite Hbad. cbn. by exists bad.
  - assert (e = re_error) as -> by (apply (H k v); [by left|done]).
    rewrite Hbad. cbn. by exists (k :: bad).
Qed.

End loaders.

(** C9 on the code. The pattern table of the Slack connector (and of the
    Jira, Confluence and Trello connectors) is built by a comprehension
    without a handler: it raises as soon as one expression does not compile,
    and no pattern is then compiled. The loader of the Teams connector does
    what the specification asks: it leaves out the entries that raise
    [re.error] and returns the others. For the table with the entries Broken, an
    unterminated group, and Password, the first raises and the second
    returns the Password pattern alone. *)
Theorem invalid_pattern_is_fatal {Regex : Type}
    (re_compile : list re_flag → string → result Regex)
    (items : list (string * string)) :
  ((∃ k v e, (k, v) ∈ items ∧ re_compile [MULTILINE] v = Raise e) ↔
   ∃ e, compile_patterns re_compile items = Raise e) ∧
  ((∀ k v e, (k, v) ∈ items →
             re_compile [IGNORECASE; MULTILINE] v = Raise e → e = re_error) →
   ∃ bad, _load_patterns re_compile items =
          Ok (valid_entries re_compile [IGNORECASE; MULTILINE] items, bad)) ∧
  compile_patterns rejects_open_group
    [("Broken", "("); ("Password", "password")] = Raise re_error ∧
  _load_patterns rejects_open_group
    [("Broken", "("); ("Password", "password")] =
  Ok ([("Password", "password")], ["Broken"]).
Proof.
  split; [apply compile_patterns_raises|].
  split; [apply load_patterns_skips|].
  split; reflexivity.
Qed.

End PatternsFacts.

(** ** The export cursor walker *)

Module ExporterJobFacts.
Import PyStr ExporterJob.

Section walker.
Context {W ecs : Type}.
Context (http_get : W → option string → W * result (response ecs)).
Context (_make_client : string → result (client W ecs)).

Lemma fetch_page_cursors (cur : option string) (st : state W) :
  cursors (_fetch_page http_get cur st).1 = cursors st.
Proof.
  unfold _fetch_page. destruct (http_get _ _) as [w [resp|e]]; [|done].
  by case_bool_decide.
Qed.

Lemma get_set_cursor (mode c : string) (st : state W) :
  _get_cursor mode (_set_cursor mode c st) = Some c.
Proof. unfold _get_cursor, _set_cursor. simpl. apply lookup_insert_eq. Qed.

(** One turn of the loop: it ends the run without a write to the cursor
    collection, or it sends the page, writes the token of the page and goes
    on from there. *)
Lemma export_loop_cases (fuel : nat) (mode : string) (send : client W ecs)
    (st : state W) (cur : option string) (totals : Z * Z) (pages : nat)
    (st' : state W) (acts : list (action ecs)) (out : outcome) :
  export_loop http_get (S fuel) mode send st cur totals pages = (st', acts, out) →
  (∃ r, acts = [Fetch (cursor_param cur) r] ∧ cursors st' = cursors st ∧
        ((∃ e, r = Raise e ∧ out = Raised e) ∨
         (∃ data s, r = Ok data ∧ events data = [] ∧ out = Returned s))) ∨
  (∃ data r, acts = [Fetch (cursor_param cur) (Ok data); Send (events data) r] ∧
             cursors st' = cursors st ∧
             ((∃ e, r = Raise e ∧ out = Raised e) ∨
              (∃ res s, r = Ok res ∧ cursor_param (next_cursor data) = None ∧
                        out = Returned s))) ∨
  (∃ data res c st3 acts' totals' pages',
     acts = Fetch (cursor_param cur) (Ok data) :: Send (events data) (Ok res)
              :: SetCursor (cursor_key mode) c :: acts' ∧
     cursor_param (next_cursor data) = Some c ∧
     cursors st3 = <[cursor_key mode := c]> (cursors st) ∧
     export_loop http_get fuel mode send st3 (Some c) totals' pages' =
       (st', acts', out)).
Proof.
  cbn [export_loop]. pose proof (fetch_page_cursors cur st) as Hc.
  destruct (_fetch_page http_get cur st) as [st1 [data|e]]; simpl in Hc.
  - destruct (events data) as [|ev evs] eqn:Hev.
    + intros [= <- <- <-]. left. eexists. split; [done|]. split; [done|].
      right. eauto.
    + destruct (send (world st1) (ev :: evs)) as [w2 [res|e]].
      * destruct (cursor_param (next_cursor data)) as [c|] eqn:Hn.
        -- destruct (export_loop http_get fuel mode send _ (Some c) _ _)
             as [[st'' acts''] out''] eqn:Hloop.
           intros [= <- <- <-]. right. right.
           eexists data, res, c, _, acts'', _, _.
           split; [by rewrite Hev|]. split; [done|]. split; [|exact Hloop].
           simpl. by rewrite Hc.
        -- intros [= <- <- <-]. right. left. exists data, (Ok res).
           rewrite Hev. split; [done|]. split; [done|]. right. eauto.
      * intros [= <- <- <-]. right. left. exists data, (Raise e).
        rewrite Hev. split; [done|]. split; [done|]. left. eauto.
  - intros [= <- <- <-]. left. eexists. split; [done|]. split; [done|].
    left. eauto.
Qed.

(** The cursor collection after the run is the one before it with the
    logged writes applied. *)
Lemma export_loop_replay (fuel : nat) (mode : string) (send : client W ecs)
    (st : state W) (cur : option string) (totals : Z * Z) (pages : nat)
    (st' : state W) (acts : list (action ecs)) (out : outcome) :
  export_loop http_get fuel mode send st cur totals pages = (st', acts, out) →
  cursors st' = replay acts (cursors st).
Proof.
  revert st cur totals pages st' acts out.
  induction fuel as [|fuel IH]; intros st cur totals pages st' acts out H.
  - by injection H as <- <- <-.
  - apply export_loop_cases in H
      as [(r & -> & Hc & _)|[(data & r & -> & Hc & _)|
          (data & res & c & st3 & acts' & t' & p' & -> & _ & Hc & Hloop)]];
      [done..|].
    apply IH in Hloop. rewrite Hloop. simpl. by rewrite Hc.
Qed.

(** A write to the cursor collection follows a send that returned, and
    writes the token of the page just sent. *)
Lemma export_loop_write_after_send (fuel : nat) (mode : string)
    (send : client W ecs) (st : state W) (cur : option string)
    (totals : Z * Z) (pages : nat) (st' : state W)
    (acts : list (action ecs)) (out : outcome) :
  export_loop http_get fuel mode send st cur totals pages = (st', acts, out) →
  ∀ pre k v post, acts = pre ++ SetCursor k v :: post →
    ∃ pre' c data res,
      pre = pre' ++ [Fetch c (Ok data); Send (events data) (Ok res)] ∧
      cursor_param (next_cursor data) = Some v ∧ k = cursor_key mode.
Proof.
  revert st cur totals pages st' acts out.
  induction fuel as [|fuel IH]; intros st cur totals pages st' acts out H
    pre k v post Hacts.
  - injection H as <- <- <-. by destruct pre.
  - apply export_loop_cases in H
      as [(r & -> & _)|[(data & r & -> & _)|
          (data & res & c & st3 & acts' & t' & p' & -> & Hn & _ & Hloop)]].
    + by destruct pre as [|? [|? ?]].
    + by destruct pre as [|? [|? [|? ?]]].
    + destruct pre as [|a1 [|a2 [|a3 pre]]]; simplify_eq/=.
      * exists [], (cursor_param cur), data, res. done.
      * destruct (IH _ _ _ _ _ _ _ Hloop pre k v post eq_refl)
          as (pre' & c' & data' & res' & -> & Hn' & ->).
        eexists (_ :: _ :: _ :: pre'), c', data', res'. done.
Qed.

(** A send that returned is followed by the write of the token of its page,
    whatever counts the sink reported. *)
Lemma export_loop_send_then_write (fuel : nat) (mode : string)
    (send : client W ecs) (st : state W) (cur : option string)
    (totals : Z * Z) (pages : nat) (st' : state W)
    (acts : list (action ecs)) (out : outcome) :
  export_loop http_get fuel mode send st cur totals pages = (st', acts, out) →
  ∀ pre c data batch res post t,
    acts = pre ++ Fetch c (Ok data) :: Send batch (Ok res) :: post →
    cursor_param (next_cursor data) = Some t →
    ∃ post', post = SetCursor (cursor_key mode) t :: post'.
Proof.
  revert st cur totals pages st' acts out.
  induction fuel as [|fuel IH]; intros st cur totals pages st' acts out H
    pre c data batch res post t Hacts Ht.
  - injection H as <- <- <-. by destruct pre.
  - apply export_loop_cases in H
      as [(r & -> & _)|[(data0 & r & -> & _ & Hr)|
          (data0 & res0 & c0 & st3 & acts' & t' & p' & -> & Hn & _ & Hloop)]].
    + by destruct pre as [|? [|? ?]].
    + destruct pre as [|? [|? [|? ?]]]; simplify_eq/=.
      destruct Hr as [(e & ? & _)|(res' & s & _ & Hnone & _)]; congruence.
    + destruct pre as [|a1 [|a2 [|a3 pre]]]; simplify_eq/=.
      * eauto.
      * by eapply (IH _ _ _ _ _ _ _ Hloop pre).
Qed.

Lemma last_fetch_cons (a : action ecs) (acts : list (action ecs)) (x : option string) :
  last_fetch acts = Some x → last_fetch (a :: acts) = Some x.
Proof.
  unfold last_fetch. intros H.
  destruct a as [c r|batch r|k v]; cbn -[last]; [|done..].
  rewrite last_cons. by rewrite H.
Qed.

(** When the run ends by an exception, the cursor in the collection is the
    one the last fetch was made with. *)
Lemma export_loop_raised (fuel : nat) (mode : string) (send : client W ecs)
    (st : state W) (cur : option string) (totals : Z * Z) (pages : nat)
    (st' : state W) (acts : list (action ecs)) (e : exn) :
  cursor_param cur = cursor_param (_get_cursor mode st) →
  export_loop http_get fuel mode send st cur totals pages = (st', acts, Raised e) →
  last_fetch acts = Some (cursor_param (_get_cursor mode st')).
Proof.
  revert st cur totals pages st' acts.
  induction fuel as [|fuel IH]; intros st cur totals pages st' acts Hcur H.
  - by injection H.
  - apply export_loop_cases in H
      as [(r & -> & Hc & _)|[(data & r & -> & Hc & _)|
          (data & res & c & st3 & acts' & t' & p' & -> & Hn & Hc & Hloop)]].
    + unfold _get_cursor. rewrite Hc. unfold last_fetch. simpl. by rewrite Hcur.
    + unfold _get_cursor. rewrite Hc. unfold last_fetch. simpl. by rewrite Hcur.
    + do 3 apply last_fetch_cons. eapply IH; [|exact Hloop].
      unfold _get_cursor. by rewrite Hc, lookup_insert_eq.
Qed.

(** A run with fuel starts by fetching with the cursor of the collection. *)
Lemma export_loop_first (fuel : nat) (mode : string) (send : client W ecs)
    (st : state W) (cur : option string) (totals : Z * Z) (pages : nat) :
  ∃ r rest, (export_loop http_get (S fuel) mode send st cur totals pages).1.2 =
            Fetch (cursor_param cur) r :: rest.
Proof.
  destruct (export_loop http_get (S fuel) mode send st cur totals pages)
    as [[st' acts] out] eqn:H.
  apply export_loop_cases in H
    as [(r & -> & _)|[(data & r & -> & _)|
        (data & res & c & st3 & acts' & t' & p' & -> & _)]]; simpl; eauto.
Qed.

(** A send in the log that returned is a call of the client on the batch,
    with the answer logged. *)
Lemma export_loop_sends (fuel : nat) (mode : string) (send : client W ecs)
    (st : state W) (cur : option string) (totals : Z * Z) (pages : nat)
    (st' : state W) (acts : list (action ecs)) (out : outcome) :
  export_loop http_get fuel mode send st cur totals pages = (st', acts, out) →
  ∀ batch res, Send batch (Ok res) ∈ acts →
    ∃ w w', send w batch = (w', Ok res).
Proof.
  revert st cur totals pages st' acts out.
  induction fuel as [|fuel IH]; intros st cur totals pages st' acts out.
  - intros [= <- <- <-] batch res Hin. by apply elem_of_nil in Hin.
  - cbn [export_loop].
    destruct (_fetch_page http_get cur st) as [st1 [data|e]].
    + destruct (events data) as [|ev evs] eqn:Hev.
      { intros [= <- <- <-] batch res Hin.
        apply list_elem_of_singleton in Hin. discriminate Hin. }
      destruct (send (world st1) (ev :: evs)) as [w2 [res0|e]] eqn:Hsend.
      * destruct (cursor_param (next_cursor data)) as [c|].
        -- destruct (export_loop http_get fuel mode send _ (Some c) _ _)
             as [[st'' acts''] out''] eqn:Hloop.
           intros [= <- <- <-] batch res Hin.
           apply elem_of_cons in Hin as [Hin|Hin]; [discriminate Hin|].
           apply elem_of_cons in Hin as [Hin|Hin];
             [injection Hin as -> ->; eauto|].
           apply elem_of_cons in Hin as [Hin|Hin]; [discriminate Hin|].
           by eapply IH.
        -- intros [= <- <- <-] batch res Hin.
           apply elem_of_cons in Hin as [Hin|Hin]; [discriminate Hin|].
           apply list_elem_of_singleton in Hin. injection Hin as -> ->. eauto.
      * intros [= <- <- <-] batch res Hin.
        apply elem_of_cons in Hin as [Hin|Hin]; [discriminate Hin|].
        apply list_elem_of_singleton in Hin. discriminate Hin.
    + intros [= <- <- <-] batch res Hin.
      apply list_elem_of_singleton in Hin. discriminate Hin.
Qed.

End walker.

End ExporterJobFacts.

(** ** Listing events *)

Module ListingFacts.
Import PyStr PyStrFacts Store Listing.

(** *** The order of timestamps *)

Lemma lex_compare_eq (a b : list N) : lex_compare a b = Eq ↔ a = b.
Proof.
  revert b. induction a as [|x a IH]; intros [|y b]; simpl; try done.
  destruct (N.compare_spec x y) as [->|?|?].
  - rewrite IH. split; congruence.
  - split; [done|]. intros [= -> _]. lia.
  - split; [done|]. intros [= -> _]. lia.
Qed.

Lemma lex_compare_antisym (a b : list N) :
  lex_compare b a = CompOpp (lex_compare a b).
Proof.
  revert b. induction a as [|x a IH]; intros [|y b]; simpl; try done.
  rewrite (N.compare_antisym x y). destruct (x ?= y)%N; simpl; auto.
Qed.

Lemma lex_compare_lt_trans (a b c : list N) :
  lex_compare a b = Lt → lex_compare b c = Lt → lex_compare a c = Lt.
Proof.
  revert b c. induction a as [|x a IH]; intros [|y b] [|z c]; simpl; try done.
  destruct (N.compare_spec x y) as [->|Hxy|Hxy]; [| |done].
  - destruct (z ?= y)%N eqn:Hzy; rewrite (N.compare_antisym z y), Hzy; simpl;
      try done. apply IH.
  - intros _. destruct (N.compare_spec y z) as [->|Hyz|Hyz]; [| |done].
    + intros _. by apply N.compare_lt_iff in Hxy as ->.
    + intros _. assert (x < z)%N as ->%N.compare_lt_iff by lia. done.
Qed.

Lemma dt_key_inj (a b : datetime) : dt_key a = dt_key b → a = b.
Proof. destruct a, b. unfold dt_key. simpl. by intros [= -> -> -> -> -> -> ->]. Qed.

Lemma dt_compare_eq (a b : datetime) : dt_compare a b = Eq ↔ a = b.
Proof.
  unfold dt_compare. rewrite lex_compare_eq. split; [apply dt_key_inj|by intros ->].
Qed.

Lemma dt_compare_antisym (a b : datetime) :
  dt_compare b a = CompOpp (dt_compare a b).
Proof. apply lex_compare_antisym. Qed.

Lemma dt_lt_trans (a b c : datetime) : dt_lt a b → dt_lt b c → dt_lt a c.
Proof. apply lex_compare_lt_trans. Qed.

Lemma dt_lt_irrefl (a : datetime) : ¬ dt_lt a a.
Proof. unfold dt_lt. by rewrite (proj2 (dt_compare_eq a a) eq_refl). Qed.

Lemma dt_le_iff (a b : datetime) : dt_le a b ↔ dt_lt a b ∨ a = b.
Proof.
  unfold dt_le, dt_lt. rewrite <-dt_compare_eq.
  destruct (dt_compare a b).
  - split; [by right|done].
  - split; [by left|done].
  - split; [intros H; by destruct H|intros [?|?]; done].
Qed.

Lemma dt_lt_not_le (a b : datetime) : dt_lt a b ↔ ¬ dt_le b a.
Proof.
  unfold dt_le, dt_lt. rewrite (dt_compare_antisym a b).
  destruct (dt_compare a b); simpl.
  - split; [done|]. intros H. by destruct H.
  - split; [|done]. intros _ H. by apply H.
  - split; [done|]. intros H. by destruct H.
Qed.

Lemma dt_le_refl (a : datetime) : dt_le a a.
Proof. apply dt_le_iff. by right. Qed.

Lemma dt_le_trans (a b c : datetime) : dt_le a b → dt_le b c → dt_le a c.
Proof.
  rewrite !dt_le_iff. intros [Hab| ->] [Hbc| ->]; eauto using dt_lt_trans.
Qed.

Lemma dt_le_antisym (a b : datetime) : dt_le a b → dt_le b a → a = b.
Proof.
  rewrite (dt_le_iff a b). intros [Hab| ->] Hba; [|done].
  by apply dt_lt_not_le in Hab.
Qed.

Lemma dt_le_total (a b : datetime) : dt_le a b ∨ dt_le b a.
Proof.
  destruct (decide (dt_le a b)) as [|H]; [by left|]. right.
  apply dt_lt_not_le in H. apply dt_le_iff. by left.
Qed.

Lemma dt_lt_le_trans (a b c : datetime) : dt_lt a b → dt_le b c → dt_lt a c.
Proof. rewrite dt_le_iff. intros Hab [Hbc| <-]; eauto using dt_lt_trans. Qed.

Global Instance newer_first_trans : Transitive newer_first.
Proof. intros a b c Hab Hbc. unfold newer_first in *. by eapply dt_le_trans. Qed.

Global Instance newer_first_total : Total newer_first.
Proof. intros a b. unfold newer_first. apply dt_le_total. Qed.

(** *** Printing and reading timestamps *)

Lemma digit_val_digit (n : N) : digit_val (digit n) = Some (n mod 10)%N.
Proof.
  unfold digit, digit_val.
  assert (n mod 10 < 10)%N as Hlt by (apply N.mod_lt; lia).
  rewrite N_ascii_embedding by lia. cbv zeta.
  generalize dependent (n mod 10)%N. intros m Hlt.
  assert ((48 <=? 48 + m)%N = true) as -> by (apply N.leb_le; lia).
  assert ((48 + m <=? 57)%N = true) as -> by (apply N.leb_le; lia).
  simpl. f_equal. lia.
Qed.

Lemma read_digits_pad (k : nat) (n acc : N) (rest : string) :
  read_digits k acc (pad k n +:+ rest) =
  Some ((acc * 10 ^ N.of_nat k + n mod 10 ^ N.of_nat k)%N, rest).
Proof.
  revert acc. induction k as [|k IH]; intros acc.
  - cbn [read_digits pad]. rewrite app_nil_l. simpl N.of_nat.
    rewrite N.pow_0_r, N.mod_1_r. do 2 f_equal. lia.
  - cbn [read_digits pad]. rewrite app_cons, digit_val_digit.
    cbn [mbind option_bind]. rewrite IH. do 2 f_equal.
    rewrite Nat2N.inj_succ, N.pow_succ_r'.
    rewrite (N.mul_comm 10), N.Div0.mod_mul_r. lia.
Qed.

Lemma has_char_app (c : ascii) (a b : string) :
  has_char c (a +:+ b) = has_char c a || has_char c b.
Proof.
  induction a as [|x a IH]; [done|]. rewrite app_cons. simpl.
  by rewrite IH, orb_assoc.
Qed.

Lemma digit_neq (c : ascii) (n : N) :
  (N_of_ascii c < 48 ∨ 57 < N_of_ascii c)%N → digit n ≠ c.
Proof.
  intros Hc <-. unfold digit in Hc.
  assert (n mod 10 < 10)%N as Hlt by (apply N.mod_lt; lia).
  rewrite N_ascii_embedding in Hc by lia.
  generalize dependent (n mod 10)%N. intros m Hc Hlt. lia.
Qed.

Lemma has_char_pad (c : ascii) (k : nat) (n : N) :
  (N_of_ascii c < 48 ∨ 57 < N_of_ascii c)%N → has_char c (pad k n) = false.
Proof.
  intros Hc. induction k as [|k IH]; [done|]. cbn [pad has_char].
  rewrite IH, orb_false_r. apply bool_decide_eq_false. intros ->.
  by eapply digit_neq.
Qed.

(** The text in front of the offset has neither a plus sign nor a Z. *)
Lemma has_char_iso_body (c : ascii) (d : datetime) :
  c = "+"%char ∨ c = "Z"%char → has_char c (iso_body d) = false.
Proof.
  intros Hc.
  assert ((N_of_ascii c < 48 ∨ 57 < N_of_ascii c)%N) as Hd
    by (destruct Hc as [-> | ->]; simpl; lia).
  unfold iso_body. destruct (microsecond d =? 0)%N.
  - rewrite !has_char_app, !has_char_pad by done.
    destruct Hc as [-> | ->]; reflexivity.
  - rewrite !has_char_app, !has_char_pad by done.
    destruct Hc as [-> | ->]; reflexivity.
Qed.

(** Text without the first character of [old] is copied as it is. *)
Lemma replace_go_copy (h : ascii) (old new body rest : string) :
  has_char h body = false →
  replace_go (String h old) new 0 (body +:+ rest) =
  body +:+ replace_go (String h old) new 0 rest.
Proof.
  induction body as [|c body IH]; intros Hb; [done|].
  simpl in Hb. apply orb_false_iff in Hb as [Hc Hb].
  apply bool_decide_eq_false in Hc.
  rewrite !app_cons, replace_go_miss, IH; [done|done|].
  simpl. by destruct (ascii_dec h c).
Qed.

Lemma iso_with_Z (d : datetime) : _iso d = iso_body d +:+ "Z".
Proof.
  unfold _iso, isoformat, replace.
  by rewrite replace_go_copy by (apply has_char_iso_body; by left).
Qed.

(** The cursor text, with its Z put back to the offset, is the text
    [isoformat] printed. *)
Lemma iso_replace_back (d : datetime) :
  replace (_iso d) "Z" "+00:00" = isoformat d.
Proof.
  rewrite iso_with_Z. unfold isoformat, replace.
  by rewrite replace_go_copy by (apply has_char_iso_body; by right).
Qed.

Lemma expect_cons (c : ascii) (s : string) : expect c (String c s) = Some s.
Proof. simpl. by rewrite bool_decide_eq_true_2. Qed.

Lemma read_fraction_offset : read_fraction "+00:00" = Some (0%N, "+00:00").
Proof. reflexivity. Qed.

Lemma read_fraction_pad (n : N) (rest : string) :
  (n < 1000000)%N →
  read_fraction ("." +:+ pad 6 n +:+ rest) = Some (n, rest).
Proof.
  intros Hn. rewrite app_cons, app_nil_l. cbn [read_fraction].
  rewrite read_digits_pad. do 2 f_equal. rewrite N.mod_small; [lia|].
  simpl N.of_nat. lia.
Qed.

Lemma read_two (n : N) (rest : string) :
  (n < 100)%N → read_digits 2 0 (pad 2 n +:+ rest) = Some (n, rest).
Proof.
  intros Hn. rewrite read_digits_pad. do 2 f_equal.
  rewrite N.mod_small; [lia|]. simpl N.of_nat. lia.
Qed.

Lemma read_four (n : N) (rest : string) :
  (n < 10000)%N → read_digits 4 0 (pad 4 n +:+ rest) = Some (n, rest).
Proof.
  intros Hn. rewrite read_digits_pad. do 2 f_equal.
  rewrite N.mod_small; [lia|]. simpl N.of_nat. lia.
Qed.

(** The reader reads back what [isoformat] prints. *)
Lemma read_iso_isoformat (d : datetime) :
  dt_valid d → read_iso (isoformat d) = Some d.
Proof.
  destruct d as [y mo dd h mi sec us]. unfold dt_valid. simpl.
  intros (Hy & Hmo & Hd & Hh & Hmi & Hs & Hus).
  unfold read_iso, isoformat, iso_body.
  cbn [year month day hour minute second microsecond].
  rewrite !app_assoc, !app_cons, !app_nil_l.
  rewrite read_four by lia. cbn [mbind option_bind]. rewrite expect_cons.
  cbn [mbind option_bind].
  rewrite read_two by lia. cbn [mbind option_bind]. rewrite expect_cons.
  cbn [mbind option_bind].
  rewrite read_two by lia. cbn [mbind option_bind]. rewrite expect_cons.
  cbn [mbind option_bind].
  rewrite read_two by lia. cbn [mbind option_bind]. rewrite expect_cons.
  cbn [mbind option_bind].
  rewrite read_two by lia. cbn [mbind option_bind]. rewrite expect_cons.
  cbn [mbind option_bind].
  rewrite read_two by lia. cbn [mbind option_bind].
  destruct (N.eqb_spec us 0) as [->|Hne].
  - rewrite app_nil_l, read_fraction_offset. cbn [mbind option_bind].
    by rewrite bool_decide_eq_true_2.
  - rewrite (app_assoc "." (pad 6 us)), read_fraction_pad by lia.
    cbn [mbind option_bind]. by rewrite bool_decide_eq_true_2.
Qed.

Lemma iso_nonempty (d : datetime) : _iso d ≠ "".
Proof. rewrite iso_with_Z. unfold iso_body. by rewrite !app_cons. Qed.

(** The reference backend: the reader above, a merge sort and the anchored
    comparison without regard to case. *)
Global Instance text_newer_first_total : Total text_newer_first.
Proof.
  intros a b. unfold text_newer_first.
  destruct (String.le_total (TeamsDoc.found_at a) (TeamsDoc.found_at b));
    [by right|by left].
Qed.

Definition reference_backend : Backend :=
  {| fromisoformat := read_iso;
     fromisoformat_isoformat := read_iso_isoformat;
     sort_desc := merge_sort newer_first;
     sort_desc_perm := merge_sort_Permutation newer_first;
     sort_desc_sorted := Sorted_merge_sort newer_first;
     sort_text_desc := merge_sort text_newer_first;
     sort_text_desc_perm := merge_sort_Permutation text_newer_first;
     sort_text_desc_sorted := Sorted_merge_sort text_newer_first;
     regex_i := anchored_equal_i |}.

(** *** Lists *)

Lemma filter_none {A} (P : A → Prop) `{∀ x, Decision (P x)} (l : list A) :
  (∀ x, x ∈ l → ¬ P x) → filter P l = [].
Proof.
  induction l as [|x l IH]; intros Hl; [done|].
  rewrite filter_cons_False by (apply Hl; by left).
  apply IH. intros y Hy. apply Hl. by right.
Qed.

Lemma filter_all {A} (P : A → Prop) `{∀ x, Decision (P x)} (l : list A) :
  (∀ x, x ∈ l → P x) → filter P l = l.
Proof.
  induction l as [|x l IH]; intros Hl; [done|].
  rewrite filter_cons_True by (apply Hl; by left).
  f_equal. apply IH. intros y Hy. apply Hl. by right.
Qed.

Lemma NoDup_fmap_inj {A C} (f : A → C) (l : list A) (x y : A) :
  NoDup (f <$> l) → x ∈ l → y ∈ l → f x = f y → x = y.
Proof.
  induction l as [|a l IH]; intros Hnd Hx Hy Hf; [by apply elem_of_nil in Hx|].
  rewrite fmap_cons in Hnd. apply NoDup_cons in Hnd as [Ha Hnd].
  apply elem_of_cons in Hx as [->|Hx]; apply elem_of_cons in Hy as [->|Hy].
  - done.
  - destruct Ha. rewrite Hf. apply list_elem_of_fmap. eauto.
  - destruct Ha. rewrite <-Hf. apply list_elem_of_fmap. eauto.
  - by apply IH.
Qed.

(** *** The listing *)

Section listing.
Context `{B : Backend}.

Lemma find_all_strongly (m : mongo_query) (coll : list Doc) :
  StronglySorted newer_first (find_all m coll).
Proof. apply Sorted_StronglySorted; [apply _|apply sort_desc_sorted]. Qed.

Lemma find_all_perm (m : mongo_query) (coll : list Doc) :
  find_all m coll ≡ₚ filter (λ d, satisfies m d = true) coll.
Proof. apply sort_desc_perm. Qed.

Lemma elem_of_find_all (m : mongo_query) (coll : list Doc) (d : Doc) :
  d ∈ find_all m coll ↔ satisfies m d = true ∧ d ∈ coll.
Proof. by rewrite find_all_perm, list_elem_of_filter. Qed.

Lemma parse_time_iso (t : datetime) :
  dt_valid t → parse_time (Some (_iso t)) = Some t.
Proof.
  intros Hv. unfold parse_time, truthy.
  rewrite bool_decide_eq_false_2 by apply iso_nonempty.
  cbn [mbind option_bind]. rewrite iso_replace_back. by apply fromisoformat_isoformat.
Qed.

(** The condition on [found_at] of the query that is built. *)
Lemma found_at_check (q : EventQuery) (t : datetime) :
  holds (m_found_at (_build_mongo_query q)) (λ c, time_ok c t) =
  time_ok {| t_gte := parse_time (q_since q); t_lte := parse_time (q_until q);
             t_lt := cursor_bound q |} t.
Proof.
  unfold _build_mongo_query, cursor_bound. cbn [m_found_at t_gte t_lte].
  assert (truthy (q_cursor q) = None → parse_time (q_cursor q) = None) as Hnone.
  { unfold parse_time. by intros ->. }
  destruct (parse_time (q_since q)) as [g|], (parse_time (q_until q)) as [l|],
    (truthy (q_cursor q)) as [c|], (parse_time (q_cursor q)) as [dt|];
    try (by specialize (Hnone eq_refl)); try done;
    case_bool_decide as Hn; try done; by destruct Hn.
Qed.

Lemma cursor_bound_iso (q : EventQuery) (t : datetime) :
  dt_valid t → cursor_bound (with_cursor (Some (_iso t)) q) = Some t.
Proof. intros Hv. unfold cursor_bound, with_cursor. simpl. by apply parse_time_iso. Qed.

(** With the cursor of a returned document, the query asks for what it asked
    before and, in addition, for a strictly older timestamp. *)
Lemma satisfies_with_cursor (q : EventQuery) (d0 d : Doc) :
  dt_valid (when d0) → satisfies (_build_mongo_query q) d0 = true →
  satisfies (_build_mongo_query (with_cursor (Some (_iso (when d0))) q)) d = true ↔
  satisfies (_build_mongo_query q) d = true ∧ dt_lt (when d) (when d0).
Proof.
  intros Hv Hd0. unfold satisfies in *. rewrite !found_at_check in *.
  rewrite cursor_bound_iso by done.
  change (m_platform (_build_mongo_query (with_cursor _ q)))
    with (m_platform (_build_mongo_query q)).
  change (m_severity (_build_mongo_query (with_cursor _ q)))
    with (m_severity (_build_mongo_query q)).
  change (m_label (_build_mongo_query (with_cursor _ q)))
    with (m_label (_build_mongo_query q)).
  change (q_since (with_cursor _ q)) with (q_since q).
  change (q_until (with_cursor _ q)) with (q_until q).
  unfold time_ok in *. cbn [t_gte t_lte t_lt holds] in *.
  fold (when d) (when d0) in *.
  rewrite !andb_true_iff, !bool_decide_eq_true in *.
  destruct Hd0 as (_ & _ & Hb).
  split.
  - intros (Hbase & Htime & Hlt). split; [|done].
    split; [done|]. split; [done|].
    destruct (cursor_bound q) as [b|]; [|done]. cbn [holds] in *.
    apply bool_decide_eq_true. apply bool_decide_eq_true in Hb.
    by eapply dt_lt_trans.
  - intros ((Hbase & Htime & _) & Hlt). done.
Qed.

(** With pairwise distinct timestamps, the query with the cursor of the last
    document of a page finds what follows the page. *)
Lemma next_page (q : EventQuery) (coll : list Doc) (d0 : Doc) :
  last (take (q_limit q) (find_all (_build_mongo_query q) coll)) = Some d0 →
  dt_valid (when d0) → NoDup (when <$> coll) →
  find_all (_build_mongo_query (with_cursor (Some (_iso (when d0))) q)) coll =
  drop (q_limit q) (find_all (_build_mongo_query q) coll).
Proof.
  intros Hlast Hv Hnd.
  set (S := find_all (_build_mongo_query q) coll) in *.
  set (n := q_limit q) in *.
  assert (StronglySorted newer_first S) as Hsorted by apply find_all_strongly.
  assert (∀ x, x ∈ S → satisfies (_build_mongo_query q) x = true ∧ x ∈ coll)
    as HS by (intros x; apply elem_of_find_all).
  assert (NoDup S) as HndS.
  { unfold S. rewrite find_all_perm. apply NoDup_filter.
    by apply (NoDup_fmap_1 when). }
  apply last_Some in Hlast as [front Hfront].
  assert (S = (front ++ [d0]) ++ drop n S) as HSsplit
    by (by rewrite <-Hfront, take_drop).
  assert (d0 ∈ S) as Hd0S.
  { rewrite HSsplit. apply elem_of_app. left. apply elem_of_app. right.
    by constructor. }
  destruct (HS d0 Hd0S) as [Hd0sat Hd0coll].
  assert (filter (λ d, dt_lt (when d) (when d0)) S = drop n S) as Hfilter.
  { rewrite HSsplit at 1. rewrite filter_app.
    rewrite HSsplit in Hsorted, HndS.
    apply StronglySorted_app in Hsorted as (Hcross & Hfrontsorted & _).
    apply NoDup_app in HndS as (_ & Hdisj & _).
    rewrite filter_none, filter_all; [done| |].
    - intros x Hx.
      assert (newer_first d0 x) as Hle.
      { apply Hcross; [|done]. apply elem_of_app. right. by constructor. }
      unfold newer_first in Hle. apply dt_le_iff in Hle as [Hlt|Heq]; [done|].
      exfalso. apply (Hdisj d0); [apply elem_of_app; right; by constructor|].
      assert (x = d0) as ->; [|done].
      apply (NoDup_fmap_inj when coll); [done| |done|done].
      apply HS. rewrite HSsplit. apply elem_of_app. by right.
    - intros x Hx Hlt. apply dt_lt_not_le in Hlt. apply Hlt.
      apply elem_of_app in Hx as [Hx|Hx].
      + apply StronglySorted_app in Hfrontsorted as (Hc & _ & _).
        apply (Hc x d0); [done|by constructor].
      + apply list_elem_of_singleton in Hx as ->. apply dt_le_refl. }
  rewrite <-Hfilter.
  apply (StronglySorted_unique_strong newer_first).
  - intros x1 x2 Hx1 Hx2 H12 H21.
    apply (NoDup_fmap_inj when coll); [done|..].
    + by apply elem_of_find_all in Hx1 as [_ ?].
    + apply list_elem_of_filter in Hx2 as [_ Hx2]. by apply HS.
    + unfold newer_first in *. by apply dt_le_antisym.
  - apply find_all_strongly.
  - rewrite Hfilter. rewrite HSsplit in Hsorted.
    by apply StronglySorted_app in Hsorted as (_ & _ & ?).
  - rewrite find_all_perm. unfold S. rewrite find_all_perm.
    rewrite list_filter_filter.
    match goal with |- ?l1 ≡ₚ ?l2 => assert (l1 = l2) as ->; [|done] end.
    apply list_filter_iff.
    intros d. rewrite satisfies_with_cursor by done. tauto.
Qed.

Lemma find_all_NoDup (m : mongo_query) (coll : list Doc) :
  NoDup (when <$> coll) → NoDup (find_all m coll).
Proof.
  intros Hnd. rewrite find_all_perm. apply NoDup_filter.
  by apply (NoDup_fmap_1 when).
Qed.

Lemma take_strongly {A} (R : relation A) (n : nat) (l : list A) :
  StronglySorted R l → StronglySorted R (take n l).
Proof.
  intros H. rewrite <-(take_drop n l) in H.
  by apply StronglySorted_app in H as (_ & ? & _).
Qed.

(** *** The collection with the documents of the Teams connector *)

Lemma dated_Made (l : list Doc) : dated (Made <$> l) = l.
Proof.
  unfold dated. induction l as [|d l IH]; [done|].
  rewrite fmap_cons. cbn [omap list_omap]. by rewrite IH.
Qed.

Lemma undated_Made (l : list Doc) : undated (Made <$> l) = [].
Proof.
  unfold undated. induction l as [|d l IH]; [done|].
  rewrite fmap_cons. by cbn [omap list_omap].
Qed.

Lemma elem_of_dated (coll : list document) (d : Doc) :
  d ∈ dated coll ↔ Made d ∈ coll.
Proof.
  unfold dated. rewrite list_elem_of_omap. split.
  - intros ([d'|t] & Hin & Heq); [|done]. by injection Heq as ->.
  - intros Hin. by exists (Made d).
Qed.

Lemma elem_of_undated (coll : list document) (t : TeamsDoc.TeamsEvent) :
  t ∈ undated coll ↔ TeamsMade t ∈ coll.
Proof.
  unfold undated. rewrite list_elem_of_omap. split.
  - intros ([d|t'] & Hin & Heq); [done|]. by injection Heq as ->.
  - intros Hin. by exists (TeamsMade t).
Qed.

(** A query with a bound on the time that was read, with a platform or with
    a label finds no document of the Teams connector. *)
Lemma satisfies_teams_bounded (q : EventQuery) (t : TeamsDoc.TeamsEvent) :
  is_Some (parse_time (q_cursor q)) ∨ is_Some (parse_time (q_since q)) ∨
  is_Some (parse_time (q_until q)) ∨ is_Some (truthy (q_platform q)) ∨
  is_Some (truthy (q_label q)) →
  satisfies_teams (_build_mongo_query q) t = false.
Proof.
  unfold satisfies_teams, _build_mongo_query.
  cbn [m_platform m_severity m_label m_found_at t_gte t_lte].
  intros [[c Hc]|[[a Ha]|[[b Hb]|[[p Hp]|[l Hl]]]]].
  - rewrite Hc. destruct (truthy (q_cursor q)) eqn:Ht.
    + cbn. by rewrite !andb_false_r.
    + unfold parse_time in Hc. by rewrite Ht in Hc.
  - rewrite Ha.
    destruct (truthy (q_cursor q)), (parse_time (q_cursor q));
      try (cbn; by rewrite !andb_false_r).
    all: rewrite bool_decide_eq_false_2 by (by intros [? _]);
      cbn; by rewrite !andb_false_r.
  - rewrite Hb.
    destruct (truthy (q_cursor q)), (parse_time (q_cursor q));
      try (cbn; by rewrite !andb_false_r).
    all: rewrite bool_decide_eq_false_2 by (by intros [_ ?]);
      cbn; by rewrite !andb_false_r.
  - rewrite Hp. cbn [fmap option_fmap option_map holds].
    rewrite bool_decide_eq_false_2; [done|].
    intros Heq. destruct p as [|c p]; [done|]. cbn [lower] in Heq.
    injection Heq as Hc _. revert Hc.
    destruct c as [[] [] [] [] [] [] [] []]; vm_compute; discriminate.
  - rewrite Hl. cbn. by rewrite !andb_false_r.
Qed.

Lemma sort_text_desc_nil : sort_text_desc [] = [].
Proof. apply Permutation_nil_r. by rewrite sort_text_desc_perm. Qed.

(** The page when every document found carries a [datetime]. *)
Lemma page_docs_dated (q : EventQuery) (coll : list document) :
  q_limit q ≤ length (find_all (_build_mongo_query q) (dated coll)) ∨
  (∀ t, TeamsMade t ∈ coll → satisfies_teams (_build_mongo_query q) t = false) →
  page_docs q coll = Made <$> list_docs q (dated coll).
Proof.
  unfold page_docs, find_any, list_docs, find_sorted. intros [Hfull|Hnone].
  - rewrite take_app_le by (by rewrite length_fmap). by rewrite fmap_take.
  - rewrite filter_none, sort_text_desc_nil.
    + rewrite fmap_nil, List.app_nil_r. by rewrite fmap_take.
    + intros t Ht Hs. apply elem_of_undated in Ht. by rewrite Hnone in Hs.
Qed.

Lemma page_docs_subset (q : EventQuery) (coll : list document) (s : document) :
  s ∈ page_docs q coll → s ∈ coll.
Proof.
  unfold page_docs, find_any. intros Hs%subseteq_take.
  apply elem_of_app in Hs as [Hs|Hs]; apply list_elem_of_fmap in Hs as (x & -> & Hx).
  - apply elem_of_find_all in Hx as [_ Hx]. by apply elem_of_dated.
  - rewrite sort_text_desc_perm in Hx. apply list_elem_of_filter in Hx as [_ Hx].
    by apply elem_of_undated.
Qed.

Lemma to_ecs_all_Made (docs : list Doc) :
  to_ecs_all (Made <$> docs) = Ok ((λ d, Canonical (to_ecs (body d))) <$> docs).
Proof. induction docs as [|d docs IH]; cbn; [done|]. by rewrite IH. Qed.

Lemma next_cursor_Made (docs : list Doc) :
  last (Made <$> docs) ≫= _next_cursor = (λ d, _iso (when d)) <$> last docs.
Proof.
  rewrite fmap_last. by destruct (last docs).
Qed.

(** The comprehension over the page raises exactly when the page holds a
    Teams document with a container. *)
Lemma to_ecs_all_raises (docs : list document) :
  match to_ecs_all docs with
  | Ok es => ∀ t, TeamsMade t ∈ docs → TeamsDoc.container t = ""
  | Raise e =>
      e = AttributeError ∧
      ∃ t, TeamsMade t ∈ docs ∧ TeamsDoc.container t ≠ ""
  end.
Proof.
  induction docs as [|s docs IH]; cbn.
  - intros t Ht. by apply elem_of_nil in Ht.
  - destruct s as [d|t0]; cbn.
    + destruct (to_ecs_all docs) as [es|e]; cbn.
      * intros t Ht. apply elem_of_cons in Ht as [Ht|Ht]; [done|by apply IH].
      * destruct IH as (-> & t & Ht & Hc). split; [done|].
        exists t. split; [by right|done].
    + case_bool_decide as Hc; cbn.
      * destruct (to_ecs_all docs) as [es|e]; cbn.
        -- intros t Ht. apply elem_of_cons in Ht as [Ht|Ht]; [|by apply IH].
           by injection Ht as ->.
        -- destruct IH as (-> & t & Ht & Hc'). split; [done|].
           exists t. split; [by right|done].
      * split; [done|]. exists t0. split; [by left|done].
Qed.

(** C8, as the code has it. For a limit between 1 and 1000 the listing
    raises [AttributeError] exactly when its page reaches a document of the
    Teams connector that has a container. When the page holds documents
    with a [datetime] only, which is so when the query finds [limit] of them
    or finds no Teams document, the listing returns at most [limit] events,
    the newest first, each of them a stored event that satisfies the query,
    and its [next_cursor] is the timestamp of the last returned event
    printed in ISO-8601 with the suffix Z. The follow-up call with that
    cursor returns, and returns only events of the query that are strictly
    older than that event. When the stored timestamps are pairwise distinct,
    the two pages together are the first [2 * limit] events of the query in
    the order newest first, without a repetition; with [limit = 2] and at
    least four such events, each page has exactly two events. *)
Theorem list_events_pagination (q : EventQuery) (coll : list document) :
  1 ≤ q_limit q ≤ 1000 →
  let docs := list_docs q (dated coll) in
  let all := find_all (_build_mongo_query q) (dated coll) in
  let next := (λ d, _iso (when d)) <$> last docs in
  let q' := with_cursor next q in
  let docs' := list_docs q' (dated coll) in
  (list_events q coll = Raise AttributeError ↔
   ∃ t, TeamsMade t ∈ page_docs q coll ∧ TeamsDoc.container t ≠ "") ∧
  (q_limit q ≤ length all ∨
   (∀ t, TeamsMade t ∈ coll →
         satisfies_teams (_build_mongo_query q) t = false) →
   page_docs q coll = Made <$> docs) ∧
  (page_docs q coll = Made <$> docs →
   list_events q coll =
     Ok {| l_ok := true; l_count := length docs; l_next_cursor := next;
           l_events := (λ d, Canonical (to_ecs (body d))) <$> docs |} ∧
   docs = take (q_limit q) all ∧
   length docs ≤ q_limit q ∧
   StronglySorted newer_first docs ∧
   (∀ d, d ∈ docs → Made d ∈ coll ∧ satisfies (_build_mongo_query q) d = true) ∧
   (∀ d0, last docs = Some d0 → dt_valid (when d0) →
      list_events q' coll =
        Ok {| l_ok := true; l_count := length docs';
              l_next_cursor := (λ d, _iso (when d)) <$> last docs';
              l_events := (λ d, Canonical (to_ecs (body d))) <$> docs' |} ∧
      (∀ d, d ∈ docs' →
         dt_lt (when d) (when d0) ∧
         satisfies (_build_mongo_query q) d = true ∧ Made d ∈ coll) ∧
      (NoDup (when <$> dated coll) →
         docs ++ docs' = take (q_limit q + q_limit q) all ∧
         NoDup (docs ++ docs') ∧
         (q_limit q = 2 → 4 ≤ length all →
          length docs = 2 ∧ length docs' = 2)))).
Proof.
  intros Hlimit docs all next q' docs'.
  assert (docs = take (q_limit q) all) as Hdocs by reflexivity.
  assert (∀ d, d ∈ docs →
            Made d ∈ coll ∧ satisfies (_build_mongo_query q) d = true) as Hmem.
  { intros d Hd. rewrite Hdocs in Hd. apply subseteq_take in Hd.
    apply elem_of_find_all in Hd as [? ?%elem_of_dated]. done. }
  assert (∀ q0, q_limit q0 = q_limit q →
            page_docs q0 coll = Made <$> list_docs q0 (dated coll) →
            list_events q0 coll =
              Ok {| l_ok := true; l_count := length (list_docs q0 (dated coll));
                    l_next_cursor :=
                      (λ d, _iso (when d)) <$> last (list_docs q0 (dated coll));
                    l_events := (λ d, Canonical (to_ecs (body d)))
                                  <$> list_docs q0 (dated coll) |}) as Hanswer.
  { intros q0 Hl Hpage. unfold list_events. rewrite Hl.
    rewrite bool_decide_eq_true_2 by done.
    unfold answer. rewrite Hpage, to_ecs_all_Made. cbn [bind].
    by rewrite length_fmap, next_cursor_Made. }
  split; [|split].
  - unfold list_events. rewrite bool_decide_eq_true_2 by done. unfold answer.
    pose proof (to_ecs_all_raises (page_docs q coll)) as Hall.
    destruct (to_ecs_all (page_docs q coll)) as [es|e]; cbn [bind].
    + split; [done|]. intros (t & Ht & Hc). by apply Hall in Ht.
    + destruct Hall as [-> Hex]. done.
  - apply page_docs_dated.
  - intros Hpage.
    split; [by apply Hanswer|].
    split; [done|].
    split; [rewrite Hdocs, length_take; lia|].
    split; [rewrite Hdocs; apply take_strongly, find_all_strongly|].
    split; [done|].
    intros d0 Hlast Hv.
    assert (q' = with_cursor (Some (_iso (when d0))) q) as Hq'.
    { unfold q', next. by rewrite Hlast. }
    assert (d0 ∈ docs) as Hd0 by (by apply last_Some_elem_of).
    destruct (Hmem d0 Hd0) as [Hd0coll Hd0sat].
    split; [|split].
    + apply Hanswer; [done|]. apply page_docs_dated. right. intros t _.
      apply satisfies_teams_bounded. left. rewrite Hq'.
      change (q_cursor (with_cursor _ q)) with (Some (_iso (when d0))).
      rewrite parse_time_iso by done. by eexists.
    + intros d Hd. unfold docs', list_docs, find_sorted in Hd.
      apply subseteq_take in Hd. apply elem_of_find_all in Hd as [Hsat Hcoll].
      rewrite Hq' in Hsat. apply satisfies_with_cursor in Hsat as [? ?]; [|done..].
      by apply elem_of_dated in Hcoll.
    + intros Hnd.
      assert (docs' = take (q_limit q) (drop (q_limit q) all)) as Hdocs'.
      { unfold docs', list_docs, find_sorted. rewrite Hq'.
        change (q_limit (with_cursor _ q)) with (q_limit q).
        by rewrite next_page. }
      assert (docs ++ docs' = take (q_limit q + q_limit q) all) as Hboth.
      { rewrite Hdocs, Hdocs'. apply take_take_drop. }
      split; [done|]. split.
      * rewrite Hboth. apply (sublist_NoDup _ all); [|apply sublist_take].
        by apply find_all_NoDup.
      * intros Hn Hlen. rewrite Hdocs, Hdocs', !length_take, length_drop, Hn. lia.
Qed.

End listing.

(** The pagination on that collection: two pages of two events each, the
    second strictly older than the first. *)
Lemma list_events_pagination_witness :
  let docs := @list_docs reference_backend two_a_page five_apart in
  let next := (λ d, _iso (when d)) <$> last docs in
  let docs' :=
    @list_docs reference_backend (with_cursor next two_a_page) five_apart in
  @list_events reference_backend two_a_page five_and_teams =
    Ok {| l_ok := true; l_count := 2; l_next_cursor := next;
          l_events := (λ d, Canonical (to_ecs (body d))) <$> docs |} ∧
  length docs = 2 ∧ length docs' = 2 ∧ NoDup (docs ++ docs') ∧
  ∀ d, d ∈ docs' → dt_lt (when d) (noon 4).
Proof.
  intros docs next docs'.
  destruct (@list_events_pagination reference_backend two_a_page five_and_teams)
    as (_ & _ & Hpage).
  - simpl. lia.
  - destruct Hpage as (Hans & _ & _ & _ & _ & Hnext); [vm_compute; reflexivity|].
    split; [exact Hans|].
    destruct (Hnext (seed 4 "fp4" (noon 4))) as (_ & Holder & Hdistinct).
    + vm_compute. reflexivity.
    + unfold dt_valid, when. simpl. lia.
    + destruct Hdistinct as (_ & Hnd & Hlen).
      * apply (bool_decide_unpack (NoDup (when <$> dated five_and_teams))).
        vm_compute. exact I.
      * destruct Hlen as [H1 H2]; [reflexivity|vm_compute; lia|].
        split; [exact H1|]. split; [exact H2|]. split; [exact Hnd|].
        intros d Hd. by apply Holder.
Defined.

(** A page that reaches the document of the Teams connector: the listing
    raises. *)
Example teams_document_breaks_the_listing :
  @list_events reference_backend
    {| q_platform := None; q_severity := None; q_label := None;
       q_since := None; q_until := None; q_limit := 100; q_cursor := None |}
    five_and_teams = Raise AttributeError.
Proof. vm_compute. reflexivity. Qed.

(** C8 as stated fails. Five events stored with the same detection time and
    [limit = 2]: the first call returns two of them, and the follow-up call
    with its cursor returns none, the other three events being no older than
    the cursor. *)
Lemma pagination_skips_equal_timestamps :
  ¬ (∀ (B : Backend) (coll : list Doc),
       length coll = 5 → NoDup (fingerprint ∘ body <$> coll) →
       ∃ ans ans',
         list_events two_a_page (Made <$> coll) = Ok ans ∧
         list_events (with_cursor (l_next_cursor ans) two_a_page)
           (Made <$> coll) = Ok ans' ∧
         l_count ans = 2 ∧ l_count ans' = 2).
Proof.
  intros H.
  destruct (H reference_backend five_at_once) as (ans & ans' & H1 & H2 & _ & Hc).
  - reflexivity.
  - apply (bool_decide_unpack (NoDup (fingerprint ∘ body <$> five_at_once))).
    vm_compute. exact I.
  - vm_compute in H1. injection H1 as <-.
    vm_compute in H2. injection H2 as <-. discriminate Hc.
Qed.

End ListingFacts.

(* ===================================================================== *)
(** * Further properties of the code                                      *)
(* ===================================================================== *)

(** ** More strings *)

Module PyTextFacts.
Import PyStr PyText PyStrFacts.

Lemma split_not_nil (sep : ascii) (s : string) : split sep s ≠ [].
Proof.
  induction s as [|c s IH]; simpl; [done|].
  case_bool_decide; [done|]. by destruct (split sep s).
Qed.

(** The pieces put together again with the separator give the text. *)
Lemma join_split (sep : ascii) (s : string) :
  join (String sep "") (split sep s) = s.
Proof.
  induction s as [|c s IH]; simpl; [done|].
  case_bool_decide as Hc.
  - subst c. pose proof (split_not_nil sep s) as Hne.
    destruct (split sep s) as [|x xs] eqn:E; [done|].
    unfold join in *. simpl in *. by rewrite IH.
  - pose proof (split_not_nil sep s) as Hne.
    destruct (split sep s) as [|x xs] eqn:E; [done|].
    unfold join in *. simpl in *. destruct xs; simpl in *; by rewrite <- IH.
Qed.

Lemma lower_app (a b : string) : lower (a +:+ b) = lower a +:+ lower b.
Proof. induction a as [|c a IH]; [done|]. rewrite app_cons. simpl. by rewrite IH. Qed.

Lemma lower_ascii_space (c : ascii) : lower_ascii c = " "%char → c = " "%char.
Proof.
  destruct c as [[] [] [] [] [] [] [] []]; vm_compute; congruence.
Qed.

Lemma has_char_space_lower (s : string) :
  has_char " " (lower s) = false → has_char " " s = false.
Proof.
  induction s as [|c s IH]; simpl; [done|].
  intros [H1 H2]%orb_false_elim. rewrite (IH H2), orb_false_r.
  apply bool_decide_eq_false. apply bool_decide_eq_false in H1.
  intros <-. by apply H1.
Qed.

Lemma split_once_app (sep : ascii) (a b : string) :
  has_char sep a = false →
  split_once sep (a +:+ String sep b) = (a, Some b).
Proof.
  induction a as [|c a IH]; simpl.
  - intros _. rewrite ?app_nil_l. simpl. by rewrite bool_decide_eq_true_2.
  - intros [H1 H2]%orb_false_elim. rewrite ?app_cons. simpl.
    apply bool_decide_eq_false in H1.
    rewrite bool_decide_eq_false_2 by congruence. by rewrite (IH H2).
Qed.

(** A text that starts with a word and a blank splits at a blank. *)
Lemma split_once_some (sep : ascii) (p s : string) :
  String.prefix (p +:+ String sep "") s = true →
  is_Some (split_once sep s).2.
Proof.
  intros [r ->]%prefix_spec. rewrite app_assoc, app_cons, app_nil_l.
  revert r. induction p as [|c p IH]; intros r.
  - rewrite ?app_nil_l. simpl. rewrite bool_decide_eq_true_2 by done. by eexists.
  - rewrite ?app_cons. simpl. case_bool_decide; [by eexists|].
    specialize (IH r). destruct (split_once sep (p +:+ String sep r)). done.
Qed.

Lemma rstrip_by_nil (p : ascii → bool) (s : string) :
  rstrip_by p s = "" → ∀ c, has_char c s = true → p c = true.
Proof.
  induction s as [|d s IH]; simpl; [done|].
  destruct (rstrip_by p s) eqn:E; [|done].
  destruct (p d) eqn:Hd; [|done]. intros _ c [Hc|Hc]%orb_prop.
  - apply bool_decide_eq_true in Hc. by subst.
  - by apply IH.
Qed.

Lemma lstrip_by_all (p : ascii → bool) (s : string) :
  (∀ c, has_char c (lstrip_by p s) = true → p c = true) →
  ∀ c, has_char c s = true → p c = true.
Proof.
  induction s as [|d s IH]; simpl; [done|].
  destruct (p d) eqn:Hd; [|done]. intros H c [Hc|Hc]%orb_prop.
  - apply bool_decide_eq_true in Hc. by subst.
  - by apply IH.
Qed.

(** A text that strips to nothing is made of white space. *)
Lemma strip_nil (s : string) :
  strip s = "" → ∀ c, has_char c s = true → is_space c = true.
Proof.
  intros H. apply lstrip_by_all. by apply rstrip_by_nil.
Qed.

(** A text without the separator is its only piece. *)
Lemma split_no_sep (sep : ascii) (s : string) :
  has_char sep s = false → split sep s = [s].
Proof.
  induction s as [|c s IH]; simpl; [done|].
  intros [H1 H2]%orb_false_elim. apply bool_decide_eq_false in H1.
  rewrite bool_decide_eq_false_2 by congruence. by rewrite (IH H2).
Qed.

Lemma hd_split_elem (sep : ascii) (s : string) :
  hd "" (split sep s) ∈ split sep s.
Proof.
  pose proof (split_not_nil sep s). destruct (split sep s); [done|].
  simpl. apply list_elem_of_here.
Qed.

End PyTextFacts.

(** ** The API key *)

Module AuthFacts.
Import PyStr PyText Auth PyStrFacts PyTextFacts.

(** The keys the check accepts: the non-blank pieces of the setting,
    stripped. *)
Lemma elem_of_allowed_keys (keys k : string) :
  k ∈ allowed_keys keys ↔
  k ≠ "" ∧ ∃ piece, piece ∈ split "," keys ∧ strip piece = k.
Proof.
  unfold allowed_keys. rewrite elem_of_list_to_set, list_elem_of_filter.
  rewrite list_elem_of_fmap. split.
  - intros [Hk (piece & -> & Hin)]. split; [done|]. by exists piece.
  - intros [Hk (piece & Hin & <-)]. split; [done|]. by exists piece.
Qed.

(** The element [[1]] the bearer branch reads is always there. *)
Lemma bearer_has_token (auth : string) :
  startswith (lower auth) "bearer " = true →
  is_Some (split_once " " auth).2.
Proof.
  unfold startswith. intros H.
  assert (∃ a b, auth = a +:+ String " " b ∧ has_char " " a = false)
    as (a & b & -> & Ha).
  { clear -H. apply prefix_spec in H as [r Hr].
    assert (∀ n (s : string) t r, lower s = t +:+ String " " r →
              String.length t = n → has_char " " t = false →
              ∃ a b, s = a +:+ String " " b ∧ has_char " " a = false) as Hgen.
    { induction n as [|n IH]; intros s t r' Hs Hlen Ht.
      - destruct t; [|done]. rewrite app_nil_l in Hs.
        destruct s as [|c s]; [done|]. simpl in Hs. injection Hs as Hc _.
        apply lower_ascii_space in Hc as ->. by exists "", s.
      - destruct t as [|d t]; [done|]. rewrite app_cons in Hs.
        destruct s as [|c s]; [done|]. simpl in Hs. injection Hs as Hc Hs.
        simpl in Ht. apply orb_false_elim in Ht as [Hd Ht].
        simpl in Hlen. injection Hlen as Hlen.
        destruct (IH s t r' Hs Hlen Ht) as (a & b & -> & Ha).
        exists (String c a), b. split; [by rewrite app_cons|].
        simpl. rewrite Ha, orb_false_r. apply bool_decide_eq_false.
        apply bool_decide_eq_false in Hd. intros <-. apply Hd.
        by rewrite <- Hc. }
    apply (Hgen 6 auth "bearer" r); [|done|done].
    by rewrite Hr. }
  rewrite split_once_app by done. by eexists.
Qed.

(** X1. A key of the setting opens the API: for every non-blank piece of the
    comma-separated setting, a request that carries the stripped piece in
    its [X-API-Key] header is let through, and so is a request without that
    header whose [Authorization] header is the scheme bearer, in any letter
    case, a blank and a token that strips to the piece. *)
Theorem configured_key_is_accepted (keys piece : string) (req : Request) :
  piece ∈ split "," keys → strip piece ≠ "" →
  x_api_key req = Some (strip piece) ∨
  (falsy (x_api_key req) = true ∧
   ∃ scheme token, authorization req = Some (scheme +:+ " " +:+ token) ∧
                   lower scheme = "bearer" ∧ strip token = strip piece) →
  require_api_key keys req = Returns ().
Proof.
  intros Hin Hne Hreq.
  assert (strip piece ∈ allowed_keys keys) as Hk.
  { apply elem_of_allowed_keys. eauto. }
  unfold require_api_key. cbv zeta.
  case_bool_decide as He; [done|].
  assert (presented_key req = Some (strip piece)) as ->.
  { unfold presented_key. destruct Hreq as [Hx | (Hf & scheme & token & Ha & Hs & Ht)].
    - rewrite Hx. destruct (strip piece) eqn:E; [done|]. done.
    - rewrite Hf, Ha. simpl default.
      assert (startswith (lower (scheme +:+ " " +:+ token)) "bearer " = true) as ->.
      { unfold startswith. apply prefix_spec. rewrite lower_app, Hs.
        exists (lower token). rewrite lower_app. by rewrite !app_cons, !app_nil_l. }
      change (" " +:+ token) with (String " " token).
      rewrite split_once_app.
      + simpl. by rewrite Ht.
      + apply has_char_space_lower. by rewrite Hs. }
  rewrite bool_decide_eq_false_2; [done|]. intros [?|?]; done.
Qed.

Lemma configured_key_is_accepted_witness :
  require_api_key "alpha, beta" {| x_api_key := None;
                                   authorization := Some "Bearer beta " |}
  = Returns ().
Proof.
  apply (configured_key_is_accepted "alpha, beta" " beta").
  - apply (bool_decide_unpack (" beta" ∈ split "," "alpha, beta")).
    vm_compute. exact I.
  - vm_compute. discriminate.
  - right. split; [reflexivity|]. exists "Bearer", "beta ".
    split; [reflexivity|]. split; vm_compute; reflexivity.
Defined.

(** X2. Once a key is configured, a request is refused with status 401 when
    it carries no credentials at all, and when its [X-API-Key] header holds
    a text that is not a configured key; in the second case the
    [Authorization] header is not looked at, so a valid bearer token does
    not rescue a wrong key header. *)
Theorem unknown_key_is_rejected (keys : string) (req : Request) :
  allowed_keys keys ≠ ∅ →
  (falsy (x_api_key req) = true ∧ authorization req = None) ∨
  (∃ k, x_api_key req = Some k ∧ k ≠ "" ∧ k ∉ allowed_keys keys) →
  require_api_key keys req = Raises (HTTPException 401).
Proof.
  intros Hne Hreq. unfold require_api_key. cbv zeta.
  rewrite bool_decide_eq_false_2 by done.
  destruct Hreq as [[Hf Ha] | (k & Hx & Hk & Hnot)].
  - unfold presented_key. rewrite Hf, Ha. simpl.
    destruct (x_api_key req) as [[|]|]; try done.
  - unfold presented_key. rewrite Hx. destruct k as [|c k]; [done|]. simpl.
    rewrite bool_decide_eq_true_2; [done|]. by right.
Qed.

Lemma unknown_key_is_rejected_witness :
  require_api_key "alpha,beta" {| x_api_key := Some "gamma";
                                  authorization := Some "Bearer alpha" |}
  = Raises (HTTPException 401).
Proof.
  apply unknown_key_is_rejected.
  - apply (bool_decide_unpack (allowed_keys "alpha,beta" ≠ ∅)).
    vm_compute. exact I.
  - right. exists "gamma". split; [reflexivity|]. split; [discriminate|].
    apply (bool_decide_unpack ("gamma" ∉ allowed_keys "alpha,beta")).
    vm_compute. exact I.
Defined.

(** X3. The export job and the API read the same setting. The request of
    the job passes the check exactly when no key is configured at all or the
    first comma-separated piece of the setting is not blank: with a setting
    such as [,k] the job sends an empty key and is refused, whatever other
    keys follow. *)
Theorem export_job_key_accepted (keys : string) :
  require_api_key keys (fetch_request keys) = Returns () ↔
  allowed_keys keys = ∅ ∨ strip (hd "" (split "," keys)) ≠ "".
Proof.
  unfold require_api_key, fetch_request, presented_key, fetch_api_key.
  cbv zeta. simpl x_api_key. simpl authorization.
  case_bool_decide as He; [by split; [left|]|].
  split.
  - intros H. right. case_bool_decide as Hs; [done|].
    destruct (strip (hd "" (split "," keys))) eqn:E; [done|]. done.
  - intros [?|Hfirst]; [done|].
    rewrite bool_decide_eq_false_2.
    + destruct (strip (hd "" (split "," keys))) eqn:E; [done|].
      simpl. rewrite bool_decide_eq_false_2; [done|].
      intros [?|Hn]; [done|]. apply Hn. apply elem_of_allowed_keys.
      split; [done|]. exists (hd "" (split "," keys)).
      split; [apply hd_split_elem|done].
    + intros Hs. apply Hfirst. rewrite split_no_sep; [done|].
      destruct (has_char "," keys) eqn:Hc; [|done].
      by apply (strip_nil _ Hs) in Hc.
Qed.

(** The setting [,k] names the key k, and the job is refused. *)
Example export_job_refused :
  "k" ∈ allowed_keys ",k" ∧
  require_api_key ",k" (fetch_request ",k") = Raises (HTTPException 401).
Proof.
  split; [|reflexivity].
  apply (bool_decide_unpack ("k" ∈ allowed_keys ",k")). vm_compute. exact I.
Qed.

End AuthFacts.

(** ** The listing and the lookup of the API *)

Module ApiFacts.
Import PyStr PyStrFacts Store Listing ListingFacts Api.

Lemma lower_ascii_idemp (c : ascii) : lower_ascii (lower_ascii c) = lower_ascii c.
Proof. destruct c as [[] [] [] [] [] [] [] []]; reflexivity. Qed.

Lemma lower_idemp (s : string) : lower (lower s) = lower s.
Proof. induction s as [|c s IH]; simpl; [done|]. by rewrite lower_ascii_idemp, IH. Qed.

Section listing.
Context `{B : Backend}.

(** X4. A [cursor], [since] or [until] parameter that is absent, empty or
    rejected by the ISO parser (after Z is replaced by +00:00) is dropped
    without an error: the answer is the answer of the query without the
    parameter. A stale or mistyped cursor therefore gives the first page
    again. *)
Theorem unparseable_bounds_are_ignored (q : EventQuery) (coll : list document) :
  (parse_time (q_cursor q) = None →
   list_events q coll = list_events (with_cursor None q) coll) ∧
  (parse_time (q_since q) = None →
   list_events q coll = list_events (with_since None q) coll) ∧
  (parse_time (q_until q) = None →
   list_events q coll = list_events (with_until None q) coll).
Proof.
  assert (∀ q', q_limit q' = q_limit q →
            _build_mongo_query q' = _build_mongo_query q →
            list_events q coll = list_events q' coll) as Hsame.
  { intros q' Hl Hq. unfold list_events, answer, page_docs. by rewrite Hl, Hq. }
  split; [|split]; intros Hnone; apply Hsame; try done.
  - unfold _build_mongo_query. cbn [with_cursor q_platform q_severity q_label
      q_since q_until q_cursor]. rewrite Hnone.
    change (parse_time None) with (@None datetime). cbn [truthy].
    by destruct (truthy (q_cursor q)).
  - unfold _build_mongo_query. cbn [with_since q_platform q_severity q_label
      q_since q_until q_cursor]. rewrite Hnone. done.
  - unfold _build_mongo_query. cbn [with_until q_platform q_severity q_label
      q_since q_until q_cursor]. rewrite Hnone. done.
Qed.

(** What the query asks of a document with a [datetime] that it finds. *)
Lemma found_docs_satisfy_query (q : EventQuery) (coll : list Doc) (d : Doc) :
  d ∈ find_all (_build_mongo_query q) coll →
  d ∈ coll ∧
  (∀ p, truthy (q_platform q) = Some p → platform (body d) = lower p) ∧
  (∀ s, truthy (q_severity q) = Some s →
        regex_i ("^" +:+ s +:+ "$") (severity (body d)) = true) ∧
  (∀ l, truthy (q_label q) = Some l →
        ∃ x, x ∈ detections (body d) ∧ d_label x = Some l) ∧
  (∀ a, parse_time (q_since q) = Some a → dt_le a (when d)) ∧
  (∀ b, parse_time (q_until q) = Some b → dt_le (when d) b) ∧
  (∀ c, parse_time (q_cursor q) = Some c → dt_lt (when d) c).
Proof.
  intros Hd.
  apply elem_of_find_all in Hd as [Hs Hd]. split; [done|].
  unfold satisfies in Hs.
  apply andb_prop in Hs as [Hs Ht]. apply andb_prop in Hs as [Hs Hl].
  apply andb_prop in Hs as [Hp Hs].
  rewrite found_at_check in Ht. unfold time_ok in Ht. cbn [t_gte t_lte t_lt] in Ht.
  apply andb_prop in Ht as [Ht Hc]. apply andb_prop in Ht as [Hg Hu].
  unfold _build_mongo_query in Hp, Hs, Hl. cbn [m_platform m_severity m_label] in *.
  repeat split.
  - intros p Hq. rewrite Hq in Hp. simpl in Hp. by apply bool_decide_eq_true in Hp.
  - intros s Hq. rewrite Hq in Hs. by simpl in Hs.
  - intros l Hq. rewrite Hq in Hl. simpl in Hl. apply bool_decide_eq_true in Hl.
    apply list_elem_of_fmap in Hl as (x & Hx & Hin). by exists x.
  - intros a Hq. rewrite Hq in Hg. simpl in Hg. by apply bool_decide_eq_true in Hg.
  - intros b Hq. rewrite Hq in Hu. simpl in Hu. by apply bool_decide_eq_true in Hu.
  - intros c Hq. unfold cursor_bound in Hc. rewrite Hq in Hc. simpl in Hc.
    by apply bool_decide_eq_true in Hc.
Qed.

(** The documents of a page, by kind. *)
Lemma elem_of_page_docs (q : EventQuery) (coll : list document) (s : document) :
  s ∈ page_docs q coll →
  match s with
  | Made d => d ∈ find_all (_build_mongo_query q) (dated coll)
  | TeamsMade t =>
      TeamsMade t ∈ coll ∧ satisfies_teams (_build_mongo_query q) t = true
  end.
Proof.
  unfold page_docs, find_any. intros Hs%subseteq_take.
  apply elem_of_app in Hs as [Hs|Hs];
    apply list_elem_of_fmap in Hs as (x & -> & Hx); [done|].
  rewrite sort_text_desc_perm in Hx. apply list_elem_of_filter in Hx as [? Hx].
  by apply elem_of_undated in Hx.
Qed.

(** X5. Every event of an answer is a stored event that meets each
    parameter given: its platform is the parameter in lower case, its
    severity matches the anchored expression without regard to case, one of
    its detections carries the label as written, and its detection time is
    not before [since], not after [until] and strictly before the cursor. A
    document of the Teams connector, which has the platform Teams, no
    detections and a text for its detection time, is behind an answer only
    when the query names no platform, no label and no bound that was read,
    and then its severity matches. *)
Theorem listed_events_satisfy_query (q : EventQuery) (coll : list document)
    (s : document) :
  s ∈ page_docs q coll →
  s ∈ coll ∧
  match s with
  | Made d =>
      (∀ p, truthy (q_platform q) = Some p → platform (body d) = lower p) ∧
      (∀ s, truthy (q_severity q) = Some s →
            regex_i ("^" +:+ s +:+ "$") (severity (body d)) = true) ∧
      (∀ l, truthy (q_label q) = Some l →
            ∃ x, x ∈ detections (body d) ∧ d_label x = Some l) ∧
      (∀ a, parse_time (q_since q) = Some a → dt_le a (when d)) ∧
      (∀ b, parse_time (q_until q) = Some b → dt_le (when d) b) ∧
      (∀ c, parse_time (q_cursor q) = Some c → dt_lt (when d) c)
  | TeamsMade t =>
      truthy (q_platform q) = None ∧ truthy (q_label q) = None ∧
      parse_time (q_since q) = None ∧ parse_time (q_until q) = None ∧
      parse_time (q_cursor q) = None ∧
      (∀ s, truthy (q_severity q) = Some s →
            regex_i ("^" +:+ s +:+ "$") (TeamsDoc.severity t) = true)
  end.
Proof.
  intros Hs. split; [by eapply page_docs_subset|].
  apply elem_of_page_docs in Hs. destruct s as [d|t].
  - by apply found_docs_satisfy_query in Hs as (_ & ?).
  - destruct Hs as [_ Hsat].
    assert (∀ P : Prop,
              (P → is_Some (parse_time (q_cursor q)) ∨
                   is_Some (parse_time (q_since q)) ∨
                   is_Some (parse_time (q_until q)) ∨
                   is_Some (truthy (q_platform q)) ∨
                   is_Some (truthy (q_label q))) → ¬ P) as Hnot.
    { intros P HP Hp. apply HP in Hp.
      apply (satisfies_teams_bounded q t) in Hp. by rewrite Hp in Hsat. }
    split_and!.
    + destruct (truthy (q_platform q)) eqn:E; [|done].
      exfalso. apply (Hnot True); [|done]. intros _. do 3 right. left.
      by eexists.
    + destruct (truthy (q_label q)) eqn:E; [|done].
      exfalso. apply (Hnot True); [|done]. intros _. do 4 right.
      by eexists.
    + destruct (parse_time (q_since q)) eqn:E; [|done].
      exfalso. apply (Hnot True); [|done]. intros _. right. left.
      by eexists.
    + destruct (parse_time (q_until q)) eqn:E; [|done].
      exfalso. apply (Hnot True); [|done]. intros _. do 2 right. left.
      by eexists.
    + destruct (parse_time (q_cursor q)) eqn:E; [|done].
      exfalso. apply (Hnot True); [|done]. intros _. left.
      by eexists.
    + intros sv Hq. unfold satisfies_teams in Hsat.
      apply andb_prop in Hsat as [Hsat _]. apply andb_prop in Hsat as [Hsat _].
      apply andb_prop in Hsat as [_ Hsev].
      unfold _build_mongo_query in Hsev. cbn [m_severity] in Hsev.
      rewrite Hq in Hsev. exact Hsev.
Qed.

(** X6. The platform parameter is put in lower case and compared as it is
    with the stored platform. A document stored under a platform name that
    is not in lower case (the Teams connector stores Teams) is therefore
    behind no answer to a query that names a platform, however the name is
    written. *)
Theorem mixed_case_platform_is_never_listed (q : EventQuery)
    (coll : list document) (s : document) :
  is_Some (truthy (q_platform q)) →
  platform_of s ≠ lower (platform_of s) →
  s ∉ page_docs q coll.
Proof.
  intros [p Hp] Hcase Hs.
  apply elem_of_page_docs in Hs. destruct s as [d|t].
  - apply found_docs_satisfy_query in Hs as (_ & Hplat & _).
    apply Hcase. cbn [platform_of]. rewrite (Hplat p Hp). by rewrite lower_idemp.
  - destruct Hs as [_ Hsat].
    rewrite satisfies_teams_bounded in Hsat; [done|].
    do 3 right. left. rewrite Hp. by eexists.
Qed.

End listing.

(** The query of the contract with the platform written Slack. *)
Lemma listed_events_satisfy_query_witness :
  let q := {| q_platform := Some "Slack"; q_severity := None; q_label := None;
              q_since := None; q_until := None; q_limit := 2;
              q_cursor := None |} in
  platform (body (seed 5 "fp5" (noon 5))) = "slack".
Proof.
  intros q.
  destruct (@listed_events_satisfy_query reference_backend q five_and_teams
              (Made (seed 5 "fp5" (noon 5)))) as (_ & Hp & _).
  - vm_compute. apply list_elem_of_here.
  - by apply (Hp "Slack").
Defined.

(** The document of the Teams connector and a query for the platform
    Teams. *)
Lemma mixed_case_platform_is_never_listed_witness :
  let q := {| q_platform := Some "Teams"; q_severity := None; q_label := None;
              q_since := None; q_until := None; q_limit := 1000;
              q_cursor := None |} in
  let s := TeamsMade (teams_seed "fpT" "2024-01-01T12:00:09+00:00") in
  s ∉ @page_docs reference_backend q five_and_teams.
Proof.
  intros q s. apply mixed_case_platform_is_never_listed.
  - by eexists.
  - vm_compute. discriminate.
Defined.

(** X7. The lookup by fingerprint. For a fingerprint that no stored event
    has, [get_event] answers 404; once the scan loop has stored an event
    under it, [get_event] returns that event in the external schema, and it
    keeps returning it after any later event with the same fingerprint has
    gone through the insert (the first event stored is the one served). *)
Theorem get_event_after_insert (coll : list Doc) (ev : Event) :
  (∀ d, d ∈ coll → fingerprint (body d) ≠ fingerprint ev) →
  get_event (fingerprint ev) coll = Raises (HTTPException 404) ∧
  let coll' := (insert_if_absent coll ev).1 in
  get_event (fingerprint ev) coll' = Returns (to_ecs ev) ∧
  ∀ ev', fingerprint ev' = fingerprint ev →
    get_event (fingerprint ev) (insert_if_absent coll' ev').1
    = Returns (to_ecs ev).
Proof.
  intros Hfresh.
  assert (list_find (has_fingerprint (fingerprint ev)) coll = None) as Hnone.
  { apply list_find_None, Forall_forall. intros d Hd. by apply Hfresh. }
  assert (list_find (has_fingerprint (fingerprint ev))
            (coll ++ [{| doc_id := fresh_id coll; body := ev |}])
          = Some (length coll, {| doc_id := fresh_id coll; body := ev |}))
    as Hsome.
  { rewrite list_find_app_r by done. simpl.
    rewrite decide_True by done. done. }
  split; [by unfold get_event, find_one; rewrite Hnone|].
  unfold insert_if_absent, update_one_set_on_insert. rewrite Hnone.
  cbn [fst]. split.
  - unfold get_event, find_one. by rewrite Hsome.
  - intros ev' ->. rewrite Hsome. cbn [fst].
    unfold get_event, find_one. by rewrite Hsome.
Qed.

Lemma get_event_after_insert_witness :
  get_event (fingerprint Normalize.scenario_event) [] = Raises (HTTPException 404) ∧
  get_event (fingerprint Normalize.scenario_event)
    (insert_if_absent [] Normalize.scenario_event).1
  = Returns (to_ecs Normalize.scenario_event).
Proof.
  destruct (get_event_after_insert [] Normalize.scenario_event) as (H1 & H2 & _).
  - intros d Hd. by apply not_elem_of_nil in Hd.
  - split; [exact H1|exact H2].
Defined.

End ApiFacts.

(** ** The summary of a run of the export job *)

Module ExportRunFacts.
Import PyStr ExporterJob ExportRun.

Section walker.
Context {W ecs : Type}.
Context (http_get : W → option string → W * result (response ecs)).
Context (_make_client : string → result (client W ecs)).

Lemma fetch_keeps_cursors (cur : option string) (st : state W) :
  cursors (_fetch_page http_get cur st).1 = cursors st.
Proof.
  unfold _fetch_page. destruct (http_get _ _) as [w [resp|e]]; [|done].
  by case_bool_decide.
Qed.

Lemma sink_answers_step (c : option string) (data : page ecs) (batch : list ecs)
    (res : send_result) (k v : string) (acts : list (action ecs)) :
  sink_answers (Fetch c (Ok data) :: Send batch (Ok res) :: SetCursor k v :: acts)
  = res :: sink_answers acts ∧
  batches (Fetch c (Ok data) :: Send batch (Ok res) :: SetCursor k v :: acts)
  = batch :: batches acts.
Proof. done. Qed.

(** The loop, for a run that returns: the summary counts the batches sent,
    adds up the answers of the sink and names the cursor the collection
    holds when the loop is left. *)
Lemma export_loop_summary (fuel : nat) (mode : string) (send : client W ecs)
    (st : state W) (cur : option string) (totals : Z * Z) (pages : nat)
    (st' : state W) (acts : list (action ecs)) (s : summary) :
  export_loop http_get fuel mode send st cur totals pages
    = (st', acts, Returned s) →
  _get_cursor mode st = cur →
  s_mode s = mode ∧
  s_cursor s = _get_cursor mode st' ∧
  s_pages s = pages + length (sink_answers acts) ∧
  length (batches acts) = length (sink_answers acts) ∧
  (s_sent s, s_failed s) = foldl (λ t res, add_totals res t) totals (sink_answers acts).
Proof.
  revert st cur totals pages st' acts s.
  induction fuel as [|fuel IH]; intros st cur totals pages st' acts s; [done|].
  cbn [export_loop]. pose proof (fetch_keeps_cursors cur st) as Hc.
  destruct (_fetch_page http_get cur st) as [st1 [data|e]]; simpl in Hc; [|done].
  destruct (events data) as [|ev evs] eqn:Hev.
  { intros [= <- <- <-] Hcur. cbn. unfold _get_cursor in *. rewrite Hc.
    destruct totals. repeat split; simpl; try done; lia. }
  destruct (send (world st1) (ev :: evs)) as [w2 [res|e]]; [|done].
  destruct (cursor_param (next_cursor data)) as [c|] eqn:Hn.
  - destruct (export_loop http_get fuel mode send _ (Some c) _ _)
      as [[st'' acts''] out''] eqn:Hloop.
    intros [= <- <- ->] Hcur.
    apply IH in Hloop as (Hm & Hcu & Hp & Hb & Ht).
    + destruct (sink_answers_step (cursor_param cur) data (ev :: evs) res
                  (cursor_key mode) c acts'') as [-> ->].
      split; [done|]. split; [done|]. split; [simpl; rewrite Hp; lia|].
      split; [simpl; by rewrite Hb|]. done.
    + unfold _get_cursor, _set_cursor. cbn. apply lookup_insert_eq.
  - intros [= <- <- <-] Hcur. cbn. unfold _get_cursor in *. cbn. rewrite Hc.
    destruct (add_totals res totals). repeat split; simpl; try done; lia.
Qed.

(** The mode of a run. An argument that is a text and not empty is the
    mode, in lower case; without one the mode is the first of the settings
    [export_mode] and [siem_export_mode] that is not empty. *)
Lemma mode_of_run_given (settings : Config.Settings) (m : string) :
  m ≠ EmptyString → mode_of_run settings (Some m) = Ok (lower m).
Proof.
  intros Hm. unfold mode_of_run, chosen_mode. cbn [from_option].
  unfold Config.or_else at 1. cbn [Config.truthy]. by destruct m.
Qed.

Lemma mode_of_run_fallback (settings : Config.Settings) (mode : option string) :
  PyText.falsy mode = true →
  mode_of_run settings mode
  = match Config.or_else (Config.field settings "export_mode")
                         (Config.field settings "siem_export_mode") with
    | Config.VStr s => Ok (lower s)
    | _ => Raise AttributeError
    end.
Proof.
  intros Hm. unfold mode_of_run, chosen_mode.
  assert (Config.truthy (from_option Config.VStr Config.VNone mode) = false) as Hf.
  { by destruct mode as [[|??]|]. }
  unfold Config.or_else at 1. rewrite Hf. reflexivity.
Qed.

Lemma mode_of_run_lower (settings : Config.Settings) (mode : option string)
    (m : string) :
  mode_of_run settings mode = Ok m → lower m = m.
Proof.
  unfold mode_of_run. destruct (chosen_mode settings mode); try done.
  intros [= <-]. apply ApiFacts.lower_idemp.
Qed.

(** The summary of a run that returns, from the loop. *)
Lemma run_export_summary (settings : Config.Settings) (fuel : nat)
    (mode : option string) (st st' : state W) (acts : list (action ecs))
    (s : summary) :
  run_export http_get _make_client settings fuel mode st
    = (st', acts, Returned s) →
  mode_of_run settings mode = Ok (s_mode s) ∧
  s_cursor s = _get_cursor (s_mode s) st' ∧
  s_pages s = length (batches acts) ∧
  length (sink_answers acts) = length (batches acts) ∧
  (s_sent s, s_failed s) = totals_of (sink_answers acts).
Proof.
  unfold run_export.
  destruct (mode_of_run settings mode) as [m|e] eqn:Hmode; [|done].
  destruct (_make_client m) as [send|e]; [|done].
  intros H. apply export_loop_summary in H as (Hm & Hc & Hp & Hb & Ht); [|done].
  rewrite Hm, Hb. by repeat split.
Qed.

(** X8. What the summary of a run that returns says. Its mode is the mode
    the run settled on: the argument, or without one the setting
    [export_mode], or else the setting [siem_export_mode], in lower case.
    Its cursor is the value the cursor collection holds for that mode after
    the run; its page count is the number of batches handed to the sink,
    each of which the sink answered; and its sent and failed totals are the
    answers of the sink added up by
    [total_ok += int(..); total_fail += int(..)] inside the handler that
    drops an answer [int] rejects. *)
Theorem summary_reports_the_run (settings : Config.Settings) (fuel : nat)
    (mode : option string) (st st' : state W) (acts : list (action ecs))
    (s : summary) :
  run_export http_get _make_client settings fuel mode st
    = (st', acts, Returned s) →
  mode_of_run settings mode = Ok (s_mode s) ∧
  (∀ m, mode = Some m → m ≠ EmptyString → s_mode s = lower m) ∧
  (PyText.falsy mode = true →
   Config.or_else (Config.field settings "export_mode")
                  (Config.field settings "siem_export_mode")
   = Config.VStr (Config.text
       (Config.or_else (Config.field settings "export_mode")
                       (Config.field settings "siem_export_mode"))) ∧
   s_mode s = lower (Config.text
       (Config.or_else (Config.field settings "export_mode")
                       (Config.field settings "siem_export_mode")))) ∧
  s_cursor s = _get_cursor (s_mode s) st' ∧
  s_pages s = length (batches acts) ∧
  length (sink_answers acts) = length (batches acts) ∧
  (s_sent s, s_failed s) = totals_of (sink_answers acts).
Proof.
  intros Hrun.
  apply run_export_summary in Hrun as (Hmode & Hc & Hp & Hb & Ht).
  split; [done|]. split.
  { intros m0 -> Hne. rewrite mode_of_run_given in Hmode by done.
    by injection Hmode. }
  split; [|done].
  intros Hf. rewrite mode_of_run_fallback in Hmode by done.
  destruct (Config.or_else _ _); try done. by injection Hmode as <-.
Qed.

(** Each answer in the log of a run that returns is the answer of the sink
    to the batch beside it. *)
Lemma export_loop_answers (fuel : nat) (mode : string) (send : client W ecs)
    (st : state W) (cur : option string) (totals : Z * Z) (pages : nat)
    (st' : state W) (acts : list (action ecs)) (s : summary) :
  export_loop http_get fuel mode send st cur totals pages
    = (st', acts, Returned s) →
  Forall2 (λ batch res, ∃ w w', send w batch = (w', Ok res))
          (batches acts) (sink_answers acts).
Proof.
  revert st cur totals pages st' acts s.
  induction fuel as [|fuel IH]; intros st cur totals pages st' acts s; [done|].
  cbn [export_loop].
  destruct (_fetch_page http_get cur st) as [st1 [data|e]]; [|done].
  destruct (events data) as [|ev evs] eqn:Hev.
  { intros [= <- <- <-]. constructor. }
  destruct (send (world st1) (ev :: evs)) as [w2 [res|e]] eqn:Hsend; [|done].
  destruct (cursor_param (next_cursor data)) as [c|] eqn:Hn.
  - destruct (export_loop http_get fuel mode send _ (Some c) _ _)
      as [[st'' acts''] out''] eqn:Hloop.
    intros [= <- <- ->]. apply IH in Hloop.
    destruct (sink_answers_step (cursor_param cur) data (ev :: evs) res
                (cursor_key mode) c acts'') as [-> ->].
    constructor; [by eauto|done].
  - intros [= <- <- <-]. cbn. constructor; [by eauto|constructor].
Qed.

Lemma run_export_answers (settings : Config.Settings) (fuel : nat)
    (mode : option string) (st st' : state W) (acts : list (action ecs))
    (s : summary) :
  run_export http_get _make_client settings fuel mode st
    = (st', acts, Returned s) →
  ∃ send, _make_client (s_mode s) = Ok send ∧
          Forall2 (λ batch res, ∃ w w', send w batch = (w', Ok res))
                  (batches acts) (sink_answers acts).
Proof.
  unfold run_export.
  destruct (mode_of_run settings mode) as [m|e] eqn:Hmode; [|done].
  destruct (_make_client m) as [send|e] eqn:Hclient; [|done].
  intros H. exists send.
  pose proof (export_loop_summary _ _ _ _ _ _ _ _ _ _ H eq_refl) as (-> & _).
  split; [done|]. by eapply export_loop_answers.
Qed.

End walker.

(** A run without a mode under the setting [EXPORT_MODE=File]: one page of
    one event goes to the file sink. *)
Lemma summary_reports_the_run_witness :
  ∃ st' acts s,
    run_export one_page_api (Sinks.file_world_client Sinks.file_settings)
      Sinks.file_settings 5 None {| world := (); cursors := ∅ |}
      = (st', acts, Returned s) ∧
    s_mode s = "file" ∧ s_cursor s = _get_cursor "file" st' ∧
    s_pages s = 1 ∧ (s_sent s, s_failed s) = (1%Z, 0%Z).
Proof.
  destruct (run_export one_page_api (Sinks.file_world_client Sinks.file_settings)
              Sinks.file_settings 5 None {| world := (); cursors := ∅ |})
    as [[st' acts] out] eqn:Hrun.
  assert (∃ s, out = Returned s ∧ s_mode s = "file" ∧ sink_answers acts
            = [{| ok := CInt 1; failed := CInt 0 |}] ∧ length (batches acts) = 1)
    as (s & -> & Hmode & Hans & Hlen).
  { vm_compute in Hrun. injection Hrun as <- <- <-. eexists. by repeat split. }
  exists st', acts, s. split; [done|].
  destruct (summary_reports_the_run one_page_api
              (Sinks.file_world_client Sinks.file_settings) Sinks.file_settings 5 None
              _ _ _ _ Hrun) as (_ & _ & _ & Hc & Hp & _ & Ht).
  split; [exact Hmode|]. split; [by rewrite <- Hmode|]. split; [by rewrite Hp|].
  by rewrite Ht, Hans.
Defined.

End ExportRunFacts.

(** ** The sink clients *)

Module SinksFacts.
Import PyStr PyText Config ExporterJob Sinks ExportRun.

Lemma length_concat_full {A} (k : nat) (ls : list (list A)) :
  Forall (λ batch, length batch = k) ls → length (concat ls) = k * length ls.
Proof.
  induction 1 as [|x ls Hx _ IH]; cbn; [lia|]. rewrite length_app, IH, Hx. lia.
Qed.

Section clients.
Context {W ecs : Type}.
Context (post : W → string → list (string * string) → string
                → W * result post_answer).
Context (hec_line : list value → ecs → string).
Context (bulk_action : string → string) (bulk_doc : ecs → string).

Lemma splunk_flush_full (c : splunk_client) (b : batcher) (done : list string)
    (w' : W) (b' : batcher) :
  concat (b_posted b) ++ b_lines b = done →
  Forall (λ batch, length batch = 500) (b_posted b) →
  length (b_lines b) = 500 →
  b_ok b + b_fail b = length (concat (b_posted b)) →
  splunk_flush post c b = (w', Ok b') →
  batching 500 b' done ∧ b_ok b' + b_fail b' = length (concat (b_posted b')).
Proof.
  intros Hdone Hfull Hlen Hsum. unfold splunk_flush.
  destruct (b_lines b) as [|l ls] eqn:Hl; [done|].
  destruct (post _ _ _ _) as [w [a|e]]; [|done].
  intros [= <- <-]. unfold batching, posted. cbn. rewrite Hl.
  rewrite concat_app. cbn. rewrite !app_nil_r.
  split; [split; [done|split; [|lia]]|].
  - apply Forall_app. split; [done|]. by apply Forall_singleton.
  - rewrite length_app. cbn in Hlen. case_bool_decide; cbn; lia.
Qed.

Lemma splunk_loop_batching (c : splunk_client) (evs : list ecs) (b : batcher)
    (done : list string) (w' : W) (b' : batcher) :
  batching 500 b done →
  b_ok b + b_fail b = length (concat (b_posted b)) →
  splunk_loop post hec_line c evs b = (w', Ok b') →
  batching 500 b' (done ++ (hec_line (hec_fields c) <$> evs)) ∧
  b_ok b' + b_fail b' = length (concat (b_posted b')).
Proof.
  revert b done. induction evs as [|ev evs IH]; intros b done Hb Hsum.
  - cbn. intros [= <- <-]. by rewrite app_nil_r.
  - cbn [splunk_loop]. cbv zeta.
    set (b1 := add_line (hec_line (hec_fields c) ev) b).
    destruct Hb as (Hdone & Hfull & Hlen).
    assert (concat (b_posted b1) ++ b_lines b1
            = done ++ [hec_line (hec_fields c) ev]) as Hdone1.
    { unfold b1, add_line. cbn. by rewrite app_assoc, Hdone. }
    assert (length (b_lines b1) = S (length (b_lines b))) as Hlen1.
    { unfold b1, add_line. cbn. rewrite length_app. cbn. lia. }
    rewrite fmap_cons, cons_middle, app_assoc.
    case_bool_decide as Hfullnow.
    + destruct (splunk_flush post c b1) as [w2 [b2|e]] eqn:Hflush; [|done].
      apply (splunk_flush_full _ _ (done ++ [hec_line (hec_fields c) ev]))
        in Hflush as [Hb2 Hsum2]; [|done|done|lia|done].
      apply IH; done.
    + apply IH; [|done]. split; [done|]. split; [done|]. lia.
Qed.

(** The batches of a finished [send]: full batches and, when lines are left
    over, one last batch that is not full. *)
Lemma splunk_run_shape (c : splunk_client) (w w' : W) (evs : list ecs)
    (b : batcher) :
  splunk_run post hec_line c w evs = (w', Ok b) →
  b_lines b = [] ∧
  concat (b_posted b) = hec_line (hec_fields c) <$> evs ∧
  b_ok b + b_fail b = length evs ∧
  ∃ full last,
    b_posted b = full ++ last ∧
    Forall (λ batch, length batch = 500) full ∧
    (last = [] ∨ ∃ x, last = [x] ∧ 0 < length x < 500).
Proof.
  unfold splunk_run.
  destruct (splunk_loop post hec_line c evs (new_batcher w)) as [w1 [b1|e]] eqn:Hloop;
    [|done].
  apply (splunk_loop_batching _ _ _ []) in Hloop as [(Hdone & Hfull & Hlen) Hsum];
    [|by repeat split; cbn; try lia|done].
  rewrite app_nil_l in Hdone.
  unfold splunk_flush. destruct (b_lines b1) as [|l ls] eqn:Hl.
  - intros [= <- <-]. rewrite app_nil_r in Hdone.
    split; [done|]. split; [done|]. split.
    { rewrite Hsum, Hdone. by rewrite length_fmap. }
    exists (b_posted b1), []. rewrite app_nil_r. split; [done|]. split; [done|by left].
  - destruct (post _ _ _ _) as [w2 [a|e]]; [|done].
    intros [= <- <-]. unfold posted. cbn. rewrite Hl.
    split; [done|]. rewrite concat_app. cbn. rewrite app_nil_r.
    split; [done|]. split.
    { rewrite <- (length_fmap (hec_line (hec_fields c)) evs), <- Hdone.
      rewrite length_app. cbn. case_bool_decide; cbn; lia. }
    exists (b_posted b1), [l :: ls]. split; [done|]. split; [done|].
    right. exists (l :: ls). split; [done|]. cbn in *. lia.
Qed.

(** X9. The batches of the Splunk client. When [send] returns, every event
    went out in exactly one POST, in order: the batches posted, put end to
    end, are the lines of the events; each batch has between 1 and 500
    lines and every batch but the last has 500, so that n events take
    ceil(n / 500) requests (none for no event); and the two counts returned
    add up to the number of events. *)
Theorem splunk_send_batches (c : splunk_client) (w w' : W) (evs : list ecs)
    (b : batcher) :
  splunk_run post hec_line c w evs = (w', Ok b) →
  splunk_send post hec_line c w evs = (w', Ok (counts b)) ∧
  concat (b_posted b) = hec_line (hec_fields c) <$> evs ∧
  b_ok b + b_fail b = length evs ∧
  length (b_posted b) = (length evs + 499) / 500 ∧
  ∀ i batch, b_posted b !! i = Some batch →
    0 < length batch ≤ 500 ∧ (S i < length (b_posted b) → length batch = 500).
Proof.
  intros Hrun. split; [by unfold splunk_send; rewrite Hrun|].
  apply splunk_run_shape in Hrun
    as (_ & Hall & Hsum & full & last & Hposted & Hfull & Hlast).
  split; [done|]. split; [done|].
  assert (length evs = length (concat (b_posted b))) as Hn.
  { by rewrite Hall, length_fmap. }
  rewrite Hposted, concat_app, length_app, (length_concat_full 500 full) in Hn
    by done.
  split.
  - rewrite Hposted, length_app.
    destruct Hlast as [->|(x & -> & Hx)]; cbn [concat length app] in *.
    + apply (Nat.div_unique _ _ _ 499); lia.
    + rewrite app_nil_r in Hn.
      apply (Nat.div_unique _ _ _ (length x - 1)); lia.
  - intros i batch Hi. rewrite Hposted in Hi |- *.
    apply lookup_app_Some in Hi as [Hi|[Hge Hi]].
    + pose proof (Forall_lookup_1 _ _ _ _ Hfull Hi) as Hb. cbn beta in Hb. lia.
    + destruct Hlast as [->|(x & -> & Hx)]; [done|].
      apply list_lookup_singleton_Some in Hi as [Hi <-].
      rewrite length_app. cbn [length]. lia.
Qed.

(** With a transport that answers every request, [send] returns. *)
Lemma splunk_run_returns (c : splunk_client) (w : W) (evs : list ecs) :
  (∀ w u h body, ∃ w' a, post w u h body = (w', Ok a)) →
  ∃ w' b, splunk_run post hec_line c w evs = (w', Ok b).
Proof.
  intros Hpost.
  assert (∀ b, ∃ w' b', splunk_flush post c b = (w', Ok b')) as Hflush.
  { intros b. unfold splunk_flush. destruct (b_lines b); [by eauto|].
    destruct (Hpost (b_world b) (hec_url c) (hec_hdr c) (join nl (s :: l)))
      as (w' & a & ->). eauto. }
  assert (∀ evs b, ∃ w' b', splunk_loop post hec_line c evs b = (w', Ok b'))
    as Hloop.
  { clear evs. induction evs as [|ev evs IH]; intros b; cbn; [by eauto|].
    case_bool_decide; [|apply IH].
    destruct (Hflush (add_line (hec_line (hec_fields c) ev) b)) as (w' & b' & ->).
    apply IH. }
  unfold splunk_run. destruct (Hloop evs (new_batcher w)) as (w1 & b1 & ->).
  apply Hflush.
Qed.

(** *** The Elastic client *)

Lemma elastic_flush_counts (c : elastic_client) (b : batcher) (w' : W)
    (b' : batcher) :
  Nat.Even (length (b_lines b)) →
  2 * (b_ok b + b_fail b) = length (concat (b_posted b)) →
  elastic_flush post c b = (w', Ok b') →
  b_lines b' = [] ∧
  concat (b_posted b') = concat (b_posted b) ++ b_lines b ∧
  2 * (b_ok b' + b_fail b') = length (concat (b_posted b')) ∧
  (b_lines b = [] ∧ b_posted b' = b_posted b ∨
   b_lines b ≠ [] ∧ b_posted b' = b_posted b ++ [b_lines b]).
Proof.
  intros Heven Hsum. unfold elastic_flush.
  destruct (b_lines b) as [|l ls] eqn:Hl.
  { intros [= <- <-]. rewrite Hl, app_nil_r. repeat split; try done. by left. }
  destruct (post _ _ _ _) as [w [a|e]]; [|done].
  assert (∀ good, let b2 := posted w good (length (l :: ls) / 2) b in
            b_lines b2 = [] ∧
            concat (b_posted b2) = concat (b_posted b) ++ l :: ls ∧
            2 * (b_ok b2 + b_fail b2) = length (concat (b_posted b2)) ∧
            (l :: ls = [] ∧ b_posted b2 = b_posted b ∨
             l :: ls ≠ [] ∧ b_posted b2 = b_posted b ++ [l :: ls])) as Hposted.
  { intros good b2. unfold b2, posted. cbn [b_lines b_posted b_ok b_fail].
    rewrite Hl, concat_app. cbn [concat]. rewrite app_nil_r.
    split; [done|]. split; [done|]. split; [|by right].
    rewrite length_app.
    destruct Heven as [m Hm].
    assert (length (l :: ls) `div` 2 = m) as ->.
    { symmetry. apply (Nat.div_unique _ _ _ 0); lia. }
    destruct good; lia. }
  case_bool_decide.
  - destruct (p_errors a) as [errors|e]; [|done].
    intros [= <- <-]. apply Hposted.
  - intros [= <- <-]. apply Hposted.
Qed.

Lemma elastic_loop_batching (c : elastic_client) (evs : list ecs) (b : batcher)
    (done : list string) (w' : W) (b' : batcher) :
  batching 1000 b done →
  Nat.Even (length (b_lines b)) →
  2 * (b_ok b + b_fail b) = length (concat (b_posted b)) →
  elastic_loop post bulk_action bulk_doc c evs b = (w', Ok b') →
  batching 1000 b' (done ++ bulk_lines bulk_action bulk_doc c evs) ∧
  Nat.Even (length (b_lines b')) ∧
  2 * (b_ok b' + b_fail b') = length (concat (b_posted b')).
Proof.
  revert b done. induction evs as [|ev evs IH]; intros b done Hb Heven Hsum.
  - cbn. intros [= <- <-]. by rewrite app_nil_r.
  - cbn [elastic_loop]. cbv zeta.
    set (b1 := add_line (bulk_doc ev) (add_line (bulk_action (es_index c)) b)).
    destruct Hb as (Hdone & Hfull & Hlen).
    assert (concat (b_posted b1) ++ b_lines b1
            = done ++ [bulk_action (es_index c); bulk_doc ev]) as Hdone1.
    { unfold b1, add_line. cbn [b_posted b_lines].
      rewrite <- Hdone, <- !app_assoc. done. }
    assert (length (b_lines b1) = S (S (length (b_lines b)))) as Hlen1.
    { unfold b1, add_line. cbn [b_lines]. rewrite !length_app. cbn [length]. lia. }
    assert (bulk_lines bulk_action bulk_doc c (ev :: evs)
            = [bulk_action (es_index c); bulk_doc ev] ++ bulk_lines bulk_action bulk_doc c evs) as ->
      by done.
    rewrite app_assoc.
    case_bool_decide as Hfullnow.
    + destruct (elastic_flush post c b1) as [w2 [b2|e]] eqn:Hflush; [|done].
      apply elastic_flush_counts in Hflush as (Hl2 & Hc2 & Hsum2 & [[Hnil _]|[_ Hp2]]);
        [| |destruct Heven as [m Hm]; exists (S m); lia|done].
      { rewrite Hnil in Hlen1. cbn in Hlen1. lia. }
      apply IH; [|rewrite Hl2; by exists 0|done].
      split; [by rewrite Hl2, app_nil_r, Hc2|]. split; [|rewrite Hl2; cbn; lia].
      rewrite Hp2. apply Forall_app. split; [done|].
      apply Forall_singleton. destruct Heven as [m Hm]. lia.
    + apply IH; [|destruct Heven as [m Hm]; exists (S m); lia|done].
      split; [done|]. split; [done|]. lia.
Qed.

(** X10. The batches of the Elastic client. When [send] returns, the lines
    posted, put end to end, are the action line and the document line of
    each event in order; no request carries more than 1000 lines, that is
    500 events; and the two counts returned add up to the number of
    events. *)
Theorem elastic_send_batches (c : elastic_client) (w w' : W) (evs : list ecs)
    (b : batcher) :
  elastic_run post bulk_action bulk_doc c w evs = (w', Ok b) →
  elastic_send post bulk_action bulk_doc c w evs = (w', Ok (counts b)) ∧
  concat (b_posted b) = bulk_lines bulk_action bulk_doc c evs ∧
  b_ok b + b_fail b = length evs ∧
  ∀ batch, batch ∈ b_posted b → 0 < length batch ≤ 1000.
Proof.
  intros Hrun. split; [by unfold elastic_send; rewrite Hrun|].
  unfold elastic_run in Hrun.
  destruct (elastic_loop post bulk_action bulk_doc c evs (new_batcher w))
    as [w1 [b1|e]] eqn:Hloop; [|done].
  apply (elastic_loop_batching _ _ _ []) in Hloop
    as ((Hdone & Hfull & Hlen) & Heven & Hsum);
    [|by repeat split; cbn; try lia|by exists 0|done].
  rewrite app_nil_l in Hdone.
  apply elastic_flush_counts in Hrun as (Hl & Hc & Hsum' & Hshape); [|done|done].
  rewrite Hdone in Hc. split; [done|].
  assert (length (bulk_lines bulk_action bulk_doc c evs) = 2 * length evs) as Hn.
  { clear. induction evs as [|ev evs IH]; [done|].
    change (bulk_lines bulk_action bulk_doc c (ev :: evs))
      with ([bulk_action (es_index c); bulk_doc ev] ++ bulk_lines bulk_action bulk_doc c evs).
    rewrite length_app, IH. cbn [length]. lia. }
  split; [rewrite Hc, Hn in Hsum'; lia|].
  intros batch Hin.
  assert (batch ∈ b_posted b1 ∨ batch = b_lines b1 ∧ b_lines b1 ≠ []) as [Hold|[-> Hne]].
  { destruct Hshape as [[_ Hp]|[Hne Hp]]; rewrite Hp in Hin; [by left|].
    apply elem_of_app in Hin as [?|Hin]; [by left|].
    apply list_elem_of_singleton in Hin. by right. }
  - rewrite Forall_forall in Hfull. rewrite (Hfull _ Hold). lia.
  - destruct (b_lines b1); [done|]. cbn [length] in *. lia.
Qed.

(** *** The generic client, the file sink and the choice of the client *)

Context (dumps : ecs → string) (dumps_array : list ecs → string).
Context (b64 : string → string).
Context (loads_headers : string → option (list (string * string))).
Context (mkdir : string → result unit).
Context (write_file : W → string → string → W * result unit).
Context (http_get : W → option string → W * result (response ecs)).

(** Answers that leave the totals as they are. *)
Lemma totals_unchanged (answers : list send_result) (t : Z * Z) :
  Forall (λ res, ∀ t, add_totals res t = t) answers →
  foldl (λ t res, add_totals res t) t answers = t.
Proof.
  intros H. revert t. induction H as [|res answers Hres _ IH]; intros t; [done|].
  cbn. by rewrite Hres.
Qed.

(** X11. A run of the export job with the generic client in NDJSON mode
    reports no totals. The client answers every batch with a value [int]
    rejects under [ok] or under [failed], the handler around the two
    additions drops the exception, and the summary of the run says 0 sent
    and 0 failed whatever the sink answered, while its page count still
    counts the batches. *)
Theorem ndjson_run_reports_no_totals (c : generic_client) (settings : Settings)
    (fuel : nat) (mode : option string) (st st' : state W)
    (acts : list (action ecs)) (s : summary) :
  g_ndjson c = true →
  run_export http_get (λ _, Ok (generic_send post dumps dumps_array c))
    settings fuel mode st = (st', acts, Returned s) →
  s_sent s = 0%Z ∧ s_failed s = 0%Z ∧ s_pages s = length (batches acts).
Proof.
  intros Hnd Hrun.
  destruct (ExportRunFacts.run_export_summary _ _ _ _ _ _ _ _ _ Hrun)
    as (_ & _ & Hp & _ & Ht).
  apply ExportRunFacts.run_export_answers in Hrun as (send & [= <-] & Hans).
  split_and!; [| |done].
  all: unfold totals_of in Ht; rewrite totals_unchanged in Ht;
    [by injection Ht|].
  all: apply Forall2_Forall_r with (1 := Hans); apply Forall_forall;
    intros batch _ res (w & w' & Hsend); unfold generic_send in Hsend;
    rewrite Hnd in Hsend; destruct (post _ _ _ _) as [w1 [a|e]];
    [|by injection Hsend]; injection Hsend as _ <-; intros [t1 t2];
    unfold add_totals; cbn; repeat case_bool_decide; cbn; try done;
    try lia; by rewrite Z.add_0_r.
Qed.

(** The answers of the file sink, added up. *)
Lemma file_totals (bs : list (list ecs)) (answers : list send_result) (t : Z * Z) :
  Forall2 (λ batch res, res = {| ok := CInt (Z.of_nat (length batch));
                                failed := CInt 0 |}) bs answers →
  foldl (λ t res, add_totals res t) t answers
  = ((t.1 + Z.of_nat (length (concat bs)))%Z, t.2).
Proof.
  intros H. revert t. induction H as [|b res bs answers -> _ IH]; intros [t1 t2].
  - cbn. by rewrite Z.add_0_r.
  - cbn [foldl concat]. rewrite IH. unfold add_totals. cbn.
    rewrite length_app. f_equal; lia.
Qed.

Lemma getattr_undeclared (settings : Settings) (name : string) :
  name ∉ declared → getattr settings name = Raise AttributeError.
Proof. intros H. unfold getattr. by rewrite bool_decide_eq_false_2. Qed.

(** What [_make_client] gives for a mode in lower case: the file sink for
    the mode file, an exception for every other mode. *)
Lemma make_client_cases (settings : Settings) (m : string) :
  lower m = m →
  _make_client post dumps dumps_array hec_line bulk_action bulk_doc b64
    loads_headers mkdir write_file settings m
  = if bool_decide (m = "file") then
      let outdir :=
        text_or (getattr_or settings "siem_export_dir" (VStr "/exports"))
                "/exports" in
      bind (mkdir outdir) (λ _, Ok (file_send dumps write_file outdir))
    else Raise (if bool_decide (m ∈ ["splunk"; "elastic"; "generic"])
                then AttributeError else RuntimeError).
Proof.
  intros Hm. unfold _make_client. cbv zeta. rewrite Hm.
  repeat case_bool_decide; try done.
  all: try (rewrite getattr_undeclared; [done|];
            apply (bool_decide_unpack _); vm_compute; exact I).
  all: try (subst m; done).
  all: exfalso; set_unfold; intuition congruence.
Qed.

(** The sends of a client [_make_client] built count every event of the
    batch as sent and none as failed. *)
Lemma made_client_accepts (settings : Settings) (m : string)
    (send : client W ecs) (w w' : W) (batch : list ecs) (res : send_result) :
  lower m = m →
  _make_client post dumps dumps_array hec_line bulk_action bulk_doc b64
    loads_headers mkdir write_file settings m = Ok send →
  send w batch = (w', Ok res) →
  m = "file" ∧
  res = {| ok := CInt (Z.of_nat (length batch)); failed := CInt 0 |}.
Proof.
  intros Hm Hclient Hsend. rewrite make_client_cases in Hclient by done.
  case_bool_decide as Hfile; [|done]. split; [done|].
  cbv zeta in Hclient. destruct (mkdir _) as [[]|e]; [|done].
  cbn in Hclient. injection Hclient as <-.
  unfold file_send in Hsend. destruct (write_file _ _ _) as [w1 [[]|e]];
    by injection Hsend.
Qed.

(** X12. With the settings class of app/config.py only the file mode gives
    the export job a client. The constructor arguments of the Splunk, the
    Elastic and the generic client are read off fields the class does not
    declare, so for these modes [_make_client] raises [AttributeError]; any
    other name raises [RuntimeError]. The mode is the one the run settles
    on: the argument, or without one the setting [export_mode], or else the
    setting [siem_export_mode], in lower case. Whenever that is not file,
    whatever the values of the settings, the run ends there: no request is
    made and no cursor is written. So does a run without a mode under the
    default [export_mode], which is splunk. *)
Theorem export_needs_file_mode (settings : Settings) (fuel : nat)
    (mode : option string) (st : state W) :
  mode_of_run settings mode ≠ Ok "file" →
  run_export http_get
    (_make_client post dumps dumps_array hec_line bulk_action bulk_doc b64
       loads_headers mkdir write_file settings) settings fuel mode st
  = (st, [],
     Raised match mode_of_run settings mode with
            | Ok m =>
                if bool_decide (m ∈ ["splunk"; "elastic"; "generic"])
                then AttributeError else RuntimeError
            | Raise e => e
            end) ∧
  (falsy mode = true → field settings "export_mode" = VStr "splunk" →
   run_export http_get
     (_make_client post dumps dumps_array hec_line bulk_action bulk_doc b64
        loads_headers mkdir write_file settings) settings fuel mode st
   = (st, [], Raised AttributeError)).
Proof.
  intros Hfile.
  assert (run_export http_get
            (_make_client post dumps dumps_array hec_line bulk_action bulk_doc
               b64 loads_headers mkdir write_file settings) settings fuel mode st
          = (st, [],
             Raised match mode_of_run settings mode with
                    | Ok m =>
                        if bool_decide (m ∈ ["splunk"; "elastic"; "generic"])
                        then AttributeError else RuntimeError
                    | Raise e => e
                    end)) as Hrun.
  { unfold run_export.
    destruct (mode_of_run settings mode) as [m|e] eqn:Hmode; [|done].
    rewrite make_client_cases by (by eapply ExportRunFacts.mode_of_run_lower).
    rewrite bool_decide_eq_false_2; [done|]. by intros ->. }
  split; [exact Hrun|].
  intros Hf Hmode. rewrite Hrun.
  rewrite ExportRunFacts.mode_of_run_fallback by done.
  by rewrite Hmode.
Qed.

(** X13. A run of the export job that returns is a run in file mode, and its
    summary counts what was written: the sent total is the number of events
    in the batches handed to the sink, the failed total is 0 and the page
    count is the number of batches. *)
Theorem file_mode_run_counts (settings : Settings) (fuel : nat)
    (mode : option string) (st st' : state W) (acts : list (action ecs))
    (s : summary) :
  run_export http_get
    (_make_client post dumps dumps_array hec_line bulk_action bulk_doc b64
       loads_headers mkdir write_file settings) settings fuel mode st
  = (st', acts, Returned s) →
  mode_of_run settings mode = Ok "file" ∧
  s_mode s = "file" ∧
  s_sent s = Z.of_nat (length (concat (batches acts))) ∧
  s_failed s = 0%Z ∧
  s_pages s = length (batches acts).
Proof.
  intros Hrun.
  destruct (ExportRunFacts.run_export_summary _ _ _ _ _ _ _ _ _ Hrun)
    as (Hmode & _ & Hp & _ & Ht).
  apply ExportRunFacts.run_export_answers in Hrun as (send & Hclient & Hans).
  pose proof (ExportRunFacts.mode_of_run_lower _ _ _ Hmode) as Hlow.
  assert (s_mode s = "file") as Hfile.
  { rewrite make_client_cases in Hclient by done. by case_bool_decide. }
  split; [by rewrite Hmode, Hfile|]. split; [done|].
  unfold totals_of in Ht. rewrite (file_totals (batches acts)) in Ht.
  - injection Ht as -> ->. by rewrite Z.add_0_l.
  - eapply Forall2_impl; [exact Hans|]. intros batch res (w & w' & Hsend).
    by eapply made_client_accepts.
Qed.

End clients.

(** Three events through a transport that answers 200: one request with the
    three lines. *)
Lemma splunk_send_batches_witness :
  let post := λ (w : nat) (_ : string) (_ : list (string * string)) (_ : string),
                (S w, Ok {| p_status := 200; p_errors := Ok false |}) in
  let c := SplunkHECClient "https://splunk/" "t" [] in
  splunk_send post (λ _ ev, ev) c 0 ["a"; "b"; "c"]
  = (1, Ok {| ok := CInt 3; failed := CInt 0 |}).
Proof.
  intros post c.
  destruct (splunk_run_returns post (λ _ ev, ev) c 0 ["a"; "b"; "c"])
    as (w' & b & Hrun); [by eauto|].
  destruct (splunk_send_batches post (λ _ ev, ev) c 0 w' ["a"; "b"; "c"] b Hrun)
    as (Hsend & _).
  rewrite Hsend. vm_compute in Hrun. by injection Hrun as <- <-.
Defined.

Lemma elastic_send_batches_witness :
  let post := λ (w : nat) (_ : string) (_ : list (string * string)) (_ : string),
                (S w, Ok {| p_status := 200; p_errors := Ok true |}) in
  let c := ElasticBulkClient (λ s, s) "https://es" "idx" None None None in
  elastic_send post (λ i, i) (λ ev, ev) c 0 ["a"; "b"]
  = (1, Ok {| ok := CInt 0; failed := CInt 2 |}).
Proof.
  intros post c.
  destruct (elastic_run post (λ i, i) (λ ev, ev) c 0 ["a"; "b"])
    as [w' [b|e]] eqn:Hrun; [|by vm_compute in Hrun].
  destruct (elastic_send_batches post (λ i, i) (λ ev, ev) c 0 w' ["a"; "b"] b Hrun)
    as (Hsend & _).
  rewrite Hsend. vm_compute in Hrun. by injection Hrun as <- <-.
Defined.

(** A world for the runs below: the API with one page of one event, a
    transport that answers 200 and a file system that takes every write. *)
Lemma ndjson_run_reports_no_totals_witness :
  let post := λ (w : unit) (_ : string) (_ : list (string * string)) (_ : string),
                (w, Ok {| p_status := 200; p_errors := Ok false |}) in
  let c := GenericHTTPClient "https://sink" [] true in
  ∃ st' acts s,
    run_export one_page_api
      (λ _, Ok (generic_send post (λ _ : nat, "{}") (λ _, "[]") c))
      file_settings 5 (Some "generic")
      {| world := (); cursors := ∅ |} = (st', acts, Returned s) ∧
    s_sent s = 0%Z ∧ s_failed s = 0%Z ∧ s_pages s = 1.
Proof.
  intros post c.
  destruct (run_export one_page_api
              (λ _, Ok (generic_send post (λ _ : nat, "{}") (λ _, "[]") c))
              file_settings 5 (Some "generic") {| world := (); cursors := ∅ |})
    as [[st' acts] out] eqn:Hrun.
  assert (∃ s, out = Returned s ∧ length (batches acts) = 1) as (s & -> & Hlen).
  { vm_compute in Hrun. injection Hrun as <- <- <-. by eexists. }
  exists st', acts, s. split; [done|].
  destruct (ndjson_run_reports_no_totals post (λ _ : nat, "{}") (λ _, "[]")
              one_page_api c file_settings 5 (Some "generic") _ _ _ _ eq_refl Hrun)
    as (H1 & H2 & H3).
  by rewrite H1, H2, H3.
Defined.

(** The route /exports/run with an empty mode, under the default
    [export_mode]. *)
Lemma export_needs_file_mode_witness :
  let settings := {| field := λ name,
                       if bool_decide (name = "export_mode") then VStr "splunk"
                       else VStr "file" |} in
  run_export one_page_api (file_world_client settings) settings 5
    (Some EmptyString) {| world := (); cursors := ∅ |}
  = ({| world := (); cursors := ∅ |}, [], Raised AttributeError).
Proof.
  intros settings. unfold file_world_client.
  eapply export_needs_file_mode; [|done..].
  vm_compute. discriminate.
Defined.

(** The same route under [EXPORT_MODE=File]. *)
Lemma file_mode_run_counts_witness :
  ∃ st' acts s,
    run_export one_page_api (file_world_client file_settings) file_settings 5
      (Some EmptyString) {| world := (); cursors := ∅ |}
    = (st', acts, Returned s) ∧
    s_mode s = "file" ∧ s_sent s = 1%Z ∧ s_failed s = 0%Z ∧ s_pages s = 1.
Proof.
  destruct (run_export one_page_api (file_world_client file_settings)
              file_settings 5 (Some EmptyString) {| world := (); cursors := ∅ |})
    as [[st' acts] out] eqn:Hrun.
  assert (∃ s, out = Returned s ∧ batches acts = [[1]]) as (s & -> & Hb).
  { vm_compute in Hrun. injection Hrun as <- <- <-. by eexists. }
  exists st', acts, s. split; [done|].
  unfold file_world_client in Hrun.
  destruct (file_mode_run_counts _ _ _ _ _ _ _ _ _ _ _ _ _ _ _ _ _ _ Hrun)
    as (_ & H0 & H1 & H2 & H3).
  by rewrite H0, H1, H2, H3, Hb.
Defined.

End SinksFacts.

(** ** The cursor of the export job and the sink *)

Module ExportCursorFacts.
Import PyStr PyText Config ExporterJob Sinks ExportRun.

Section job.
Context {W ecs : Type}.
Context (post : W → string → list (string * string) → string
                → W * result post_answer).
Context (dumps : ecs → string) (dumps_array : list ecs → string).
Context (hec_line : list value → ecs → string).
Context (bulk_action : string → string) (bulk_doc : ecs → string).
Context (b64 : string → string).
Context (loads_headers : string → option (list (string * string))).
Context (mkdir : string → result unit).
Context (write_file : W → string → string → W * result unit).
Context (http_get : W → option string → W * result (response ecs)).

(** C4. In one run of [run_export], with the client [_make_client] builds,
    the cursor of the destination is written only right after the sink
    client has reported the batch of a page accepted, and is then set to the
    continuation token of that page. A send that returns has counted every
    event of its batch as sent and none as failed: the one client the
    settings class lets [_make_client] build is the file sink, which fails
    by raising. The cursor collection changes by these writes alone. When
    the send (or the fetch) of a page raises, the run ends there and the
    stored cursor is the one that page was fetched with, so the next run
    starts by fetching with the same cursor. *)
Theorem cursor_follows_accepted_send (settings : Settings) (fuel : nat)
    (mode : option string) (st : state W) :
  let job := run_export http_get
               (_make_client post dumps dumps_array hec_line bulk_action
                  bulk_doc b64 loads_headers mkdir write_file settings)
               settings in
  let r := job fuel mode st in
  let st' := r.1.1 in
  let acts := r.1.2 in
  let out := r.2 in
  cursors st' = replay acts (cursors st) ∧
  (∀ pre k v post, acts = pre ++ SetCursor k v :: post →
     ∃ pre' c data res,
       pre = pre' ++ [Fetch c (Ok data); Send (events data) (Ok res)] ∧
       accepted (Send (events data) (Ok res)) ∧
       cursor_param (next_cursor data) = Some v ∧
       k = cursor_key "file") ∧
  (∀ batch res, Send batch (Ok res) ∈ acts →
     res = {| ok := CInt (Z.of_nat (length batch)); failed := CInt 0 |}) ∧
  (∀ e, out = Raised e → acts ≠ [] →
     last_fetch acts = Some (cursor_param (_get_cursor "file" st')) ∧
     ∀ (fuel' : nat) (w : W),
       ∃ r2 rest,
         (job (S fuel') mode {| world := w; cursors := cursors st' |}).1.2 =
         Fetch (cursor_param (_get_cursor "file" st')) r2 :: rest).
Proof.
  intros job r st' acts out. subst st' acts out r job. unfold run_export.
  destruct (mode_of_run settings mode) as [m|e0] eqn:Hmode; cbn [fst snd].
  2:{ split; [done|]. split; [intros [|??] ????; done|].
      split; [intros ?? Hin; by apply elem_of_nil in Hin|]. by intros e _ ?. }
  pose proof (ExportRunFacts.mode_of_run_lower _ _ _ Hmode) as Hlow.
  destruct (_make_client post dumps dumps_array hec_line bulk_action bulk_doc
              b64 loads_headers mkdir write_file settings m)
    as [send|e0] eqn:Hclient; cbn [fst snd].
  2:{ split; [done|]. split; [intros [|??] ????; done|].
      split; [intros ?? Hin; by apply elem_of_nil in Hin|]. by intros e _ ?. }
  assert (m = "file") as ->.
  { rewrite SinksFacts.make_client_cases in Hclient by done. by case_bool_decide. }
  destruct (export_loop http_get fuel "file" send st (_get_cursor "file" st)
              (0%Z, 0%Z) 0) as [[st' acts] out] eqn:Hloop. cbn [fst snd].
  assert (∀ batch res, Send batch (Ok res) ∈ acts →
            res = {| ok := CInt (Z.of_nat (length batch)); failed := CInt 0 |})
    as Hsends.
  { intros batch res Hin.
    destruct (ExporterJobFacts.export_loop_sends _ _ _ _ _ _ _ _ _ _ _ Hloop
                batch res Hin) as (w & w' & Hsend).
    by eapply SinksFacts.made_client_accepts. }
  split; [eapply ExporterJobFacts.export_loop_replay; exact Hloop|].
  split.
  { intros pre k v post0 Hacts.
    destruct (ExporterJobFacts.export_loop_write_after_send _ _ _ _ _ _ _ _ _ _ _
                Hloop pre k v post0 Hacts) as (pre' & c & data & res & -> & Hn & ->).
    exists pre', c, data, res. split; [done|]. split; [|done].
    exists (events data), res. split; [done|].
    rewrite (Hsends (events data) res); [done|].
    rewrite Hacts. rewrite <- !app_assoc. cbn.
    apply elem_of_app. right. right. left. }
  split; [done|].
  intros e -> _.
  split; [eapply ExporterJobFacts.export_loop_raised; [|exact Hloop]; done|].
  intros fuel' w.
  apply (ExporterJobFacts.export_loop_first http_get fuel' "file" send
           {| world := w; cursors := cursors st' |}
           (_get_cursor "file" st') (0%Z, 0%Z) 0).
Qed.

End job.

(** The run of the resumability scenario: the file system fails on the
    write of the second page. The cursor stays at the token of the first
    page, and the next run fetches and sends the second page again. *)
Lemma cursor_follows_accepted_send_witness :
  let st0 : state nat := {| world := 0; cursors := ∅ |} in
  let job := run_export two_page_api (flaky_disk_client file_settings)
               file_settings in
  let run1 := job 5 None st0 in
  let run2 := job 5 None run1.1.1 in
  run1.2 = Raised OSError ∧
  _get_cursor "file" run1.1.1 = Some "t1" ∧
  last_fetch run1.1.2 = Some (Some "t1") ∧
  (∃ r rest, run2.1.2 = Fetch (Some "t1") r :: rest) ∧
  take 2 run2.1.2 =
    [Fetch (Some "t1") (Ok {| events := [2]; next_cursor := Some "t2" |});
     Send [2] (Ok {| ok := CInt 1; failed := CInt 0 |})].
Proof.
  intros st0 job run1 run2. subst job. unfold flaky_disk_client in *.
  destruct (cursor_follows_accepted_send
                     (λ (w : nat) (_ : string) (_ : list (string * string))
                        (_ : string),
                        (w, Ok {| p_status := 200; p_errors := Ok false |}))
                     (λ _ : nat, "{}") (λ _, "[]") (λ _ _, "{}") (λ i, i)
                     (λ _, "{}") (λ s, s) (λ _, None) (λ _, Ok ())
                     (λ w _ _, (S w, if bool_decide (w = 1) then Raise OSError
                                     else Ok ()))
                     two_page_api file_settings 5 None st0)
    as (_ & _ & _ & Hraised).
  destruct (Hraised OSError) as [Hlast Hnext].
  - vm_compute. reflexivity.
  - vm_compute. discriminate.
  - split; [vm_compute; reflexivity|].
    split; [vm_compute; reflexivity|].
    split; [vm_compute; reflexivity|].
    split; [|vm_compute; reflexivity].
    destruct (Hnext 4 (world run1.1.1)) as (r & rest & Hrun).
    exists r, rest. exact Hrun.
Defined.

End ExportCursorFacts.

(** ** The retry of the Slack connector *)

Module RetryFacts.
Import Retry.

Section retry.
Context {W A : Type}.
Context (call : W → W * call_result A).

Lemma retry_from_spec (remaining i : nat) (last : option error) (w : W) :
  let '(w', log, out) := retry_from call i remaining last w in
  calls log ≤ remaining ∧
  w' = world_after call (calls log) w ∧
  slept log = (λ j, 2 ^ N.of_nat j)%N <$> seq i (calls log - 1) ∧
  (∀ j, S j < calls log →
        ∃ e, nth_call call j w = Raises e ∧ retryable e = true) ∧
  match out with
  | Returns None => remaining = 0 ∧ last = None
  | Returns (Some a) =>
      ∃ k, calls log = S k ∧ nth_call call k w = Returns a
  | Raises e =>
      (remaining = 0 ∧ last = Some e) ∨
      ∃ k, calls log = S k ∧ nth_call call k w = Raises e ∧
           (retryable e = true → S k = remaining)
  end.
Proof.
  revert i last w. induction remaining as [|rest IH]; intros i last w.
  - cbn. split; [done|]. split; [done|]. split; [done|].
    split; [intros j; lia|]. destruct last; [by left|done].
  - cbn [retry_from]. destruct (call w) as [w1 r] eqn:Hcall.
    assert (nth_call call 0 w = r) as H0.
    { unfold nth_call. cbn. by rewrite Hcall. }
    assert (∀ j, nth_call call (S j) w = nth_call call j w1) as HS.
    { intros j. unfold nth_call. cbn. by rewrite Hcall. }
    assert (world_after call 1 w = w1) as Hw1.
    { cbn. by rewrite Hcall. }
    destruct r as [a|e].
    { cbn. split; [lia|]. split; [done|]. split; [done|].
      split; [intros j; lia|]. by exists 0. }
    destruct (retryable e) eqn:He.
    2:{ cbn. split; [lia|]. split; [done|]. split; [done|].
        split; [intros j; lia|]. right. exists 0. split; [done|].
        split; [done|]. intros; congruence. }
    destruct rest as [|rest'].
    { cbn. split; [lia|]. split; [done|]. split; [done|].
      split; [intros j; lia|]. right. exists 0. by split. }
    specialize (IH (S i) (Some e) w1).
    destruct (retry_from call (S i) (S rest') (Some e) w1) as [[w2 log] out].
    destruct IH as (Hle & Hw & Hs & Hfail & Hout).
    assert (0 < calls log) as Hpos.
    { destruct out as [[a|]|e']; [by destruct Hout as (k & -> & _); lia
        |by destruct Hout|destruct Hout as [[? _]|(k & -> & _)]; [done|lia]]. }
    cbn [calls slept]. split; [lia|]. split.
    { rewrite Hw. cbn. by rewrite Hcall. }
    split.
    { rewrite Hs. replace (S (calls log) - 1) with (S (calls log - 1)) by lia.
      done. }
    split.
    { intros [|j] Hj; [by exists e|]. rewrite HS. apply Hfail. lia. }
    destruct out as [[a|]|e'].
    + destruct Hout as (k & Hk & Hcallk). exists (S k). by rewrite Hk, HS.
    + by destruct Hout.
    + destruct Hout as [[? _]|(k & Hk & Hcallk & Hlast)]; [done|].
      right. exists (S k). rewrite Hk, HS. split; [done|]. split; [done|].
      intros Hr. by rewrite Hlast.
Qed.

(** X14. [_retry] calls until the first answer. It makes at most [retries]
    calls, one after the other; every call but the last raised one of the
    four network errors it catches, and after the call number [i] (from 0)
    it slept [base_delay * 2 ** i]. Its result is the result of the last
    call: the value returned, or the exception raised, which is either not
    one of the four (then it is passed on at once) or the error of the call
    number [retries]. With [retries = 0] nothing is called and [None] is
    returned. *)
Theorem retry_stops_at_first_answer (retries : nat) (w : W) :
  let '(w', log, out) := _retry call retries w in
  calls log ≤ retries ∧
  w' = world_after call (calls log) w ∧
  slept log = (λ j, 2 ^ N.of_nat j)%N <$> seq 0 (calls log - 1) ∧
  (∀ j, S j < calls log →
        ∃ e, nth_call call j w = Raises e ∧ retryable e = true) ∧
  match out with
  | Returns None => retries = 0
  | Returns (Some a) =>
      ∃ k, calls log = S k ∧ nth_call call k w = Returns a
  | Raises e =>
      ∃ k, calls log = S k ∧ nth_call call k w = Raises e ∧
           (retryable e = true → S k = retries)
  end.
Proof.
  unfold _retry. pose proof (retry_from_spec retries 0 None w) as H.
  destruct (retry_from call 0 retries None w) as [[w' log] out].
  destruct H as (Hle & Hw & Hs & Hfail & Hout).
  split; [done|]. split; [done|]. split; [done|]. split; [done|].
  destruct out as [[a|]|e]; [done|by destruct Hout|].
  by destruct Hout as [[_ ?]|?].
Qed.

End retry.

(** Two time-outs and then an answer: three calls, sleeps of one and two
    base delays. *)
Example retry_after_two_timeouts :
  _retry (λ w : nat, (S w, if bool_decide (w < 2) then Raises TimeoutError
                           else Returns w)) 3 0
  = (3, {| calls := 3; slept := [1; 2]%N |}, Returns (Some 2)).
Proof. reflexivity. Qed.

End RetryFacts.

(** ** The subscriptions and their deliveries *)

Module SubscriptionsFacts.
Import PyStr PyText Normalize Webhooks Listing Subscriptions.

Section store.
Context `{M : Mongo}.

Lemma delete_one_absent (oid : ObjectId) (store : list Subscription) :
  oid ∉ s_oid <$> store → delete_one oid store = (store, 0).
Proof.
  induction store as [|s store IH]; [done|]. cbn. intros Hnot.
  rewrite decide_False.
  - rewrite IH; [done|]. intros ?. apply Hnot. by right.
  - intros Heq. apply Hnot. rewrite <- Heq. by left.
Qed.

Lemma delete_one_appended (s : Subscription) (store : list Subscription) :
  s_oid s ∉ s_oid <$> store → delete_one (s_oid s) (store ++ [s]) = (store, 1).
Proof.
  induction store as [|s' store IH]; cbn.
  - intros _. by rewrite decide_True.
  - intros Hnot. rewrite decide_False.
    + rewrite IH; [done|]. intros ?. apply Hnot. by right.
    + intros Heq. apply Hnot. rewrite <- Heq. by left.
Qed.

(** X15. Registering and deleting a subscription is a round trip. The
    document [register_webhook] adds is listed, enabled, under the text of
    its new identifier, with the URL stripped and with no filter when none
    was given; [delete_webhook] with that text returns [True] and leaves the
    collection as it was before the registration; a second delete with the
    same text, and a delete with a text that is no identifier, return
    [False] and change nothing. *)
Theorem register_delete_round_trip (now : datetime) (url : string)
    (secret : option string) (filters : option (gmap string fval))
    (store : list Subscription) :
  let '(store1, oid) := register_webhook now url secret filters store in
  {| wi_id := oid_str oid; wi_url := strip url; wi_enabled := true;
     wi_filters := default ∅ filters |} ∈ list_webhooks store1 ∧
  length (list_webhooks store1) = S (length (list_webhooks store)) ∧
  delete_webhook (oid_str oid) store1 = (store, true) ∧
  delete_webhook (oid_str oid) store = (store, false) ∧
  ∀ text, parse_oid text = None → delete_webhook text store1 = (store1, false).
Proof.
  unfold register_webhook. cbv zeta.
  set (oid := new_oid (s_oid <$> store)).
  set (doc := {| s_oid := oid; s_url := strip url;
                 s_secret := strip (default "" secret);
                 s_filters := default ∅ filters; s_enabled := true;
                 s_created_at := now |}).
  assert (oid ∉ s_oid <$> store) as Hfresh by apply new_oid_fresh.
  split_and!.
  - unfold list_webhooks. apply list_elem_of_fmap. exists doc. split; [done|].
    rewrite sort_newest_perm. apply elem_of_app. right. by left.
  - unfold list_webhooks. rewrite !length_fmap, !sort_newest_perm, length_app.
    cbn. lia.
  - unfold delete_webhook. rewrite parse_oid_str.
    by rewrite (delete_one_appended doc).
  - unfold delete_webhook. rewrite parse_oid_str.
    by rewrite delete_one_absent.
  - intros text Hbad. unfold delete_webhook. by rewrite Hbad.
Qed.

End store.

Lemma match_filters_list_platform (event : Event) (filters : gmap string fval)
    (x : string) (l : list string) :
  filters !! "platform" = Some (FList (x :: l)) →
  match_filters event filters = Raise AttributeError.
Proof.
  intros Hp. unfold match_filters.
  rewrite bool_decide_eq_false_2.
  - cbv zeta. unfold text_differs. by rewrite Hp.
  - intros ->. by rewrite lookup_empty in Hp.
Qed.

(** The walk over a list that holds an enabled subscription whose platform
    filter is a non-empty list. *)
Lemma walk_stops_at_list_platform {D : Type} (d : Event → Webhook → D)
    (event : Event) (pre post : list Webhook) (bad : Webhook)
    (x : string) (l : list string) :
  w_enabled bad = true →
  w_filters bad !! "platform" = Some (FList (x :: l)) →
  try_deliver_to_all d event (pre ++ bad :: post)
  = ((try_deliver_to_all d event pre).1,
     Some (default AttributeError (try_deliver_to_all d event pre).2)).
Proof.
  intros Hen Hp. induction pre as [|w pre IH]; cbn.
  - by rewrite Hen, (match_filters_list_platform _ _ x l).
  - destruct (w_enabled w); [|done].
    destruct (match_filters event (w_filters w)) as [matched|e]; [|done].
    rewrite IH. destruct (try_deliver_to_all d event pre) as [out r].
    by destruct matched.
Qed.

Section blocked.
Context `{M : Mongo}.

(** X16. One subscription with a list under the platform filter stops the
    broadcast for everybody behind it. [register_webhook] stores the filters
    as they come; [match_filters] calls [lower] on the list and raises
    [AttributeError] for every event; so from then on [try_deliver_to_all]
    raises for every event, after serving the subscriptions registered
    before the bad one exactly as it did without it, and no subscription
    registered later is ever served. *)
Theorem malformed_filter_blocks_later_subscribers {D : Type}
    (d : Event → Webhook → D) (now : datetime) (url : string)
    (secret : option string) (x : string) (l : list string)
    (store later : list Subscription) (event : Event) :
  let store1 :=
    (register_webhook now url secret
       (Some {[ "platform" := FList (x :: l) ]}) store).1 in
  let before := try_deliver_to_all d event (as_webhook <$> store) in
  let after := try_deliver_to_all d event (as_webhook <$> (store1 ++ later)) in
  after.1 = before.1 ∧ after.2 = Some (default AttributeError before.2).
Proof.
  cbv zeta. unfold register_webhook. cbn [fst].
  rewrite <- app_assoc, fmap_app. cbn [app fmap list_fmap].
  rewrite (walk_stops_at_list_platform d event _ _ _ x l); [done|done|].
  cbn. apply lookup_singleton_eq.
Qed.

End blocked.

Section deliver.
Context {W : Type}.
Context (post : W → string → list (string * string) → string
                → W * result http_answer).
Context (clock : W → datetime) (dumps : Ecs → string).
Context (hmac_sha256 : string → string → string) (exn_text : exn → string).

(** The walk does not depend on what a delivery is. *)
Lemma walk_natural {D : Type} (d : Event → Webhook → D) (event : Event)
    (hooks : list Webhook) :
  try_deliver_to_all d event hooks
  = (d event <$> (served event hooks).1, (served event hooks).2).
Proof.
  unfold served. induction hooks as [|w hooks IH]; [done|]. cbn.
  destruct (w_enabled w); [|done].
  destruct (match_filters event (w_filters w)) as [matched|e]; [|done].
  rewrite IH. destruct (try_deliver_to_all (λ _ w0, w0) event hooks) as [out r].
  by destruct matched.
Qed.

(** One delivery: one document more, which tells what happened. *)
Lemma deliver_one_logged (event : Event) (w : Webhook) (st : delivery_state) :
  ∃ rec,
    (_deliver_one post clock dumps hmac_sha256 exn_text event w st).1.2
    = st.2 ++ [rec] ∧
    (dl_webhook_id rec = w_id w ∧ dl_url rec = w_url w ∧
     dl_event_fingerprint rec = fingerprint event) ∧
    let r := (_deliver_one post clock dumps hmac_sha256 exn_text event w st).2 in
    dl_status rec ∈ ["sent"; "failed"; "error"] ∧
    (dr_ok r = true ↔ dl_status rec = "sent") ∧
    (dr_status r = None ↔ dl_status rec = "error").
Proof.
  unfold _deliver_one. cbv zeta.
  destruct (post _ _ _ _) as [w1 [a|e]]; cbn.
  - eexists. split; [done|]. split; [done|]. cbn.
    case_bool_decide; (split; [repeat constructor|done]).
  - eexists. split; [done|]. split; [done|]. cbn. split; [repeat constructor|done].
Qed.

Lemma run_all_logged (event : Event) (ws : list Webhook) (st : delivery_state) :
  let '(st', out) :=
    run_all (_deliver_one post clock dumps hmac_sha256 exn_text event <$> ws) st in
  ∃ recs,
    st'.2 = st.2 ++ recs ∧
    Forall2 (λ rec w, dl_webhook_id rec = w_id w ∧ dl_url rec = w_url w ∧
                      dl_event_fingerprint rec = fingerprint event) recs ws ∧
    Forall2 (λ rec r, dl_status rec ∈ ["sent"; "failed"; "error"] ∧
                      (dr_ok r = true ↔ dl_status rec = "sent") ∧
                      (dr_status r = None ↔ dl_status rec = "error")) recs out.
Proof.
  revert st. induction ws as [|w ws IH]; intros st; cbn.
  - exists []. by rewrite app_nil_r.
  - destruct (deliver_one_logged event w st) as (rec & Hlog & Hrec & Hres).
    destruct (_deliver_one post clock dumps hmac_sha256 exn_text event w st)
      as [st1 r]. cbn in Hlog, Hres.
    specialize (IH st1).
    destruct (run_all _ st1) as [st2 rs].
    destruct IH as (recs & Hlog2 & Hrecs & Hress).
    exists (rec :: recs). split; [by rewrite Hlog2, Hlog, <- app_assoc|].
    split; by constructor.
Qed.

(** X17. Every delivery attempt is logged. A broadcast adds to the
    deliveries collection one document for each subscription served, in the
    order of the walk, with the identifier and URL of the subscription and
    the fingerprint of the event; a document says sent exactly when the
    result of the delivery is ok (a 2xx answer), error exactly when the POST
    raised, and failed otherwise. When a filter raises the documents of the
    subscriptions served before it are there all the same. *)
Theorem every_delivery_is_logged (event : Event) (hooks : list Webhook)
    (st : delivery_state) :
  let '(ws, err) := served event hooks in
  let '(st', out) :=
    deliver_to_all post clock dumps hmac_sha256 exn_text event hooks st in
  ∃ recs results,
    st'.2 = st.2 ++ recs ∧
    Forall2 (λ rec w, dl_webhook_id rec = w_id w ∧ dl_url rec = w_url w ∧
                      dl_event_fingerprint rec = fingerprint event) recs ws ∧
    Forall2 (λ rec r, dl_status rec ∈ ["sent"; "failed"; "error"] ∧
                      (dr_ok r = true ↔ dl_status rec = "sent") ∧
                      (dr_status r = None ↔ dl_status rec = "error"))
            recs results ∧
    out = match err with
          | Some e => Raise e
          | None => Ok results
          end.
Proof.
  unfold deliver_to_all. rewrite walk_natural.
  destruct (served event hooks) as [ws err]. cbn [fst snd].
  pose proof (run_all_logged event ws st) as H.
  destruct (run_all _ st) as [st' out].
  destruct H as (recs & Hlog & Hrecs & Hres).
  exists recs, out. by destruct err.
Qed.

End deliver.

(** A store whose identifiers are numbers written in unary. *)
Definition unary_ids : Mongo.
Proof.
  refine {| ObjectId := nat;
            oid_str := run "1";
            parse_oid := λ s, if bool_decide (s = run "1" (String.length s))
                              then Some (String.length s) else None;
            new_oid := λ l, S (foldr Nat.max 0 l);
            sort_newest := λ A key, merge_sort (λ a b, dt_le (key b) (key a)) |}.
  - intros n. assert (String.length (run "1" n) = n) as ->.
    { induction n as [|n IH]; cbn; congruence. }
    by rewrite bool_decide_eq_true_2.
  - intros l Hin.
    assert (∀ n, n ∈ l → n ≤ foldr Nat.max 0 l) as Hmax.
    { clear. induction l as [|m l IH]; intros n Hn; [by apply not_elem_of_nil in Hn|].
      cbn. apply elem_of_cons in Hn as [->|Hn]; [lia|].
      specialize (IH n Hn). lia. }
    specialize (Hmax _ Hin). lia.
  - intros A key l. apply merge_sort_Permutation.
Defined.

(** A subscription with a secret and no filter, registered and deleted. *)
Example register_delete_example :
  let '(store1, oid) :=
    @register_webhook unary_ids scenario_time " https://hook " (Some "s") None [] in
  @oid_str unary_ids oid = "1" ∧
  @list_webhooks unary_ids store1
  = [{| wi_id := "1"; wi_url := "https://hook"; wi_enabled := true;
        wi_filters := ∅ |}] ∧
  @delete_webhook unary_ids "1" store1 = ([], true) ∧
  @delete_webhook unary_ids "x" store1 = (store1, false).
Proof. vm_compute. done. Qed.

End SubscriptionsFacts.

(** ** The Slack alerts *)

Module AlertsFacts.
Import PyStr PyText PyStrFacts PyTextFacts Alerts.

(** *** Escaping *)

Lemma subst_app (f : ascii → string) (a b : string) :
  subst f (a +:+ b) = subst f a +:+ subst f b.
Proof.
  induction a as [|c a IH]; [done|]. rewrite app_cons. cbn [subst].
  by rewrite IH, app_assoc.
Qed.

Lemma subst_subst (f g : ascii → string) (s : string) :
  subst g (subst f s) = subst (λ c, subst g (f c)) s.
Proof.
  induction s as [|c s IH]; [done|]. cbn [subst]. by rewrite subst_app, IH.
Qed.

Lemma subst_ext (f g : ascii → string) (s : string) :
  (∀ c, f c = g c) → subst f s = subst g s.
Proof. intros H. induction s as [|c s IH]; [done|]. cbn. by rewrite H, IH. Qed.

(** [replace] of one character is a substitution. *)
Lemma replace_char (s : string) (c : ascii) (new : string) :
  replace s (String c "") new
  = subst (λ d, if bool_decide (d = c) then new else String d "") s.
Proof.
  rewrite replace_nonempty by done.
  induction s as [|d s IH]; [done|]. cbn [subst].
  destruct (decide (d = c)) as [->|Hne].
  - rewrite bool_decide_eq_true_2 by done.
    change (String c s) with (String c "" +:+ s).
    rewrite replace_go_hit by done. by rewrite IH.
  - rewrite bool_decide_eq_false_2 by done.
    rewrite replace_go_miss.
    + by rewrite IH, app_cons, app_nil_l.
    + cbn. destruct (ascii_dec c d); [congruence|done].
Qed.

Lemma esc_char_steps (c : ascii) :
  subst (λ c0, subst (λ d, if bool_decide (d = ">"%char) then "&gt;"
                            else String d "")
                     (if bool_decide (c0 = "<"%char) then "&lt;" else String c0 ""))
    (if bool_decide (c = "&"%char) then "&amp;" else String c "")
  = esc_char c.
Proof. destruct c as [[] [] [] [] [] [] [] []]; reflexivity. Qed.

Lemma esc_subst (s : string) : _esc s = subst esc_char s.
Proof.
  unfold _esc. rewrite !replace_char, !subst_subst.
  apply subst_ext, esc_char_steps.
Qed.

Lemma esc_char_no_angle (c : ascii) :
  has_char "<" (esc_char c) = false ∧ has_char ">" (esc_char c) = false.
Proof. destruct c as [[] [] [] [] [] [] [] []]; split; reflexivity. Qed.

Lemma esc_char_cons (c : ascii) : ∃ d r, esc_char c = String d r.
Proof. unfold esc_char. repeat case_bool_decide; by eexists _, _. Qed.

Lemma esc_char_inj (c1 c2 : ascii) (r1 r2 : string) :
  esc_char c1 +:+ r1 = esc_char c2 +:+ r2 → c1 = c2 ∧ r1 = r2.
Proof.
  unfold esc_char. repeat case_bool_decide; subst;
    rewrite ?app_cons, ?app_nil_l; intros Heq; by simplify_eq.
Qed.

(** X18. What [_esc] does to a text: each ampersand, less-than and
    greater-than sign becomes its entity and every other character stays,
    the three replacements in a row never touching the output of an earlier
    one; so the result holds no angle bracket, and two different texts are
    never escaped to the same text. *)
Theorem esc_escapes_each_character (s : string) :
  _esc s = subst esc_char s ∧
  has_char "<" (_esc s) = false ∧ has_char ">" (_esc s) = false ∧
  ∀ s', _esc s = _esc s' → s = s'.
Proof.
  split; [apply esc_subst|]. rewrite esc_subst. split_and!.
  - induction s as [|c s IH]; [done|]. cbn [subst].
    rewrite ListingFacts.has_char_app, IH. by rewrite (proj1 (esc_char_no_angle c)).
  - induction s as [|c s IH]; [done|]. cbn [subst].
    rewrite ListingFacts.has_char_app, IH. by rewrite (proj2 (esc_char_no_angle c)).
  - intros s'. rewrite esc_subst. revert s'.
    induction s as [|c s IH]; intros [|c' s']; cbn [subst]; try done.
    + destruct (esc_char_cons c') as (d & r & ->). by rewrite app_cons.
    + destruct (esc_char_cons c) as (d & r & ->). by rewrite app_cons.
    + intros [-> Hs]%esc_char_inj. by rewrite (IH s' Hs).
Qed.

(** *** Truncation *)

Lemma str_take_length (n : nat) (s : string) :
  String.length (str_take n s) = n `min` String.length s.
Proof.
  revert s. induction n as [|n IH]; intros [|c s]; cbn; try done.
  by rewrite IH.
Qed.

Section truncate.
Context (ellipsis : ascii).

(** X19. [_truncate(s, n)] for a bound of at least one character: a text of
    at most [n] characters comes back as it is; a longer one comes back as
    its first [n - 1] characters and the ellipsis, [n] characters in all.
    The result is never longer than [n]. *)
Theorem truncate_keeps_the_bound (s : string) (n : Z) :
  (1 ≤ n)%Z →
  (Z.of_nat (String.length (_truncate ellipsis s n)) ≤ n)%Z ∧
  ((Z.of_nat (String.length s) ≤ n)%Z → _truncate ellipsis s n = s) ∧
  ((n < Z.of_nat (String.length s))%Z →
   _truncate ellipsis s n
   = str_take (Z.to_nat (n - 1)) s +:+ String ellipsis "" ∧
   Z.of_nat (String.length (_truncate ellipsis s n)) = n).
Proof.
  intros Hn. unfold _truncate, slice_to.
  case_bool_decide as Hlen.
  - split; [done|]. split; [done|]. lia.
  - rewrite bool_decide_eq_false_2 by lia.
    assert (Z.of_nat (String.length
              (str_take (Z.to_nat (n - 1)) s +:+ String ellipsis "")) = n) as Hl.
    { rewrite length_app, str_take_length. cbn. lia. }
    split; [lia|]. split; [lia|]. done.
Qed.

End truncate.

Lemma truncate_keeps_the_bound_witness :
  _truncate "~" "0123456789" 4 = "012~".
Proof.
  destruct (truncate_keeps_the_bound "~" "0123456789" 4) as (_ & _ & H); [lia|].
  destruct H as [-> _]; [cbn; lia|]. reflexivity.
Defined.

(** With the bound 0 the result is as long as the text. *)
Example truncate_to_nothing : _truncate "~" "abc" 0 = "ab~".
Proof. reflexivity. Qed.

(** *** The POST of the webhook alert *)

Section post.
Context {W : Type}.
Context (post : W → W * call_result hook_answer).

(** More fuel does not change a result. *)
Lemma post_loop_fuel (fuel fuel' : nat) (tries : Z) (w : W)
    (r : W * post_log * call_result bool) :
  post_loop post fuel tries w = Some r → fuel ≤ fuel' →
  post_loop post fuel' tries w = Some r.
Proof.
  revert fuel' tries w r. induction fuel as [|fuel IH]; intros fuel' tries w r; [done|].
  intros H Hle. destruct fuel' as [|fuel']; [lia|].
  assert (∀ t w1 k, (x ← post_loop post fuel t w1; k x) = Some r →
            (x ← post_loop post fuel' t w1; k x) = Some r) as Hrec.
  { intros t w1 k Hk. destruct (post_loop post fuel t w1) as [x|] eqn:Hx; [|done].
    rewrite (IH fuel' t w1 x Hx); [done|lia]. }
  cbn [post_loop] in *. destruct (post w) as [w1 [a|e]].
  - destruct (a_retry_after a) as [retry|];
      repeat case_bool_decide; try done; try lia; try (by apply Hrec).
  - repeat case_bool_decide; try done; by apply Hrec.
Qed.

Lemma post_loop_ends (fuel : nat) (tries : Z) (w : W) :
  (0 ≤ tries ≤ 3)%Z → (4 - tries ≤ Z.of_nat fuel)%Z →
  ∃ w' log out,
    post_loop post fuel tries w = Some (w', log, out) ∧
    (Z.of_nat (posts log) ≤ 4 - tries)%Z ∧
    out ≠ Raises (Builtin RequestException).
Proof.
  revert tries w. induction fuel as [|fuel IH]; intros tries w Ht Hf; [lia|].
  assert (∀ nap t w1, (tries < t ≤ 3)%Z → t = (tries + 1)%Z →
            ∃ w' log out,
              ('(w2, log, out) ← post_loop post fuel t w1;
               Some (w2, add_post (Some nap) log, out)) = Some (w', log, out) ∧
              (Z.of_nat (posts log) ≤ 4 - tries)%Z ∧
              out ≠ Raises (Builtin RequestException)) as Hrec.
  { intros nap t w1 Hlt ->.
    destruct (IH (tries + 1)%Z w1) as (w' & log & out & -> & Hp & Hout); [lia|lia|].
    eexists _, _, _. split; [done|]. split; [cbn; lia|done]. }
  cbn [post_loop]. destruct (post w) as [w1 [a|e]].
  - case_bool_decide; [by eexists _, _, _; split; [done|]; split; [cbn; lia|]|].
    case_bool_decide as H429.
    + destruct (a_retry_after a) as [retry|];
        [|by eexists _, _, _; split; [done|]; split; [cbn; lia|]].
      case_bool_decide; [by eexists _, _, _; split; [done|]; split; [cbn; lia|]|].
      case_bool_decide; [apply Hrec; lia|].
      rewrite bool_decide_eq_false_2 by lia. cbn.
      eexists _, _, _. split; [done|]. split; [cbn; lia|done].
    + case_bool_decide; [apply Hrec; lia|].
      eexists _, _, _. split; [done|]. split; [cbn; lia|done].
  - case_bool_decide as He.
    + case_bool_decide; [|apply Hrec; lia].
      eexists _, _, _. split; [done|]. split; [cbn; lia|done].
    + eexists _, _, _. split; [done|]. split; [cbn; lia|]. congruence.
Qed.

(** X20. The POST of the webhook alert gives up. [_post_with_retry] ends
    after at most four POSTs, whatever the answers are (four turns of fuel
    are enough, and more fuel changes nothing); it returns a truth value or
    passes on an exception that is not a [RequestException]: network errors
    are counted as tries and end in [False]. *)
Theorem post_with_retry_gives_up (fuel : nat) (w : W) :
  4 ≤ fuel →
  ∃ w' log out,
    _post_with_retry post fuel w = Some (w', log, out) ∧
    _post_with_retry post 4 w = Some (w', log, out) ∧
    posts log ≤ 4 ∧
    out ≠ Raises (Builtin RequestException).
Proof.
  intros Hfuel. unfold _post_with_retry.
  destruct (post_loop_ends 4 0 w) as (w' & log & out & H4 & Hp & Hout); [lia|lia|].
  exists w', log, out. split; [by apply (post_loop_fuel 4)|].
  split; [done|]. split; [lia|done].
Qed.

End post.

(** A sink that answers 503 for ever: four POSTs, three sleeps, [False]. *)
Lemma post_with_retry_gives_up_witness :
  _post_with_retry
    (λ w : nat, (S w, Returns {| a_status := 503; a_retry_after := None |})) 10 0
  = Some (4, {| posts := 4; naps := [1500; 3000; 4500]%Z |}, Returns false).
Proof.
  destruct (post_with_retry_gives_up
              (λ w : nat, (S w, Returns {| a_status := 503; a_retry_after := None |}))
              10 0) as (w' & log & out & -> & H4 & _); [lia|].
  vm_compute in H4. by injection H4 as <- <- <-.
Defined.

End AlertsFacts.

(** ** The ServiceNow adapter in the fan-out *)

Module ServiceNowFacts.
Import PyStr PyText Config Store FanOut ServiceNow.

Lemma undeclared (settings : Settings) (name : string) :
  name ∉ declared → getattr settings name = Raise AttributeError.
Proof. intros H. unfold getattr. by rewrite bool_decide_eq_false_2. Qed.

Section create.
Context {W : Type}.
Context (post : W → string → string → W * result snow_answer).
Context (clock : W → datetime).
Context (payload : Event → string → string → value → value → string).

(** The adapter raises before it does anything. *)
Lemma create_ticket_raises (settings : Settings) (event : Event)
    (st : W * collection) :
  create_ticket_for_event post clock payload settings event st
  = (st, Raise AttributeError).
Proof.
  unfold create_ticket_for_event, _eligible.
  rewrite undeclared; [done|].
  apply (bool_decide_unpack _). vm_compute. exact I.
Qed.

(** X21. The ServiceNow adapter never gets past its first line. With the
    settings class of app/config.py, which declares no field
    [snow_create_on_detect], [create_ticket_for_event] raises
    [AttributeError] for every event under every environment, before any
    request and with the store untouched. In the fan-out of a connector the
    adapter stands third in the shared block: whatever the Jira and the GLPI
    adapter do, the two Slack alerts behind it are never invoked, the block
    ends with a printed error, and the webhook broadcast is still run. *)
Theorem servicenow_stops_the_ticket_block (settings : Settings) (event : Event)
    (st : W * collection) (call : adapter → result unit) :
  call ServiceNowTicket = adapter_call post clock payload settings event st →
  create_ticket_for_event post clock payload settings event st
    = (st, Raise AttributeError) ∧
  (SlackApiAlert ∉ invoked (fan_out call)) ∧
  (SlackWebhookAlert ∉ invoked (fan_out call)) ∧
  WebhookBroadcast ∈ invoked (fan_out call) ∧
  printed (fan_out call) ≠ [].
Proof.
  intros Hcall. split; [apply create_ticket_raises|].
  unfold adapter_call in Hcall. rewrite create_ticket_raises in Hcall.
  cbn in Hcall. unfold fan_out, ticket_block, broadcast_block. cbn [run_block].
  destruct (call JiraTicket) as [[]|e1]; cbn;
    [destruct (call GlpiTicket) as [[]|e2]; cbn; [rewrite Hcall; cbn|]|];
    destruct (call WebhookBroadcast) as [[]|e4]; cbn;
    (split_and!;
     [apply (bool_decide_unpack _); vm_compute; exact I
     |apply (bool_decide_unpack _); vm_compute; exact I
     |repeat constructor
     |done]).
Qed.

End create.

(** A fan-out in which every other adapter returns. *)
Lemma servicenow_stops_the_ticket_block_witness :
  let settings := {| field := λ _, VBool true |} in
  let post := λ (w : unit) (_ _ : string),
                (w, Ok {| sn_status := 201; sn_sys_id := Ok (Some "id") |}) in
  let call := λ a, match a with
                   | ServiceNowTicket =>
                       adapter_call post (λ _, Normalize.scenario_time)
                         (λ _ _ _ _ _, "{}") settings Normalize.scenario_event
                         ((), [])
                   | _ => Ok ()
                   end in
  invoked (fan_out call)
  = [JiraTicket; GlpiTicket; ServiceNowTicket; WebhookBroadcast].
Proof.
  intros settings post call.
  destruct (servicenow_stops_the_ticket_block post (λ _, Normalize.scenario_time)
              (λ _ _ _ _ _, "{}") settings Normalize.scenario_event ((), [])
              call eq_refl) as (_ & _ & _ & _ & _).
  reflexivity.
Defined.

End ServiceNowFacts.

(** ** The scheduler and the run-now route *)

Module SchedulerFacts.
Import Scheduler.

Section scans.
Context {W : Type}.
Context (scan : connector → W → W * call_result nat).

(** X22. The run-now route scans every connector, whatever connector it is
    asked for. It hands [run_scan] a list (or [None] for all), which equals
    none of the five names, so the call falls through to the dictionary of
    all five: Slack, Jira, Confluence, Trello and Teams are each scanned
    once, in this order, a scan that raises counting 0 without stopping the
    others. The scheduler, which passes the name itself, runs the one
    connector named. *)
Theorem run_now_scans_every_connector (connector : string) (w : W) :
  schedule_run_now scan connector w = scan_all scan w ∧
  run_scan scan (ArgStr "slack") w
  = ((safe_call scan Slack w).1, One (safe_call scan Slack w).2) ∧
  ∀ name, name ∉ ["slack"; "jira"; "confluence"; "trello"; "teams"] →
          run_scan scan (ArgStr name) w = scan_all scan w.
Proof.
  split; [|split].
  - unfold schedule_run_now. by case_bool_decide.
  - unfold run_scan. cbn. by destruct (safe_call scan Slack w).
  - intros name Hname. unfold run_scan, arg_is.
    repeat case_bool_decide; subst; try done;
      exfalso; apply Hname; repeat constructor.
Qed.

End scans.

(** Asked for Slack alone, with a Jira scan that raises: all five run. *)
Example run_now_for_slack :
  schedule_run_now
    (λ c (w : list connector),
       (w ++ [c], match c with Jira => Raises ValueError | _ => Returns 1 end))
    "slack" []
  = ([Slack; Jira; Confluence; Trello; Teams], All 1 0 1 1 1).
Proof. reflexivity. Qed.

End SchedulerFacts.

(** ** The one-shot exporter of app/exporter.py *)

Module LegacyExporterFacts.
Import PyStr PyText Store Listing Config LegacyExporter.

(** The Splunk wrapping reads a field the settings class does not declare. *)
Lemma payload_of_cases {ecs : Type} (wrap : ecs → list value → ecs)
    (settings : Settings) (rec : ecs) :
  payload_of wrap settings rec
  = if bool_decide (AUTH_SCHEME settings = "splunk")
    then Raises (Builtin AttributeError) else Returns rec.
Proof.
  unfold payload_of, read. rewrite SinksFacts.getattr_undeclared; [done|].
  apply (bool_decide_unpack _). vm_compute. exact I.
Qed.

Section export.
Context {W ecs : Type}.
Context (_to_ecs : Event → ecs).
Context (wrap : ecs → list value → ecs).
Context (sort_asc : list Doc → list Doc).
Context (post : W → string → list (string * string) → ecs → W * call_result Z).
Context (export_path : string → datetime → string).
Context (write_export : W → string → list ecs → W * call_result unit).

(** The loop, for a scheme other than splunk: it returns when every request
    was answered 2xx, with the failure count it started with, and ends with
    [NameError] at the first request that was not. *)
Lemma http_loop_spec (settings : Settings) (recs : list ecs) (ok fail : nat)
    (w : W) :
  AUTH_SCHEME settings ≠ "splunk" →
  (http_loop wrap post settings recs ok fail w).2
  = if all_accepted post settings recs w
    then Returns (ok + length recs, fail) else Raises NameError.
Proof.
  intros Hs. revert ok w.
  induction recs as [|rec rest IH]; intros ok w; cbn [http_loop all_accepted].
  - cbn. do 2 f_equal. lia.
  - rewrite payload_of_cases. rewrite bool_decide_eq_false_2 by done.
    destruct (post _ _ _ _) as [w1 [status|e]]; [|done].
    case_bool_decide; cbn [andb]; [|done].
    rewrite IH. destruct (all_accepted _ _ _ _); [|done].
    cbn [length]. do 2 f_equal. lia.
Qed.

(** With the Splunk scheme the first record raises before any request. *)
Lemma http_loop_splunk (settings : Settings) (rec : ecs) (rest : list ecs)
    (ok fail : nat) (w : W) :
  AUTH_SCHEME settings = "splunk" →
  http_loop wrap post settings (rec :: rest) ok fail w
  = (w, Raises (Builtin AttributeError)).
Proof.
  intros Hs. cbn [http_loop]. rewrite payload_of_cases.
  by rewrite bool_decide_eq_true_2.
Qed.

(** X23. In HTTP mode the one-shot exporter never reports a failed record.
    The branches that count a failure go on to read the name [DEBUG], which
    the module binds nowhere, so the first request that is refused or
    raises, at whatever record, ends [export_events] with [NameError]; under
    the Splunk scheme the first record raises [AttributeError] before any
    request, as the wrapping reads [settings.splunk_host]. A summary is
    returned exactly when every record was answered 2xx (or there is no
    record): it counts every stored event found at or after [since_dt] as
    exported and 0 as failed. *)
Theorem http_export_never_reports_a_failure (settings : Settings)
    (coll : list Doc) (since_dt : datetime) (w : W) :
  (∀ l, sort_asc l ≡ₚ l) →
  lower (text (or_else (field settings "siem_export_mode") (VStr "file")))
    = "http" →
  truthy (field settings "siem_http_url") = true →
  let run := export_events _to_ecs wrap sort_asc post export_path write_export
               settings coll since_dt w in
  let found := filter (λ d, dt_le since_dt (when d)) coll in
  let recs := (λ d, _to_ecs (body d)) <$> sort_asc found in
  (AUTH_SCHEME settings = "splunk" → found ≠ [] →
   run = (w, Raises (Builtin AttributeError))) ∧
  (AUTH_SCHEME settings ≠ "splunk" →
   run.2 = if all_accepted post settings recs w
           then Returns (HttpResult (length found) 0)
           else Raises NameError) ∧
  (found = [] → run = (w, Returns (HttpResult 0 0))) ∧
  (∀ r, run.2 = Returns r →
        r = HttpResult (length found) 0 ∧
        (AUTH_SCHEME settings = "splunk" → found = []) ∧
        (AUTH_SCHEME settings ≠ "splunk" →
         all_accepted post settings recs w = true)).
Proof.
  intros Hperm Hmode Hurl run found recs. subst run. unfold export_events.
  rewrite Hmode, Hurl. rewrite bool_decide_eq_true_2 by done. cbn [andb].
  fold found. fold recs.
  assert (length recs = length found) as Hlen.
  { unfold recs. by rewrite length_fmap, Hperm. }
  assert (found = [] → recs = []) as Hnil.
  { intros Hf. apply length_zero_iff_nil. by rewrite Hlen, Hf. }
  assert (AUTH_SCHEME settings = "splunk" → found ≠ [] →
          http_loop wrap post settings recs 0 0 w
          = (w, Raises (Builtin AttributeError))) as Hsplunk.
  { intros Hs Hne. destruct recs as [|rec rest] eqn:Hrecs.
    - exfalso. apply Hne. apply length_zero_iff_nil. by rewrite <- Hlen.
    - by apply http_loop_splunk. }
  assert (AUTH_SCHEME settings ≠ "splunk" →
          (http_loop wrap post settings recs 0 0 w).2
          = if all_accepted post settings recs w
            then Returns (length found, 0) else Raises NameError) as Hother.
  { intros Hs. rewrite http_loop_spec by done. by rewrite Hlen. }
  split_and!.
  - intros Hs Hne. by rewrite Hsplunk.
  - intros Hs. specialize (Hother Hs).
    destruct (http_loop _ _ _ _ _ _ _) as [w' r]. cbn [snd] in *. rewrite Hother.
    by destruct (all_accepted _ _ _ _).
  - intros Hf. by rewrite (Hnil Hf).
  - intros r Hr.
    destruct (decide (AUTH_SCHEME settings = "splunk")) as [Hs|Hs].
    + destruct (decide (found = [])) as [Hf|Hf].
      * rewrite (Hnil Hf) in Hr. cbn in Hr. injection Hr as <-.
        rewrite Hf. done.
      * rewrite Hsplunk in Hr by done. done.
    + specialize (Hother Hs).
      destruct (http_loop _ _ _ _ _ _ _) as [w' r0]. cbn [snd] in *.
      rewrite Hother in Hr.
      destruct (all_accepted _ _ _ _); [|done].
      injection Hr as <-. done.
Qed.

End export.

(** Two stored events, a bearer scheme and a sink that takes the first
    record and answers 500 to the second: the call ends with [NameError]. *)
Lemma http_export_never_reports_a_failure_witness :
  let settings :=
    {| field := λ name, if bool_decide (name = "siem_export_mode") then VStr "http"
                        else if bool_decide (name = "siem_http_url")
                             then VStr "http://siem.example/in"
                             else VNone |} in
  let post := λ (w : nat) (_ : string) (_ : list (string * string)) (_ : Event),
                (S w, Returns (if bool_decide (w = 0) then 200%Z else 500%Z)) in
  (export_events (λ e, e) (λ e _, e) (λ l, l) post (λ _ _, "out.ndjson")
     (λ w _ _, (w, Returns ())) settings five_apart (noon 4) 0).2
  = Raises NameError.
Proof.
  intros settings post.
  destruct (http_export_never_reports_a_failure (λ e, e) (λ e _, e) (λ l, l) post
              (λ _ _, "out.ndjson") (λ w _ _, (w, Returns ())) settings
              five_apart (noon 4) 0) as (_ & H & _).
  - done.
  - vm_compute. reflexivity.
  - vm_compute. reflexivity.
  - rewrite H; [|vm_compute; discriminate]. vm_compute. reflexivity.
Defined.

End LegacyExporterFacts.

(** ** The Teams connector: redaction and the count of a scan *)

Module TeamsFacts.
Import PyStr PyText TeamsDoc Teams.

Lemma str_take_app_prefix (p a : nat) (s t : string) :
  p ≤ a → p ≤ String.length s →
  str_take p (str_take a s +:+ t) = str_take p s.
Proof.
  revert a s. induction p as [|p IH]; intros a s Ha Hs.
  - by destruct (str_take a s +:+ t).
  - destruct s as [|c s]; cbn in Hs; [lia|].
    destruct a as [|a]; [lia|]. cbn [str_take].
    rewrite PyStrFacts.app_cons. cbn [str_take]. f_equal. apply IH; lia.
Qed.

Lemma str_take_take (p n : nat) (s : string) :
  p ≤ n → str_take p (str_take n s) = str_take p s.
Proof.
  revert n s. induction p as [|p IH]; intros n s Hn.
  - by destruct (str_take n s), s.
  - destruct n as [|n]; [lia|]. destruct s as [|c s]; [done|].
    cbn [str_take]. f_equal. apply IH. lia.
Qed.

(** A mask at or behind position [p] leaves the first [p] characters. *)
Lemma mask_keeps_prefix (p : nat) (out : string) (s : span) :
  p ≤ s.1 → p ≤ String.length out →
  str_take p (mask out s) = str_take p out ∧ p ≤ String.length (mask out s).
Proof.
  intros Ha Hlen. unfold mask. split.
  - by apply str_take_app_prefix.
  - rewrite !PyStrFacts.length_app, AlertsFacts.str_take_length. cbn. lia.
Qed.

Lemma foldl_mask_prefix (p : nat) (l : list span) (out : string) :
  Forall (λ s : span, p ≤ s.1) l → p ≤ String.length out →
  str_take p (foldl mask out l) = str_take p out.
Proof.
  intros Hall. revert out. induction Hall as [|s l Hs _ IH]; intros out Hlen.
  - done.
  - cbn [foldl]. destruct (mask_keeps_prefix p out s Hs Hlen) as [Heq Hlen'].
    by rewrite IH.
Qed.

Lemma insert_desc_perm (x : span) (l : list span) : insert_desc x l ≡ₚ x :: l.
Proof.
  induction l as [|y l IH]; cbn; [done|].
  case_bool_decide; [done|]. rewrite IH. apply Permutation_swap.
Qed.

Lemma sorted_desc_perm (l : list span) : sorted_desc l ≡ₚ l.
Proof.
  induction l as [|x l IH]; cbn; [done|]. by rewrite insert_desc_perm, IH.
Qed.

Lemma insert_desc_sorted (x : span) (l : list span) :
  StronglySorted later_first l → StronglySorted later_first (insert_desc x l).
Proof.
  induction 1 as [|y l Hl IH Hy]; cbn.
  - repeat constructor.
  - case_bool_decide as Hxy.
    + constructor; [by constructor|]. constructor; [done|].
      eapply Forall_impl; [exact Hy|]. unfold later_first. intros z Hz. cbn in *. lia.
    + constructor; [done|]. rewrite insert_desc_perm. constructor; [|done].
      unfold later_first. lia.
Qed.

Lemma sorted_desc_sorted (l : list span) : StronglySorted later_first (sorted_desc l).
Proof.
  induction l as [|x l IH]; cbn; [constructor|]. by apply insert_desc_sorted.
Qed.

(** In a list sorted this way the spans that start at or behind [p] come
    first. *)
Lemma sorted_prefix (p : nat) (s : list span) :
  StronglySorted later_first s →
  ∀ n, n ≤ length (filter (λ x : span, p ≤ x.1) s) → Forall (λ x : span, p ≤ x.1) (take n s).
Proof.
  induction 1 as [|x s Hs IH Hx]; intros n Hn.
  - by rewrite take_nil.
  - destruct n as [|n]; [constructor|]. cbn [take].
    rewrite filter_cons in Hn. case_decide as Hp.
    + constructor; [done|]. apply IH. rewrite length_cons in Hn.
      lia.
    + exfalso. assert (filter (λ x : span, p ≤ x.1) s = []) as Hnil.
      { clear -Hx Hp. induction Hx as [|y s Hy _ IHs]; [done|].
        rewrite filter_cons, decide_False; [done|]. unfold later_first in Hy. lia. }
      rewrite Hnil in Hn. cbn in Hn. lia.
Qed.

(** X24. Redaction masks the last ten matches only. The stored snippet
    never has more than 500 characters, whatever the matches; without a
    match it is the first 500 characters of the message. When ten or more
    of the matches start at or behind a position [p] of the text, the first
    [p] characters of the snippet are the first [p] characters of the
    message: a match that ends before [p] is stored in clear. *)
Theorem redact_masks_the_last_ten_only (text : string) (matches : list span) :
  String.length (_redact text matches) ≤ 500 ∧
  _redact text [] = str_take 500 text ∧
  ∀ p, p ≤ 500 → p ≤ String.length text →
       10 ≤ length (filter (λ s : span, p ≤ s.1) matches) →
       str_take p (_redact text matches) = str_take p text.
Proof.
  split; [|split; [done|]].
  - unfold _redact. destruct matches; apply PyStrFacts.str_take_length_le.
  - intros p Hp Hlen Hten. unfold _redact. destruct matches as [|m ms] eqn:Hm.
    { cbn in Hten. lia. }
    rewrite <- Hm in *. clear Hm.
    rewrite str_take_take by done. apply foldl_mask_prefix; [|done].
    apply sorted_prefix; [apply sorted_desc_sorted|].
    rewrite (Permutation_length
               (filter_Permutation _ _ _ (sorted_desc_perm matches))).
    exact Hten.
Qed.

(** Eleven keys in a message: the first one is stored as it was written. *)
Lemma redact_masks_the_last_ten_only_witness :
  let text := "k k k k k k k k k k k" in
  let matches := [(0, 1); (2, 3); (4, 5); (6, 7); (8, 9); (10, 11); (12, 13);
                  (14, 15); (16, 17); (18, 19); (20, 21)] in
  String.length (_redact text matches) ≤ 500 ∧
  str_take 2 (_redact text matches) = "k ".
Proof.
  intros text matches.
  destruct (redact_masks_the_last_ten_only text matches) as (Hlen & _ & Hpre).
  split; [exact Hlen|].
  apply (Hpre 2); [lia | cbn; lia | vm_compute; lia].
Defined.

Example redact_eleven_keys :
  _redact "k k k k k k k k k k k"
    [(0, 1); (2, 3); (4, 5); (6, 7); (8, 9); (10, 11); (12, 13);
     (14, 15); (16, 17); (18, 19); (20, 21)]
  = "k **** **** **** **** **** **** **** **** **** ****".
Proof. vm_compute. reflexivity. Qed.

Section store.
Context {W : Type}.
Context (_now_iso : W → W * string).
Context (sha256_hex : string → string).
Context (_strip_html : string → string).
Context (db_raises : W → W * bool).
Context (PATTERNS : list (string * (string → list span))).

Lemma upsert_keeps (docs : list TeamsEvent) (fp : string) (ev : TeamsEvent)
    (x : option string) :
  x ∈ fingerprint <$> docs → x ∈ fingerprint <$> upsert docs fp ev.
Proof.
  intros Hx. unfold upsert. case_bool_decide; [done|].
  rewrite fmap_app. apply elem_of_app. by left.
Qed.

Lemma upsert_has (docs : list TeamsEvent) (fp t : string) (ev : TeamsEvent) :
  Some fp ∈ fingerprint <$> upsert docs fp (stamped fp t ev).
Proof.
  unfold upsert. case_bool_decide; [done|].
  rewrite fmap_app. apply elem_of_app. right. cbn. apply list_elem_of_here.
Qed.

Lemma upsert_present (docs : list TeamsEvent) (fp : string) (ev : TeamsEvent) :
  Some fp ∈ fingerprint <$> docs → upsert docs fp ev = docs.
Proof. intros H. unfold upsert. by rewrite bool_decide_eq_true_2. Qed.

Section run.
Hypothesis db_answers : ∀ w, (db_raises w).2 = false.

(** The step of the loop for a label with matches, when the database
    answers. *)
Lemma store_event_answers (ev : TeamsEvent) (st : W * list TeamsEvent) :
  ∃ w t,
    _store_event _now_iso sha256_hex _strip_html db_raises ev st
    = ((w, upsert st.2 (_fingerprint sha256_hex _strip_html ev)
             (stamped (_fingerprint sha256_hex _strip_html ev) t ev)), true).
Proof.
  unfold _store_event. destruct (_now_iso st.1) as [w1 t].
  pose proof (db_answers w1) as H. destruct (db_raises w1) as [w2 r].
  cbn in H. subst r. by exists w2, t.
Qed.

Lemma detect_loop_counts (pats : list (string * (string → list span)))
    (text : string) (meta : Meta) (new : nat) (st : W * list TeamsEvent) :
  (detect_loop _now_iso sha256_hex _strip_html db_raises pats text meta new st).2
  = new + length (hits pats text).
Proof.
  revert new st. induction pats as [|[label finditer] rest IH]; intros new st.
  - cbn. lia.
  - cbn [detect_loop]. unfold hits. rewrite filter_cons. cbn [snd].
    destruct (finditer text) as [|m ms] eqn:Hm.
    + rewrite decide_False by (intros H; by apply H). apply IH.
    + rewrite decide_True by done.
      destruct (_now_iso st.1) as [w1 t].
      destruct (store_event_answers
                  (event_of label text t meta (m :: ms)) (w1, st.2))
        as (w2 & t2 & ->).
      rewrite IH. unfold hits. cbn [length]. lia.
Qed.

Lemma detect_loop_covers (pats : list (string * (string → list span)))
    (text : string) (meta : Meta) (new : nat) (st : W * list TeamsEvent) :
  let after :=
    (detect_loop _now_iso sha256_hex _strip_html db_raises pats text meta new
       st).1.2 in
  (∀ x, x ∈ fingerprint <$> st.2 → x ∈ fingerprint <$> after) ∧
  (∀ p, p ∈ hits pats text → Some (fp_of sha256_hex _strip_html text meta p) ∈ fingerprint <$> after).
Proof.
  revert new st. induction pats as [|[label finditer] rest IH]; intros new st.
  - cbn. split; [done|]. intros p Hp. by apply not_elem_of_nil in Hp.
  - cbn [detect_loop]. unfold hits. rewrite filter_cons. cbn [snd].
    destruct (finditer text) as [|m ms] eqn:Hm.
    + rewrite decide_False by (intros H; by apply H). apply IH.
    + rewrite decide_True by done.
      destruct (_now_iso st.1) as [w1 t].
      destruct (store_event_answers
                  (event_of label text t meta (m :: ms)) (w1, st.2))
        as (w2 & t2 & ->).
      cbn zeta. match goal with |- context [detect_loop _ _ _ _ _ _ _ ?n ?s] =>
        destruct (IH n s) as [Hkeep Hhits] end.
      cbn [fst snd] in *. split.
      * intros x Hx. apply Hkeep. by apply upsert_keeps.
      * intros p Hp. apply elem_of_cons in Hp as [->|Hp]; [|by apply Hhits].
        apply Hkeep. unfold fp_of. cbn [fst snd]. rewrite Hm.
        apply upsert_has.
Qed.

Lemma detect_loop_again (pats : list (string * (string → list span)))
    (text : string) (meta : Meta) (new : nat) (st : W * list TeamsEvent) :
  (∀ p, p ∈ hits pats text → Some (fp_of sha256_hex _strip_html text meta p) ∈ fingerprint <$> st.2) →
  (detect_loop _now_iso sha256_hex _strip_html db_raises pats text meta new
     st).1.2 = st.2.
Proof.
  revert new st. induction pats as [|[label finditer] rest IH]; intros new st.
  - done.
  - cbn [detect_loop]. unfold hits. rewrite filter_cons. cbn [snd].
    destruct (finditer text) as [|m ms] eqn:Hm.
    + rewrite decide_False by (intros H; by apply H). apply IH.
    + rewrite decide_True by done. intros Hin.
      destruct (_now_iso st.1) as [w1 t].
      destruct (store_event_answers
                  (event_of label text t meta (m :: ms)) (w1, st.2))
        as (w2 & t2 & ->).
      cbn [fst snd].
      assert (upsert st.2
                (_fingerprint sha256_hex _strip_html
                   (event_of label text t meta (m :: ms)))
                (stamped (_fingerprint sha256_hex _strip_html
                            (event_of label text t meta (m :: ms))) t2
                   (event_of label text t meta (m :: ms))) = st.2) as Hsame.
      { apply upsert_present.
        specialize (Hin (label, finditer) ltac:(apply list_elem_of_here)).
        unfold fp_of in Hin. cbn [fst snd] in Hin. by rewrite Hm in Hin. }
      rewrite Hsame. rewrite IH; [done|].
      intros p Hp. cbn [snd]. apply Hin. by apply elem_of_cons; right.
Qed.

(** X25. A Teams scan counts detections, not new events. When the database
    answers, [_detect_and_store] returns the number of patterns with a match
    in the text whether or not their events were already stored: run a
    second time on the same message it returns the same number and leaves
    the stored events as they were. *)
Theorem rescan_counts_the_detections_again (text : string) (meta : Meta)
    (st : W * list TeamsEvent) :
  let first :=
    _detect_and_store _now_iso sha256_hex _strip_html db_raises PATTERNS text
      meta st in
  let second :=
    _detect_and_store _now_iso sha256_hex _strip_html db_raises PATTERNS text
      meta first.1 in
  first.2 = length (hits PATTERNS text) ∧
  second.2 = length (hits PATTERNS text) ∧
  second.1.2 = first.1.2.
Proof.
  intros first second. subst first second. unfold _detect_and_store.
  rewrite !detect_loop_counts. split_and!; [done..|].
  apply detect_loop_again.
  apply (detect_loop_covers PATTERNS text meta 0 st).
Qed.

End run.
End store.

(** Two patterns, one of them with a match, and a message scanned twice. *)
Lemma rescan_counts_the_detections_again_witness :
  let now := λ w : nat, (S w, "2024-05-01T10:00:00+00:00") in
  let db := λ w : nat, (w, false) in
  let patterns := [("aws_key", λ _ : string, [(4, 8)]);
                   ("iban", λ _ : string, [])] in
  let meta := {| m_severity := "Medium"; m_author_id := "u1";
                 m_author_name := "Ada"; m_container := "team/channel";
                 m_container_id := "t1/c1"; m_container_name := "Team/General";
                 m_record_id := "m1"; m_url := "" |} in
  let first := _detect_and_store now (λ s, s) (λ s, s) db patterns
                 "key AKIA here" meta (0, []) in
  let second := _detect_and_store now (λ s, s) (λ s, s) db patterns
                  "key AKIA here" meta first.1 in
  first.2 = 1 ∧ second.2 = 1 ∧ second.1.2 = first.1.2.
Proof.
  intros now db patterns meta.
  apply (rescan_counts_the_detections_again now (λ s, s) (λ s, s) db patterns
           (λ w, eq_refl) "key AKIA here" meta (0, [])).
Defined.

End TeamsFacts.
